(** * xv6 lock lab: buffer cache (kernel/bio.c) and per-CPU page allocator
      (kernel/kalloc.c)

    A shallow embedding of the two kernel files and the properties their
    specification states about them.

    Conventions of the embedding.
    - C integers are [Z] with the wrap-around of their type written out
      ([uint_wrap], [int_wrap]).
    - [bcache.buf] is an arena: a [struct buf *] is the index of the buffer
      in [bufs].  The chain [head.next -> b1 -> b2 -> ... -> 0] of a bucket
      is the list [[b1; b2; ...]] of such indices, so a [next] field is the
      position of a buffer in its chain.
    - A pointer to a node of a chain that is used for its [next] field
      ([prev_b], [prev_lru_b]) is a [link]: the bucket and the position of
      the link in the chain, position 0 being the [head] sentinel.
    - Kernel code runs in a small state-and-outcome monad; the outcomes are
      a normal return, a [panic], a dereference of the null pointer and a
      process put to sleep on a sleep-lock.
    - The state carries the spin-locks the CPU holds and a log of the
      actions on shared buffer state, each with the locks held when it
      happened. *)

From Stdlib Require Import ZArith String Strings.Byte.
From stdpp Require Import base list numbers option.

Open Scope Z_scope.

(** ** C integer types *)

Definition uint_wrap (z : Z) : Z := z mod 2 ^ 32.
Definition int_wrap (z : Z) : Z := (z + 2 ^ 31) mod 2 ^ 32 - 2 ^ 31.

Definition INT_MIN : Z := - 2 ^ 31.
Definition INT_MAX : Z := 2 ^ 31 - 1.
Definition UINT_MAX : Z := 2 ^ 32 - 1.

Definition is_uint (z : Z) : Prop := 0 <= z <= UINT_MAX.
Definition is_int (z : Z) : Prop := INT_MIN <= z <= INT_MAX.

Module Bio.

(** ** Constants *)

(** [#define NBUK 13] *)
Definition NBUK : Z := 13.

(** Modelled from the spec: param.h is not under src/; the pool has
    [NBUF] = 30 buffers (also the comment on [bcache.buf] in bio.c). *)
Definition NBUF : nat := 30.

(** [#define hash(dev, blockno) ((dev * blockno) % NBUK)], on [uint]
    operands: the product wraps at 32 bits before the remainder. *)
Definition hash (dev blockno : Z) : Z := uint_wrap (dev * blockno) mod NBUK.

(** ** Data *)

(** Modelled from the spec: the SleepLock primitive (sleeplock.c) is not
    under src/.  A sleep-lock is free ([None]) or held by one process
    ([Some pid]). *)
Definition sleeplock : Type := option Z.

(** Modelled from the spec: buf.h is not under src/.  [valid], [dev],
    [blockno] follow their use in bio.c ([uint dev], [uint blockno]);
    [refcnt] is an [int] as the spec gives it; [timestamp] holds a value
    of the tick counter, a [uint].  The [next] field is the chain
    structure of [kstate]. *)
Record buf : Type := mkbuf {
  valid : Z;
  dev : Z;
  blockno : Z;
  lock : sleeplock;
  refcnt : Z;
  timestamp : Z;
  data : list byte
}.

Global Instance buf_inhabited : Inhabited buf :=
  populate (mkbuf 0 0 0 None 0 0 []).

Inductive spinlock : Type :=
| BcacheLock                (* bcache.lock *)
| BucketLock (i : Z).       (* bcache.buckets[i].lock *)

Global Instance spinlock_eq_dec : EqDecision spinlock.
Proof. solve_decision. Defined.

(** Actions on shared buffer state, logged with the spin-locks held. *)
Inductive action : Type :=
| AUnlink (bucket : Z) (b : nat)    (* b leaves the chain of bucket *)
| ASplice (bucket : Z) (b : nat)    (* b enters the chain of bucket *)
| ARefcnt (b : nat)                 (* write of b->refcnt *)
| AStamp (b : nat)                  (* write of b->timestamp *)
| AAcquireSleep (b : nat)
| AReleaseSleep (b : nat).

Global Instance action_eq_dec : EqDecision action.
Proof. solve_decision. Defined.

Record kstate : Type := mkstate {
  bufs : list buf;                       (* bcache.buf *)
  chains : list (list nat);              (* bcache.buckets[i].head.next ... *)
  held : list spinlock;                  (* spin-locks held by this CPU *)
  ticks : Z;                             (* the tick counter *)
  curproc : Z;                           (* myproc()->pid *)
  disk : Z -> Z -> list byte;            (* the block device *)
  log : list (action * list spinlock)
}.

Definition set_bufs (f : list buf -> list buf) (s : kstate) : kstate :=
  mkstate (f (bufs s)) (chains s) (held s) (ticks s) (curproc s) (disk s) (log s).
Definition set_chains (f : list (list nat) -> list (list nat)) (s : kstate) : kstate :=
  mkstate (bufs s) (f (chains s)) (held s) (ticks s) (curproc s) (disk s) (log s).
Definition set_held (f : list spinlock -> list spinlock) (s : kstate) : kstate :=
  mkstate (bufs s) (chains s) (f (held s)) (ticks s) (curproc s) (disk s) (log s).
Definition set_disk (f : (Z -> Z -> list byte) -> Z -> Z -> list byte) (s : kstate) : kstate :=
  mkstate (bufs s) (chains s) (held s) (ticks s) (curproc s) (f (disk s)) (log s).
Definition add_log (a : action) (s : kstate) : kstate :=
  mkstate (bufs s) (chains s) (held s) (ticks s) (curproc s) (disk s)
          (log s ++ [(a, held s)]).

(** [*b] for a buffer pointer [b]. *)
Definition bufat (s : kstate) (b : nat) : buf := bufs s !!! b.

(** The chain of [bcache.buckets[i]]. *)
Definition chain_of (cs : list (list nat)) (i : Z) : list nat :=
  default [] (cs !! Z.to_nat i).

(** A pointer used for its [next] field: the link at position [lpos] of
    the chain of bucket [lbucket]; position 0 is [&buckets[i].head]. *)
Record link : Type := mklink { lbucket : Z; lpos : nat }.

(** ** The monad of kernel code *)

Inductive result (A : Type) : Type :=
| Ret (a : A) (s : kstate)
| Panic (msg : string) (s : kstate)
| NullDeref (s : kstate)
| Sleeps (s : kstate).
Arguments Ret {A} a s.
Arguments Panic {A} msg s.
Arguments NullDeref {A} s.
Arguments Sleeps {A} s.

Definition M (A : Type) : Type := kstate -> result A.

Definition ret {A} (a : A) : M A := fun s => Ret a s.

Definition bind {A B} (m : M A) (k : A -> M B) : M B :=
  fun s =>
    match m s with
    | Ret a s' => k a s'
    | Panic msg s' => Panic msg s'
    | NullDeref s' => NullDeref s'
    | Sleeps s' => Sleeps s'
    end.

Notation "'do' x '<-' m ';' k" := (bind m (fun x => k))
  (at level 10, x name, m at level 100, k at level 200).
Notation "'exec' m ';' k" := (bind m (fun _ => k))
  (at level 10, m at level 100, k at level 200).

Definition get : M kstate := fun s => Ret s s.
Definition modify (f : kstate -> kstate) : M unit := fun s => Ret tt (f s).
Definition panic {A} (msg : string) : M A := fun s => Panic msg s.
Definition null_deref {A} : M A := fun s => NullDeref s.

(** The state in which an outcome leaves the kernel. *)
Definition final {A} (r : result A) : kstate :=
  match r with
  | Ret _ s | Panic _ s | NullDeref s | Sleeps s => s
  end.

(** ** Primitives outside bio.c *)

(** Modelled from the spec: the SpinLock primitive (spinlock.c) is not
    under src/; [acquire] and [release] add the lock to, and remove it
    from, the locks the CPU holds. *)
Definition acquire (l : spinlock) : M unit :=
  modify (set_held (fun h => l :: h)).
Definition release (l : spinlock) : M unit :=
  modify (set_held (fun h => filter (fun l' => l' <> l) h)).

Definition set_lock (v : sleeplock) (b : buf) : buf :=
  mkbuf (valid b) (dev b) (blockno b) v (refcnt b) (timestamp b) (data b).
Definition set_refcnt (v : Z) (b : buf) : buf :=
  mkbuf (valid b) (dev b) (blockno b) (lock b) v (timestamp b) (data b).
Definition set_timestamp (v : Z) (b : buf) : buf :=
  mkbuf (valid b) (dev b) (blockno b) (lock b) (refcnt b) v (data b).
Definition set_valid (v : Z) (b : buf) : buf :=
  mkbuf v (dev b) (blockno b) (lock b) (refcnt b) (timestamp b) (data b).
Definition set_dev (v : Z) (b : buf) : buf :=
  mkbuf (valid b) v (blockno b) (lock b) (refcnt b) (timestamp b) (data b).
Definition set_blockno (v : Z) (b : buf) : buf :=
  mkbuf (valid b) (dev b) v (lock b) (refcnt b) (timestamp b) (data b).
Definition set_data (v : list byte) (b : buf) : buf :=
  mkbuf (valid b) (dev b) (blockno b) (lock b) (refcnt b) (timestamp b) v.

(** A write through a buffer pointer. *)
Definition upd (b : nat) (f : buf -> buf) : M unit :=
  modify (set_bufs (alter f b)).

(** Modelled from the spec: SleepLock [held?]. *)
Definition holdingsleep (b : nat) : M bool :=
  do s <- get;
  ret (bool_decide (lock (bufat s b) = Some (curproc s))).

(** Modelled from the spec: SleepLock [acquire]; the caller sleeps while
    the lock is held. *)
Definition acquiresleep (b : nat) : M unit :=
  do s <- get;
  match lock (bufat s b) with
  | Some _ => fun s' => Sleeps s'
  | None =>
      exec upd b (set_lock (Some (curproc s)));
      modify (add_log (AAcquireSleep b))
  end.

(** Modelled from the spec: SleepLock [release]. *)
Definition releasesleep (b : nat) : M unit :=
  exec upd b (set_lock None);
  modify (add_log (AReleaseSleep b)).

(** Modelled from the spec: [DiskIO.rw(buf, direction)] (virtio_disk.c is
    not under src/), synchronous and infallible; it moves one block
    between the buffer and the device. *)
Definition virtio_disk_rw (b : nat) (write : Z) : M unit :=
  do s <- get;
  let bf := bufat s b in
  if write =? 0
  then upd b (set_data (disk s (dev bf) (blockno bf)))
  else modify (set_disk (fun d dv bn =>
         if (dv =? dev bf) && (bn =? blockno bf) then data bf else d dv bn)).

(** ** bio.c *)

(** The state of [bcache] before [binit]: zeroed storage. *)
Definition boot (tk pid : Z) (d : Z -> Z -> list byte) : kstate :=
  mkstate (replicate NBUF (mkbuf 0 0 0 None 0 0 [])) (replicate (Z.to_nat NBUK) [])
          [] tk pid d [].

(** [binit]: every bucket gets an empty chain, and bucket 0 then receives
    [buf[0] -> buf[1] -> ... -> buf[NBUF-1]]; each buffer is stamped with
    [ticks] and its sleep-lock initialised. *)
Definition binit : M unit :=
  do s <- get;
  exec modify (set_chains (fun _ =>
         map (fun i => if i =? 0 then seq 0 NBUF else []) (seqZ 0 NBUK)));
  modify (set_bufs (map (fun b => set_lock None (set_timestamp (ticks s) b)))).

(** The loop [b = head.next; while(b){ if(b->dev == dev && b->blockno ==
    blockno) ...; b = b->next; }]: the first buffer of the chain with the
    identity looked for. *)
Fixpoint lookup_chain (bs : list buf) (dv bn : Z) (chain : list nat) : option nat :=
  match chain with
  | [] => None
  | b :: rest =>
      if (dev (bs !!! b) =? dv) && (blockno (bs !!! b) =? bn)
      then Some b
      else lookup_chain bs dv bn rest
  end.

(** The locals of the eviction scan. [max_timestamp] is an [int]. *)
Record scan : Type := mkscan {
  max_timestamp : Z;
  is_better : bool;
  prev_lru_b : option link
}.

(** The loop [while(prev_b->next){ ... prev_b = prev_b->next; }] over the
    chain of bucket [i], with [prev_b] the link at position [p].  The test
    [timestamp >= max_timestamp] compares a [uint] with an [int], so the
    [int] is converted to [uint]; the assignment converts back. *)
Fixpoint scan_chain (bs : list buf) (i : Z) (p : nat) (chain : list nat) (sc : scan) : scan :=
  match chain with
  | [] => sc
  | b :: rest =>
      if (refcnt (bs !!! b) =? 0)
         && (timestamp (bs !!! b) >=? uint_wrap (max_timestamp sc))
      then scan_chain bs i (S p) rest
             (mkscan (int_wrap (timestamp (bs !!! b))) true (Some (mklink i p)))
      else scan_chain bs i (S p) rest sc
  end.

(** One iteration of [for(int i = 0; i < NBUK; i++)]; the loop state is
    the scan locals and [lru_buk_id]. *)
Definition scan_bucket (i : Z) (st : scan * Z) : M (scan * Z) :=
  let '(sc, lru_buk_id) := st in
  exec acquire (BucketLock i);
  do s <- get;
  let sc' := scan_chain (bufs s) i 0 (chain_of (chains s) i) sc in
  if is_better sc' then
    exec (if lru_buk_id =? -1 then ret tt else release (BucketLock lru_buk_id));
    ret (mkscan (max_timestamp sc') false (prev_lru_b sc'), i)
  else
    exec release (BucketLock i);
    ret (mkscan (max_timestamp sc') false (prev_lru_b sc'), lru_buk_id).

Fixpoint for_each {A} (body : Z -> A -> M A) (idx : list Z) (a : A) : M A :=
  match idx with
  | [] => ret a
  | i :: rest => do a' <- body i a; for_each body rest a'
  end.

(** [prev_lru_b->next = prev_lru_b->next->next]. *)
Definition unlink (l : link) (b : nat) : M unit :=
  exec modify (set_chains (alter (delete (lpos l)) (Z.to_nat (lbucket l))));
  modify (add_log (AUnlink (lbucket l) b)).

(** [lru_b->next = head.next; head.next = lru_b]. *)
Definition splice (i : Z) (b : nat) : M unit :=
  exec modify (set_chains (alter (cons b) (Z.to_nat i)));
  modify (add_log (ASplice i b)).

(** [b->refcnt++] and [b->refcnt--]. *)
Definition refcnt_incr (b : nat) : M unit :=
  exec upd b (fun bf => set_refcnt (int_wrap (refcnt bf + 1)) bf);
  modify (add_log (ARefcnt b)).
Definition refcnt_decr (b : nat) : M unit :=
  exec upd b (fun bf => set_refcnt (int_wrap (refcnt bf - 1)) bf);
  modify (add_log (ARefcnt b)).

Definition bget (dv bn : Z) : M nat :=
  let buk_id := hash dv bn in
  exec acquire (BucketLock buk_id);
  do s <- get;
  match lookup_chain (bufs s) dv bn (chain_of (chains s) buk_id) with
  | Some b =>
      exec refcnt_incr b;
      exec release (BucketLock buk_id);
      exec acquiresleep b;
      ret b
  | None =>
      exec release (BucketLock buk_id);
      do st <- for_each scan_bucket (seqZ 0 NBUK) (mkscan 0 false None, -1);
      let '(sc, lru_buk_id) := st in
      (* lru_b = prev_lru_b->next *)
      do lru_b <- match prev_lru_b sc with
                  | None => null_deref
                  | Some l => do s <- get; ret (chain_of (chains s) (lbucket l) !! lpos l)
                  end;
      exec match lru_b, prev_lru_b sc with
           | Some b, Some l =>
               exec unlink l b;
               release (BucketLock lru_buk_id)
           | _, _ => ret tt
           end;
      exec acquire BcacheLock;
      exec acquire (BucketLock buk_id);
      exec match lru_b with
           | Some b => splice buk_id b
           | None => ret tt
           end;
      do s <- get;
      match lookup_chain (bufs s) dv bn (chain_of (chains s) buk_id) with
      | Some b =>
          exec refcnt_incr b;
          exec release (BucketLock buk_id);
          exec release BcacheLock;
          exec acquiresleep b;
          ret b
      | None =>
          match lru_b with
          | None => panic "bget: no buffers"
          | Some b =>
              exec upd b (set_dev dv);
              exec upd b (set_blockno bn);
              exec upd b (set_valid 0);
              exec upd b (set_refcnt 1);
              exec modify (add_log (ARefcnt b));
              exec release (BucketLock buk_id);
              exec release BcacheLock;
              exec acquiresleep b;
              ret b
          end
      end
  end.

Definition bread (dv bn : Z) : M nat :=
  do b <- bget dv bn;
  do s <- get;
  exec (if valid (bufat s b) =? 0
        then exec virtio_disk_rw b 0; upd b (set_valid 1)
        else ret tt);
  ret b.

Definition bwrite (b : nat) : M unit :=
  do h <- holdingsleep b;
  if negb h then panic "bwrite"
  else virtio_disk_rw b 1.

Definition brelse (b : nat) : M unit :=
  do h <- holdingsleep b;
  if negb h then panic "brelse"
  else
    exec releasesleep b;
    do s <- get;
    let buk_id := hash (dev (bufat s b)) (blockno (bufat s b)) in
    exec acquire (BucketLock buk_id);
    exec refcnt_decr b;
    do s <- get;
    exec (if refcnt (bufat s b) =? 0
          then exec upd b (set_timestamp (ticks s)); modify (add_log (AStamp b))
          else ret tt);
    release (BucketLock buk_id).

Definition bpin (b : nat) : M unit :=
  do s <- get;
  let buk_id := hash (dev (bufat s b)) (blockno (bufat s b)) in
  exec acquire (BucketLock buk_id);
  exec refcnt_incr b;
  release (BucketLock buk_id).

Definition bunpin (b : nat) : M unit :=
  do s <- get;
  let buk_id := hash (dev (bufat s b)) (blockno (bufat s b)) in
  exec acquire (BucketLock buk_id);
  exec refcnt_decr b;
  release (BucketLock buk_id).

(** ** The eviction scan as a function *)

(** The effect of one iteration of the scan loop on its locals. *)
Definition scan_step (bs : list buf) (cs : list (list nat)) (st : scan * Z) (i : Z)
  : scan * Z :=
  let sc' := scan_chain bs i 0 (chain_of cs i) (fst st) in
  (mkscan (max_timestamp sc') false (prev_lru_b sc'),
   if is_better sc' then i else snd st).

Definition lru_scan (bs : list buf) (cs : list (list nat)) : scan * Z :=
  fold_left (scan_step bs cs) (seqZ 0 NBUK) (mkscan 0 false None, -1).

(** The bucket lock the scan retains when [lru_buk_id] is [id]. *)
Definition scan_locks (id : Z) : list spinlock :=
  if id =? -1 then [] else [BucketLock id].

(** The buffers in the order the scan meets them: buckets 0 .. NBUK-1,
    each chain from its head. *)
Definition scan_order (s : kstate) : list nat :=
  concat (map (chain_of (chains s)) (seqZ 0 NBUK)).

(** [v], met at position [n] of [order], has [refcnt == 0] and the largest
    timestamp of the buffers of [order] with [refcnt == 0], and is the
    last of those with that timestamp. *)
Definition lru_choice (bs : list buf) (order : list nat) (n v : nat) : Prop :=
  order !! n = Some v /\
  refcnt (bs !!! v) = 0 /\
  forall m w, order !! m = Some w -> refcnt (bs !!! w) = 0 ->
    timestamp (bs !!! w) <= timestamp (bs !!! v) /\
    (timestamp (bs !!! w) = timestamp (bs !!! v) -> (m <= n)%nat).

(** Every timestamp is a value of the [uint] tick counter. *)
Definition stamps_ok (bs : list buf) : Prop :=
  forall w, is_uint (timestamp (bs !!! w)).

(** What the scan locals record once the scan has met the buffers [pre]:
    no candidate and [max_timestamp] still 0, or a link whose [next] is a
    buffer of [pre] with [refcnt == 0], which for [uint] timestamps is the
    [lru_choice] of [pre] and has the timestamp [max_timestamp]. *)
Definition scan_inv (bs : list buf) (cs : list (list nat)) (pre : list nat) (sc : scan)
  : Prop :=
  match prev_lru_b sc with
  | None =>
      max_timestamp sc = 0 /\
      (stamps_ok bs -> forall w, w ∈ pre -> refcnt (bs !!! w) <> 0)
  | Some l =>
      exists n v,
        chain_of cs (lbucket l) !! lpos l = Some v /\
        pre !! n = Some v /\
        refcnt (bs !!! v) = 0 /\
        (stamps_ok bs ->
           uint_wrap (max_timestamp sc) = timestamp (bs !!! v) /\
           lru_choice bs pre n v)
  end.

(** The candidate link lies in bucket [lru_buk_id], and [lru_buk_id] is
    -1 exactly while there is no candidate. *)
Definition link_inv (st : scan * Z) : Prop :=
  is_better (fst st) = false /\
  match prev_lru_b (fst st) with
  | Some l => lbucket l = snd st /\ snd st <> -1
  | None => snd st = -1
  end.

(** ** The states [bget] passes through *)

Definition with_log (a : action) (h : list spinlock) (s : kstate) : kstate :=
  mkstate (bufs s) (chains s) (held s) (ticks s) (curproc s) (disk s)
          (log s ++ [(a, h)]).

(** After [b->refcnt++] under the locks [h]. *)
Definition bumped (b : nat) (h : list spinlock) (s : kstate) : kstate :=
  with_log (ARefcnt b) h
    (set_bufs (alter (fun bf => set_refcnt (int_wrap (refcnt bf + 1)) bf) b) s).

(** After the candidate [v], the [next] of link [l], went from its bucket
    to the head of bucket [tgt]. *)
Definition moved (l : link) (v : nat) (tgt : Z) (s : kstate) : kstate :=
  with_log (ASplice tgt v) [BucketLock tgt; BcacheLock]
    (with_log (AUnlink (lbucket l) v) [BucketLock (lbucket l)]
       (set_chains (fun cs => alter (cons v) (Z.to_nat tgt)
                      (alter (delete (lpos l)) (Z.to_nat (lbucket l)) cs)) s)).

(** After [v] received the identity [(dv, bn)] under the locks [h]. *)
Definition installed (dv bn : Z) (v : nat) (h : list spinlock) (s : kstate) : kstate :=
  with_log (ARefcnt v) h
    (set_bufs (fun bs => alter (set_refcnt 1) v (alter (set_valid 0) v
                 (alter (set_blockno bn) v (alter (set_dev dv) v bs)))) s).

(** The common end of the paths of [bget]:
    [acquiresleep(&b->lock); return b;]. *)
Definition sleep_return (b : nat) : M nat := exec acquiresleep b; ret b.

(** After the caller took the sleep-lock of [b]. *)
Definition locked (b : nat) (s : kstate) : kstate :=
  with_log (AAcquireSleep b) (held s)
    (set_bufs (alter (set_lock (Some (curproc s))) b) s).

(** After [bread] read the block of [b] from the disk. *)
Definition fetched (b : nat) (s : kstate) : kstate :=
  set_bufs (alter (set_valid 1) b)
    (set_bufs (alter (set_data (disk s (dev (bufat s b)) (blockno (bufat s b)))) b) s).

(** The states in which [bget(dv, bn)] stands before [acquiresleep], seen
    from the state [s] of the call: nothing done yet, a hit in the target
    bucket, or a candidate with [refcnt == 0] moved and then either a hit
    of the second lookup or the install. *)
Inductive bget_mid (dv bn : Z) (s : kstate) : kstate -> Prop :=
| mid_none : bget_mid dv bn s s
| mid_hit b : bget_mid dv bn s (bumped b [BucketLock (hash dv bn)] s)
| mid_rehit l v b :
    refcnt (bufat s v) = 0 ->
    bget_mid dv bn s
      (bumped b [BucketLock (hash dv bn); BcacheLock] (moved l v (hash dv bn) s))
| mid_install l v :
    refcnt (bufat s v) = 0 ->
    bget_mid dv bn s
      (installed dv bn v [BucketLock (hash dv bn); BcacheLock]
         (moved l v (hash dv bn) s)).

(** The states in which [bget(dv, bn)] and [bread(dv, bn)] can end. *)
Inductive bread_end (dv bn : Z) (s : kstate) : kstate -> Prop :=
| end_mid x : bget_mid dv bn s x -> bread_end dv bn s x
| end_locked x b : bget_mid dv bn s x -> bread_end dv bn s (locked b x)
| end_fetched x b : bget_mid dv bn s x -> bread_end dv bn s (fetched b (locked b x)).

(** The rest of [bget] after the candidate [v] was moved to the target
    bucket: the second lookup, then the hit or the install. *)
Definition after_move (dv bn : Z) (l : link) (v : nat) (s : kstate) : result nat :=
  let s1 := moved l v (hash dv bn) s in
  match lookup_chain (bufs s) dv bn (chain_of (chains s1) (hash dv bn)) with
  | Some b => sleep_return b (bumped b [BucketLock (hash dv bn); BcacheLock] s1)
  | None =>
      sleep_return v (installed dv bn v [BucketLock (hash dv bn); BcacheLock] s1)
  end.

(** ** Well-formed caches *)

(** The caller holds the sleep-lock of [b]. *)
Definition holds (s : kstate) (b : nat) : Prop :=
  lock (bufat s b) = Some (curproc s).

(** Every chain entry points into [bcache.buf]. *)
Definition linkedb (s : kstate) : bool :=
  forallb (fun b => b <? length (bufs s))%nat (scan_order s).

(** Every buffer sits in the bucket its identity hashes to. *)
Definition placedb (s : kstate) : bool :=
  forallb (fun i =>
    forallb (fun b => hash (dev (bufat s b)) (blockno (bufat s b)) =? i)
            (chain_of (chains s) i)) (seqZ 0 NBUK).

(** Timestamps are values of the [uint] tick counter. *)
Definition stampedb (s : kstate) : bool :=
  forallb (fun b => (0 <=? timestamp b) && (timestamp b <=? UINT_MAX)) (bufs s).

(** A buffer nobody references is not sleep-locked. *)
Definition idle_unlockedb (s : kstate) : bool :=
  forallb (fun b => negb (refcnt b =? 0) || bool_decide (lock b = None)) (bufs s).

(** Every buffer of the pool is linked in some bucket. *)
Definition coveredb (s : kstate) : bool :=
  forallb (fun b => bool_decide (b ∈ scan_order s)) (seq 0 (length (bufs s))).

Definition wfb (s : kstate) : bool :=
  linkedb s && placedb s && stampedb s && idle_unlockedb s && coveredb s.

Definition wf (s : kstate) : Prop := wfb s = true.

(** ** Lock discipline of bucket membership *)

(** A logged change of bucket membership happened with the lock of the
    bucket held, and [bcache.lock] too. *)
Definition membership_locked (e : action * list spinlock) : Prop :=
  match e.1 with
  | AUnlink i _ | ASplice i _ => BucketLock i ∈ e.2 /\ BcacheLock ∈ e.2
  | _ => True
  end.

(** What the code does: a buffer is unlinked under the lock of its source
    bucket and before [bcache.lock] is taken, and spliced under the lock
    of its target bucket and [bcache.lock]. *)
Definition membership_ok (e : action * list spinlock) : Prop :=
  match e.1 with
  | AUnlink i _ => BucketLock i ∈ e.2 /\ BcacheLock ∉ e.2
  | ASplice i _ => BucketLock i ∈ e.2 /\ BcacheLock ∈ e.2
  | _ => True
  end.

Definition is_membership (a : action) : Prop :=
  match a with
  | AUnlink _ _ | ASplice _ _ => True
  | _ => False
  end.

Definition no_membership (e : action * list spinlock) : Prop :=
  ~ is_membership e.1.

(** From [s] to [x], logging [delta], no chain changed. *)
Definition no_move (s x : kstate) (delta : list (action * list spinlock)) : Prop :=
  chains x = chains s /\ Forall no_membership delta.

(** From [s] to [x], logging [delta], [bget(dv, bn)] moved one buffer [v]
    with [refcnt == 0]: out of its bucket while holding the lock of that
    bucket and nothing else, then to the head of the target bucket while
    holding the lock of the target bucket and [bcache.lock]. *)
Definition one_move (dv bn : Z) (s x : kstate) (delta : list (action * list spinlock))
  : Prop :=
  exists l v rest,
    refcnt (bufat s v) = 0 /\
    chains x = alter (cons v) (Z.to_nat (hash dv bn))
                 (alter (delete (lpos l)) (Z.to_nat (lbucket l)) (chains s)) /\
    delta = (AUnlink (lbucket l) v, [BucketLock (lbucket l)])
            :: (ASplice (hash dv bn) v, [BucketLock (hash dv bn); BcacheLock])
            :: rest /\
    Forall no_membership rest.

(** The claim that every change of bucket membership an operation makes
    is made under the bucket's lock and [bcache.lock]. *)
Definition membership_claim (o_run : kstate -> kstate) (s : kstate) : Prop :=
  forall delta, log (o_run s) = log s ++ delta -> Forall membership_locked delta.

(** The claim that an operation taking the [refcnt] of [b] from 1 to 0
    sets the timestamp of [b] to the current tick. *)
Definition stamp_claim (o_run : kstate -> kstate) (s : kstate) (b : nat) : Prop :=
  refcnt (bufat s b) = 1 ->
  refcnt (bufat (o_run s) b) = 0 ->
  timestamp (bufat (o_run s) b) = ticks s.

(** ** Concrete caches *)

(** The cache after [binit] at tick [tk], with process [pid] running and
    an empty disk. *)
Definition after_binit (tk pid : Z) : kstate :=
  final (binit (boot tk pid (fun _ _ => []))).

(** [bread(1, 1); ...; bread(1, n)], none released. *)
Fixpoint read_blocks (n : nat) (s : kstate) : kstate :=
  match n with
  | O => s
  | S n' => final (bread 1 (Z.of_nat n) (read_blocks n' s))
  end.

(** The same state at a later tick. *)
Definition at_tick (tk : Z) (s : kstate) : kstate :=
  mkstate (bufs s) (chains s) (held s) tk (curproc s) (disk s) (log s).

(** The public operations of the buffer cache after [binit]. *)
Inductive op : Type :=
| OpBread (dv bn : Z)
| OpBwrite (b : nat)
| OpBrelse (b : nat)
| OpBpin (b : nat)
| OpBunpin (b : nat).

(** The state an operation leaves, whatever its outcome. *)
Definition run (o : op) (s : kstate) : kstate :=
  match o with
  | OpBread dv bn => final (bread dv bn s)
  | OpBwrite b => final (bwrite b s)
  | OpBrelse b => final (brelse b s)
  | OpBpin b => final (bpin b s)
  | OpBunpin b => final (bunpin b s)
  end.

(** [binit] at tick 7, then [bread(1, 5)], which returns buffer 29. *)
Definition one_read : kstate := run (OpBread 1 5) (after_binit 7 1).

(** Buffer 29 pinned and released, so referenced once and unlocked, and
    the clock advanced to tick 9. *)
Definition pinned_once : kstate :=
  at_tick 9 (run (OpBrelse 29) (run (OpBpin 29) one_read)).

(** All 30 buffers read; buffer 3 released at tick 10, buffers 7 and 12
    at tick 20. *)
Definition some_released : kstate :=
  run (OpBrelse 12) (at_tick 20 (run (OpBrelse 7) (at_tick 20
    (run (OpBrelse 3) (at_tick 10 (read_blocks 30 (after_binit 0 1))))))).

(** ** The invariant of the cache *)

(** The lookup of [bget] for the identity of [b] finds [b]: no buffer
    with the same identity stands before [b] in the chain of its bucket. *)
Definition first_match (s : kstate) (b : nat) : Prop :=
  lookup_chain (bufs s) (dev (bufat s b)) (blockno (bufat s b))
    (chain_of (chains s) (hash (dev (bufat s b)) (blockno (bufat s b))))
  = Some b.

(** The invariant of the cache between operations: a well-formed cache
    of [NBUK] buckets in which every buffer is linked once, reference
    counts are not negative, and a referenced buffer is the one a lookup
    of its block finds. *)
Record cache_ok (s : kstate) : Prop := mk_cache_ok {
  ok_wf : wf s;
  ok_buckets : length (chains s) = Z.to_nat NBUK;
  ok_nodup : NoDup (scan_order s);
  ok_ticks : is_uint (ticks s);
  ok_refcnt : forall b, 0 <= refcnt (bufat s b);
  ok_first : forall b, b ∈ scan_order s -> refcnt (bufat s b) <> 0 -> first_match s b
}.

(** No reference count is about to overflow. *)
Definition counts_fit (s : kstate) : Prop :=
  forall b, refcnt (bufat s b) < INT_MAX.

(** What the callers of the cache guarantee: [bpin] is called on a buffer
    that is referenced, and [bunpin] gives back a pin, so it does not take
    away the reference of the holder of the sleep-lock. *)
Definition allowed (o : op) (s : kstate) : Prop :=
  match o with
  | OpBpin b => refcnt (bufat s b) <> 0
  | OpBunpin b =>
      1 <= refcnt (bufat s b) /\ (lock (bufat s b) <> None -> 2 <= refcnt (bufat s b))
  | _ => True
  end.

(** [refcnt++] and [refcnt--] on a buffer. *)
Definition incr (bf : buf) : buf := set_refcnt (int_wrap (refcnt bf + 1)) bf.
Definition decr (bf : buf) : buf := set_refcnt (int_wrap (refcnt bf - 1)) bf.

(** What [brelse] does to the buffer at tick [tk]. *)
Definition released (tk : Z) (bf : buf) : buf :=
  let bf' := decr (set_lock None bf) in
  if refcnt bf' =? 0 then set_timestamp tk bf' else bf'.

(** [lru_buk_id] is -1 or the index of a bucket. *)
Definition bucket_or_none (st : scan * Z) : Prop :=
  snd st = -1 \/ 0 <= snd st < NBUK.

(** The outcome of [bread] when the lookup finds [b]. *)
Definition hit_state (dv bn : Z) (b : nat) (s : kstate) : kstate :=
  locked b (bumped b [BucketLock (hash dv bn)] s).

(** The state in which [bread] returns the evicted buffer [v]. *)
Definition install_state (dv bn : Z) (l : link) (v : nat) (s : kstate) : kstate :=
  fetched v (locked v
    (installed dv bn v [BucketLock (hash dv bn); BcacheLock]
       (moved l v (hash dv bn) s))).

(** A logged [acquiresleep] happened with no spin-lock held. *)
Definition sleep_unlocked (e : action * list spinlock) : Prop :=
  match e.1 with
  | AAcquireSleep _ => e.2 = []
  | _ => True
  end.

(** The checks of [cache_ok] as a function. *)
Definition cache_okb (s : kstate) : bool :=
  wfb s
  && bool_decide (length (chains s) = Z.to_nat NBUK)
  && bool_decide (NoDup (scan_order s))
  && ((0 <=? ticks s) && (ticks s <=? UINT_MAX))
  && forallb (fun bf => 0 <=? refcnt bf) (bufs s)
  && forallb (fun b =>
       (refcnt (bufat s b) =? 0)
       || bool_decide
            (lookup_chain (bufs s) (dev (bufat s b)) (blockno (bufat s b))
               (chain_of (chains s) (hash (dev (bufat s b)) (blockno (bufat s b))))
             = Some b))
       (scan_order s).

Definition counts_fitb (s : kstate) : bool :=
  forallb (fun bf => refcnt bf <? INT_MAX) (bufs s).

End Bio.

Module Kalloc.

(** ** Data *)

(** Modelled from the spec: riscv.h is not under src/; [PGSIZE] is 4096. *)
Definition PGSIZE : Z := 4096.

(** [struct Keme kmems[NCPU]] and the physical memory the free lists live
    in.  [freelist] holds [kmems[i].freelist] for each CPU, a physical
    address with 0 the null pointer.  A [struct run] is the first word of
    its frame: [mem a] is the 64-bit word at address [a], so [r->next] is
    [mem r].  [locks] are the [kmems[i].lock] the CPU holds. *)
Record kstate : Type := mkstate {
  freelist : list Z;
  mem : Z -> Z;
  locks : list nat
}.

Inductive result : Type :=
| Done (s : kstate)
| Panic (msg : string).

(** [kmems[i].freelist] *)
Definition freelist_of (s : kstate) (i : nat) : Z := freelist s !!! i.

Definition set_freelist (i : nat) (v : Z) (s : kstate) : kstate :=
  mkstate (<[i := v]> (freelist s)) (mem s) (locks s).

(** A store of one word, [*(uint64 * )a = v]. *)
Definition store (a v : Z) (s : kstate) : kstate :=
  mkstate (freelist s) (fun x => if x =? a then v else mem s x) (locks s).

(** The word made of eight copies of the byte [c]. *)
Definition fill (c : Z) : Z := c * 72340172838076673.

(** [memset(dst, c, n)]: every word of [[dst, dst+n)] is filled. *)
Definition memset (dst c n : Z) (s : kstate) : kstate :=
  mkstate (freelist s)
          (fun x => if (dst <=? x) && (x <? dst + n) then fill c else mem s x)
          (locks s).

(** Modelled from the spec: the SpinLock primitive is not under src/. *)
Definition acquire (i : nat) (s : kstate) : kstate :=
  mkstate (freelist s) (mem s) (i :: locks s).
Definition release (i : nat) (s : kstate) : kstate :=
  mkstate (freelist s) (mem s) (filter (fun j => j <> i) (locks s)).

Section Machine.

(** Modelled from the spec: param.h, memlayout.h and the linker script are
    not under src/.  [NCPU] is the number of CPUs, [kend] the address of
    [end], the first address after the kernel, and [PHYSTOP] one past the
    last usable frame. *)
Variable NCPU : nat.
Variables kend PHYSTOP : Z.

(** ** kalloc.c *)

(** [kfree(pa)] on the CPU [cpu_id] that [cpuid()] returns. *)
Definition kfree (cpu_id : nat) (pa : Z) (s : kstate) : result :=
  if negb (pa mod PGSIZE =? 0) || (pa <? kend) || (pa >=? PHYSTOP)
  then Panic "kfree"
  else
    let s := memset pa 1 PGSIZE s in
    let s := acquire cpu_id s in
    let s := store pa (freelist_of s cpu_id) s in      (* r->next = freelist *)
    let s := set_freelist cpu_id pa s in               (* freelist = r *)
    Done (release cpu_id s).

(** Modelled from the spec: [PGROUNDUP] (riscv.h) rounds an address up to
    a multiple of [PGSIZE]. *)
Definition PGROUNDUP (a : Z) : Z := (a + PGSIZE - 1) / PGSIZE * PGSIZE.

(** [for(; p + PGSIZE <= pa_end; p += PGSIZE) kfree(p);] with [n] bounding
    the iterations left. *)
Fixpoint freerange_loop (cpu_id : nat) (n : nat) (p pa_end : Z) (s : kstate) : result :=
  match n with
  | O => Done s
  | S n' =>
      if p + PGSIZE <=? pa_end then
        match kfree cpu_id p s with
        | Done s' => freerange_loop cpu_id n' (p + PGSIZE) pa_end s'
        | Panic msg => Panic msg
        end
      else Done s
  end.

Definition freerange (cpu_id : nat) (pa_start pa_end : Z) (s : kstate) : result :=
  let p := PGROUNDUP pa_start in
  freerange_loop cpu_id (Z.to_nat ((pa_end - p) / PGSIZE)) p pa_end s.

(** [kinit], run on the boot CPU [cpu_id]; only iteration 0 of its loop
    touches the allocator state. *)
Definition kinit (cpu_id : nat) (s : kstate) : result :=
  match NCPU with
  | O => Done s
  | S _ => freerange cpu_id kend PHYSTOP s
  end.

(** The loop [for(int i = 0; i < NCPU; i++)] of [kalloc]; [Some] is a
    [return] from inside the loop. *)
Fixpoint steal (cpu_id : nat) (idx : list nat) (s : kstate) : option (Z * kstate) :=
  match idx with
  | [] => None
  | i :: rest =>
      if bool_decide (i <> cpu_id) then
        let s := acquire i s in
        if (Z.of_nat i =? Z.of_nat NCPU - 1) && (freelist_of s i =? 0) then
          Some (0, release i s)
        else if negb (freelist_of s i =? 0) then
          let to_alloc := freelist_of s i in
          let s := set_freelist i (mem s to_alloc) s in
          let s := release i s in
          let s := memset to_alloc 5 PGSIZE s in
          Some (to_alloc, s)
        else steal cpu_id rest (release i s)
      else steal cpu_id rest s
  end.

(** [kalloc()] on the CPU [cpu_id] that [cpuid()] returns; the result is
    the pointer returned, 0 for the null pointer. *)
Definition kalloc (cpu_id : nat) (s : kstate) : Z * kstate :=
  let s := acquire cpu_id s in
  let r := freelist_of s cpu_id in
  if negb (r =? 0) then
    let s := set_freelist cpu_id (mem s r) s in
    let s := release cpu_id s in
    let s := memset r 5 PGSIZE s in
    (r, s)
  else
    let s := release cpu_id s in
    match steal cpu_id (seq 0 NCPU) s with
    | Some out => out
    | None => (0, s)
    end.

(** The order in which [kalloc] on [cpu_id] looks at the free lists. *)
Definition visit_order (cpu_id : nat) : list nat :=
  cpu_id :: filter (fun i => i <> cpu_id) (seq 0 NCPU).

(** The first CPU in [order] whose free list is not empty. *)
Fixpoint first_nonempty (s : kstate) (order : list nat) : option nat :=
  match order with
  | [] => None
  | i :: rest => if freelist_of s i =? 0 then first_nonempty s rest else Some i
  end.

(** The three checks at the head of [kfree]. *)
Definition bad_frame (pa : Z) : Prop :=
  pa mod 4096 <> 0 \/ pa < kend \/ PHYSTOP <= pa.

End Machine.

(** States that differ in the locks held only. *)
Definition same_memory (s s' : kstate) : Prop :=
  freelist s' = freelist s /\ mem s' = mem s.

(** What [kalloc] leaves after it took the head frame of CPU [j]: the
    list of [j] starts at the frame's [next], and the frame is scrubbed. *)
Definition detached (j : nat) (s s' : kstate) : Prop :=
  freelist s' = <[j := mem s (freelist_of s j)]> (freelist s) /\
  (forall x, mem s' x =
     if (freelist_of s j <=? x) && (x <? freelist_of s j + PGSIZE)
     then fill 5 else mem s x).

(** ** Concrete machines *)

(** [n] CPUs with every free list empty. *)
Definition exhausted (n : nat) : kstate :=
  mkstate (replicate n 0) (fun _ => 0) [].

(** The state after [kfree(pa)] on CPU [cpu_id], on the memory layout of
    xv6 for qemu: the kernel ends at 0x80021000 and physical memory at
    0x88000000. *)
Definition freed_on (cpu_id : nat) (pa : Z) (s : kstate) : kstate :=
  match kfree 2147618816 2281701376 cpu_id pa s with
  | Done s' => s'
  | Panic _ => s
  end.

(** ** Free lists as lists of frames *)

(** The [struct run]s reached from the head [h] through [next], up to the
    null pointer. *)
Fixpoint runs (m : Z -> Z) (h : Z) (l : list Z) : Prop :=
  match l with
  | [] => h = 0
  | a :: l' => h = a /\ a <> 0 /\ runs m (m a) l'
  end.

(** [kmems[i].freelist] holds the frames [ls !! i], for every CPU; no frame
    is on two lists or twice on one, and every frame is page-aligned. *)
Definition pools (s : kstate) (ls : list (list Z)) : Prop :=
  length (freelist s) = length ls /\
  (forall i l, ls !! i = Some l -> runs (mem s) (freelist_of s i) l) /\
  NoDup (concat ls) /\
  (forall a, a ∈ concat ls -> a mod PGSIZE = 0).

(** The frames [p], [p + PGSIZE], ... that [freerange] walks over. *)
Fixpoint frames (p : Z) (n : nat) : list Z :=
  match n with
  | O => []
  | S n' => p :: frames (p + PGSIZE) n'
  end.

(** [n] calls of [kalloc] in a row on CPU [cpu_id]: the pointers returned,
    in order, and the state left. *)
Fixpoint kallocs (NCPU cpu_id n : nat) (s : kstate) : list Z * kstate :=
  match n with
  | O => ([], s)
  | S n' =>
      let out := kalloc NCPU cpu_id s in
      let rest := kallocs NCPU cpu_id n' (snd out) in
      (fst out :: fst rest, snd rest)
  end.

End Kalloc.

(** * Properties of the page allocator *)

Module KallocProofs.
Import Kalloc.

Section Machine.

Variable NCPU : nat.
Variables kend PHYSTOP : Z.

Lemma kfree_guard pa :
  negb (pa mod PGSIZE =? 0) || (pa <? kend) || (pa >=? PHYSTOP) = true
  <-> bad_frame kend PHYSTOP pa.
Proof.
  unfold bad_frame, PGSIZE.
  rewrite !orb_true_iff, negb_true_iff, Z.eqb_neq, Z.ltb_lt, Z.geb_le.
  tauto.
Qed.

(** C6: [kfree(pa)] panics exactly when [pa] is not 4096-byte aligned, lies
    below [end], or lies at or above [PHYSTOP]; for every other pointer it
    returns normally, with the frame at the head of the calling CPU's free
    list, the frame's [next] word holding the former head, the other free
    lists untouched and no lock left held. *)
Theorem kfree_panics_iff_bad_frame (s : kstate) (cpu_id : nat) (pa : Z) :
  (kfree kend PHYSTOP cpu_id pa s = Panic "kfree" <-> bad_frame kend PHYSTOP pa) /\
  ((cpu_id < length (freelist s))%nat -> ~ bad_frame kend PHYSTOP pa ->
   exists s',
     kfree kend PHYSTOP cpu_id pa s = Done s' /\
     freelist_of s' cpu_id = pa /\
     mem s' pa = freelist_of s cpu_id /\
     (forall i, i <> cpu_id -> freelist_of s' i = freelist_of s i) /\
     length (freelist s') = length (freelist s) /\
     locks s' = filter (fun j => j <> cpu_id) (locks s)).
Proof.
  pose proof (kfree_guard pa) as Hg.
  unfold kfree.
  destruct (negb (pa mod PGSIZE =? 0) || (pa <? kend) || (pa >=? PHYSTOP)) eqn:E.
  - split; [tauto |]. intros _ Hok. destruct Hok. by apply Hg.
  - split.
    + split; [discriminate |]. intros Hbad. apply Hg in Hbad. discriminate.
    + intros Hcpu _. eexists. split; [reflexivity |].
      repeat split.
      * unfold freelist_of. simpl.
        apply list_lookup_total_correct. by apply list_lookup_insert_eq.
      * simpl. by rewrite Z.eqb_refl.
      * intros i Hi. unfold freelist_of. simpl.
        rewrite !list_lookup_total_alt. by rewrite list_lookup_insert_ne.
      * simpl. by rewrite length_insert.
      * simpl. rewrite filter_cons_False; [done | tauto].
Qed.

Lemma first_nonempty_None s order :
  first_nonempty s order = None <-> forall i, i ∈ order -> freelist_of s i = 0.
Proof.
  induction order as [| i rest IH]; simpl.
  - split; [| done]. intros _ i Hi. by apply elem_of_nil in Hi.
  - destruct (freelist_of s i =? 0) eqn:E.
    + apply Z.eqb_eq in E. rewrite IH. split.
      * intros H k Hk. apply elem_of_cons in Hk as [-> | Hk]; auto.
      * intros H k Hk. apply H. by apply elem_of_cons; right.
    + apply Z.eqb_neq in E. split; [discriminate |].
      intros H. destruct E. apply H. by apply elem_of_cons; left.
Qed.

Lemma first_nonempty_Some s order j :
  first_nonempty s order = Some j -> j ∈ order /\ freelist_of s j <> 0.
Proof.
  induction order as [| i rest IH]; simpl; [discriminate |].
  destruct (freelist_of s i =? 0) eqn:E.
  - intros H. destruct (IH H). split; [by apply elem_of_cons; right | done].
  - intros [= <-]. apply Z.eqb_neq in E. split; [by apply elem_of_cons; left | done].
Qed.

(** The stealing loop from CPU [a] on: it returns from inside the loop
    with the head of the first non-empty list, and otherwise leaves memory
    as it was, returning null if it returns at all. *)
Lemma steal_seq cpu_id s0 n :
  forall a s, (a + n = NCPU)%nat -> same_memory s0 s ->
    match first_nonempty s0 (filter (fun i => i <> cpu_id) (seq a n)) with
    | Some j =>
        exists s', steal NCPU cpu_id (seq a n) s = Some (freelist_of s0 j, s') /\
                   detached j s0 s'
    | None =>
        steal NCPU cpu_id (seq a n) s = None \/
        exists s', steal NCPU cpu_id (seq a n) s = Some (0, s') /\ same_memory s0 s'
    end.
Proof.
  induction n as [| n IH]; intros a s Han [Hfl Hmem]; simpl; [by left |].
  assert (Hfo : forall i, freelist_of s i = freelist_of s0 i).
  { intros i. unfold freelist_of. by rewrite Hfl. }
  destruct (decide (a <> cpu_id)) as [Hne | Heq].
  - rewrite filter_cons_True by done. rewrite bool_decide_eq_true_2 by done.
    simpl. change (freelist_of (acquire a s) a) with (freelist_of s a).
    rewrite Hfo.
    destruct (freelist_of s0 a =? 0) eqn:E; simpl.
    + destruct (Z.of_nat a =? Z.of_nat NCPU - 1) eqn:Ea; simpl.
      * apply Z.eqb_eq in Ea. assert (n = 0%nat) as -> by lia. simpl.
        right. eexists. split; [reflexivity |]. by split.
      * apply IH; [lia | by split].
    + rewrite andb_false_r. eexists. split; [reflexivity |].
      split; simpl; [by rewrite Hfl, Hmem |].
      intros x. by rewrite Hmem.
  - rewrite filter_cons_False by done. rewrite bool_decide_eq_false_2 by done.
    apply IH; [lia | by split].
Qed.

Lemma elem_of_visit_order cpu_id i :
  (cpu_id < NCPU)%nat -> i ∈ visit_order NCPU cpu_id <-> (i < NCPU)%nat.
Proof.
  intros Hc. unfold visit_order.
  rewrite elem_of_cons, list_elem_of_filter, elem_of_seq.
  destruct (decide (i = cpu_id)); [subst; tauto | lia].
Qed.

(** C5: [kalloc] returns null exactly when every CPU's free list is empty
    at the call; otherwise it returns the head frame of the first
    non-empty list, looking at the caller's own list first and then at the
    other CPUs in ascending order, detaches that frame from its list,
    leaves every other list as it was and scrubs the frame. *)
Theorem kalloc_null_iff_all_empty (s : kstate) (cpu_id : nat) :
  (cpu_id < NCPU)%nat ->
  (fst (kalloc NCPU cpu_id s) = 0 <->
   forall i, (i < NCPU)%nat -> freelist_of s i = 0) /\
  (forall j, first_nonempty s (visit_order NCPU cpu_id) = Some j ->
     fst (kalloc NCPU cpu_id s) = freelist_of s j /\
     freelist_of s j <> 0 /\
     detached j s (snd (kalloc NCPU cpu_id s))).
Proof.
  intros Hc.
  assert (Hcases :
    match first_nonempty s (visit_order NCPU cpu_id) with
    | Some j => fst (kalloc NCPU cpu_id s) = freelist_of s j /\
                freelist_of s j <> 0 /\
                detached j s (snd (kalloc NCPU cpu_id s))
    | None => fst (kalloc NCPU cpu_id s) = 0
    end).
  { unfold visit_order, kalloc. simpl.
    change (freelist_of (acquire cpu_id s) cpu_id) with (freelist_of s cpu_id).
    destruct (freelist_of s cpu_id =? 0) eqn:E; simpl.
    - pose proof (steal_seq cpu_id s NCPU 0%nat (release cpu_id (acquire cpu_id s))
                    ltac:(lia) ltac:(by split)) as Hs.
      destruct (first_nonempty s (filter (fun i => i <> cpu_id) (seq 0 NCPU)))
        as [j |] eqn:Ef.
      + destruct Hs as (s' & -> & Hd). simpl.
        apply first_nonempty_Some in Ef as [_ Hj]. done.
      + destruct Hs as [-> | (s' & -> & _)]; done.
    - apply Z.eqb_neq in E. split; [done |]. split; [done |].
      split; [done |]. intros x. reflexivity. }
  split.
  - destruct (first_nonempty s (visit_order NCPU cpu_id)) as [j |] eqn:Ef.
    + destruct Hcases as (Hr & Hne & _).
      apply first_nonempty_Some in Ef as [Hin _].
      apply elem_of_visit_order in Hin; [| done].
      split; [intros H0; congruence |].
      intros Hall. destruct Hne. by apply Hall.
    + split; [| done]. intros _ i Hi.
      eapply first_nonempty_None; [exact Ef |].
      by apply elem_of_visit_order.
  - intros j Hj. by rewrite Hj in Hcases.
Qed.

End Machine.

(** Two CPUs, both pools exhausted; one frame freed on CPU 1 is what the
    next [kalloc] on CPU 0 returns. *)
Lemma kalloc_witness :
  (fst (kalloc 2 0 (freed_on 1 2281697280 (exhausted 2))) = 0 <->
   forall i, (i < 2)%nat ->
     freelist_of (freed_on 1 2281697280 (exhausted 2)) i = 0) /\
  (forall j,
     first_nonempty (freed_on 1 2281697280 (exhausted 2)) (visit_order 2 0) = Some j ->
     fst (kalloc 2 0 (freed_on 1 2281697280 (exhausted 2)))
     = freelist_of (freed_on 1 2281697280 (exhausted 2)) j /\
     freelist_of (freed_on 1 2281697280 (exhausted 2)) j <> 0 /\
     detached j (freed_on 1 2281697280 (exhausted 2))
       (snd (kalloc 2 0 (freed_on 1 2281697280 (exhausted 2))))).
Proof.
  apply (kalloc_null_iff_all_empty 2 (freed_on 1 2281697280 (exhausted 2)) 0).
  lia.
Defined.

Lemma kfree_witness :
  exists s',
    kfree 2147618816 2281701376 1 2281697280 (exhausted 2) = Done s' /\
    freelist_of s' 1 = 2281697280 /\
    mem s' 2281697280 = freelist_of (exhausted 2) 1.
Proof.
  destruct (kfree_panics_iff_bad_frame 2147618816 2281701376 (exhausted 2) 1 2281697280)
    as [_ Hok].
  destruct Hok as (s' & Hrun & Hhead & Hnext & _).
  - simpl. lia.
  - unfold bad_frame. intros [H | [H | H]]; [apply H; reflexivity | lia | lia].
  - exists s'. by repeat split.
Defined.

(** ** Scenarios *)

(** [kinit] on a machine of two CPUs whose kernel ends inside the third
    page and whose memory ends after the fifth: the two whole frames above
    [end] go to the boot CPU, the higher one at the head of its list. *)
Example kinit_seeds_the_boot_cpu :
  exists s,
    kinit 2 8292 20480 0 (exhausted 2) = Done s /\
    freelist s = [16384; 0] /\ mem s 16384 = 12288 /\ mem s 12288 = 0.
Proof. eexists. split; [reflexivity |]. by repeat split. Qed.

(** Spec scenario S5: with both pools exhausted [kalloc] returns null on
    either CPU; after a frame is freed on CPU 1, [kalloc] on CPU 0 returns
    that frame, scrubbed, and both pools are exhausted again. *)
Example exhausted_then_stolen :
  fst (kalloc 2 0 (exhausted 2)) = 0 /\
  fst (kalloc 2 1 (exhausted 2)) = 0 /\
  fst (kalloc 2 0 (freed_on 1 2281697280 (exhausted 2))) = 2281697280 /\
  freelist (snd (kalloc 2 0 (freed_on 1 2281697280 (exhausted 2)))) = [0; 0] /\
  mem (snd (kalloc 2 0 (freed_on 1 2281697280 (exhausted 2)))) 2281697280 = fill 5.
Proof. by repeat split. Qed.

End KallocProofs.

(** * Properties of the buffer cache *)

Module BioProofs.
Import Bio.

(** ** Integer conversions *)

Lemma int_wrap_id z : is_int z -> int_wrap z = z.
Proof.
  unfold is_int, int_wrap, INT_MIN, INT_MAX. intros H.
  rewrite Z.mod_small; lia.
Qed.

(** A [uint] stored in an [int] and read back as a [uint] is unchanged. *)
Lemma uint_int_uint z : is_uint z -> uint_wrap (int_wrap z) = z.
Proof.
  unfold is_uint, uint_wrap, int_wrap, UINT_MAX. intros H.
  rewrite Zminus_mod_idemp_l.
  replace (z + 2 ^ 31 - 2 ^ 31) with z by lia.
  rewrite Z.mod_small; lia.
Qed.

(** ** Reads after writes through buffer pointers *)

Lemma alter_at {A} `{Inhabited A} (f : A -> A) (l : list A) (i : nat) :
  (i < length l)%nat -> alter f i l !!! i = f (l !!! i).
Proof. apply list_lookup_total_alter_eq. Qed.

Lemma alter_other {A} `{Inhabited A} (f : A -> A) (l : list A) (i j : nat) :
  i <> j -> alter f i l !!! j = l !!! j.
Proof. apply list_lookup_total_alter_ne. Qed.

Ltac bufs_simpl :=
  repeat first
    [ rewrite alter_at by (rewrite ?length_alter; assumption)
    | rewrite alter_other by assumption ].

Ltac run_monad :=
  unfold bind, get, ret, modify, upd, acquire, release, panic,
         refcnt_incr, refcnt_decr, releasesleep, holdingsleep; simpl.

(** ** bwrite, brelse *)

(** C7: [bwrite(b)] and [brelse(b)] panic, with messages "bwrite" and
    "brelse", when the caller does not hold the sleep-lock of [b], and
    both return normally when it does. *)
Theorem bwrite_brelse_panic_iff_not_holding (s : kstate) (b : nat) :
  (~ holds s b ->
     bwrite b s = Panic "bwrite" s /\ brelse b s = Panic "brelse" s) /\
  (holds s b ->
     (exists s', bwrite b s = Ret tt s') /\ (exists s', brelse b s = Ret tt s')).
Proof.
  unfold holds, bwrite, brelse, virtio_disk_rw. split; intros Hh.
  - run_monad. by rewrite bool_decide_eq_false_2.
  - run_monad. rewrite bool_decide_eq_true_2 by done. simpl.
    split; [by eexists |].
    match goal with |- context [if ?c then _ else _] => destruct c end;
      by eexists.
Qed.

(** C8: for a buffer [b] whose sleep-lock the caller holds, linked in
    bucket [i] of a cache whose buffers sit in the bucket of their hash,
    [brelse(b)] returns normally; it first releases the sleep-lock, with no
    further spin-lock taken, then writes [refcnt], one less than before,
    under the lock of bucket [i], and stamps [timestamp] with the current
    tick under the same lock exactly when the new count is 0.  No other
    field of [b], no other buffer and no chain changes. *)
Theorem brelse_releases_then_decrements (s : kstate) (b : nat) (i : Z) :
  (b < length (bufs s))%nat ->
  holds s b ->
  b ∈ chain_of (chains s) i ->
  hash (dev (bufat s b)) (blockno (bufat s b)) = i ->
  exists s',
    brelse b s = Ret tt s' /\
    lock (bufat s' b) = None /\
    refcnt (bufat s' b) = int_wrap (refcnt (bufat s b) - 1) /\
    (INT_MIN < refcnt (bufat s b) <= INT_MAX ->
       refcnt (bufat s' b) = refcnt (bufat s b) - 1) /\
    timestamp (bufat s' b) =
      (if refcnt (bufat s' b) =? 0 then ticks s else timestamp (bufat s b)) /\
    valid (bufat s' b) = valid (bufat s b) /\
    dev (bufat s' b) = dev (bufat s b) /\
    blockno (bufat s' b) = blockno (bufat s b) /\
    data (bufat s' b) = data (bufat s b) /\
    (forall b', b' <> b -> bufat s' b' = bufat s b') /\
    length (bufs s') = length (bufs s) /\
    chains s' = chains s /\
    held s' = filter (fun l => l <> BucketLock i) (held s) /\
    log s' = log s ++
      (AReleaseSleep b, held s) ::
      (ARefcnt b, BucketLock i :: held s) ::
      (if refcnt (bufat s' b) =? 0
       then [(AStamp b, BucketLock i :: held s)] else []).
Proof.
  intros Hb Hh _ Hi. unfold holds in Hh.
  unfold brelse. run_monad.
  rewrite bool_decide_eq_true_2 by done. simpl.
  unfold bufat in *. simpl. bufs_simpl. simpl. rewrite Hi.
  assert (Hf : forall h : list spinlock,
             filter (fun l => l <> BucketLock i) (BucketLock i :: h)
             = filter (fun l => l <> BucketLock i) h).
  { intros h. rewrite filter_cons_False; [done | tauto]. }
  destruct (int_wrap (refcnt (bufs s !!! b) - 1) =? 0) eqn:E; simpl;
    eexists; (split; [reflexivity |]); simpl; bufs_simpl; simpl.
  all: rewrite ?E, ?Hf, <- ?app_assoc; simpl.
  all: repeat split; try done.
  all: try (intros b' Hb'; assert (b <> b') by done; by bufs_simpl).
  all: try (by rewrite !length_alter).
  all: intros Hr; apply int_wrap_id; unfold is_int, INT_MIN, INT_MAX in *; lia.
Qed.

(** C9: [bunpin(b)] always returns normally; it writes [refcnt], one less
    than before whatever the count was, so a count of 0 becomes -1, and it
    leaves the timestamp of every buffer as it was. *)
Theorem bunpin_decrements_unconditionally (s : kstate) (b : nat) :
  (b < length (bufs s))%nat ->
  exists s',
    bunpin b s = Ret tt s' /\
    refcnt (bufat s' b) = int_wrap (refcnt (bufat s b) - 1) /\
    (INT_MIN < refcnt (bufat s b) <= INT_MAX ->
       refcnt (bufat s' b) = refcnt (bufat s b) - 1) /\
    (refcnt (bufat s b) = 0 -> refcnt (bufat s' b) = -1) /\
    (forall b', timestamp (bufat s' b') = timestamp (bufat s b')).
Proof.
  intros Hb. unfold bunpin. run_monad.
  eexists. split; [reflexivity |].
  unfold bufat. simpl. bufs_simpl. simpl.
  split; [done |]. split; [| split].
  - intros Hr. apply int_wrap_id. unfold is_int, INT_MIN, INT_MAX in *. lia.
  - intros ->. reflexivity.
  - intros b'. destruct (decide (b = b')) as [<- | Hne]; by bufs_simpl.
Qed.

Lemma bwrite_brelse_witness :
  (bwrite 0 one_read = Panic "bwrite" one_read /\
   brelse 0 one_read = Panic "brelse" one_read) /\
  ((exists s', bwrite 29 one_read = Ret tt s') /\
   (exists s', brelse 29 one_read = Ret tt s')).
Proof.
  split.
  - apply (bwrite_brelse_panic_iff_not_holding one_read 0).
    vm_compute. discriminate.
  - apply (bwrite_brelse_panic_iff_not_holding one_read 29).
    vm_compute. reflexivity.
Defined.

(** [brelse] of buffer 29, read at tick 7 and released at tick 9. *)
Lemma brelse_witness :
  exists s',
    brelse 29 (at_tick 9 one_read) = Ret tt s' /\
    lock (bufat s' 29) = None /\
    refcnt (bufat s' 29) = int_wrap (refcnt (bufat (at_tick 9 one_read) 29) - 1) /\
    timestamp (bufat s' 29) =
      (if refcnt (bufat s' 29) =? 0 then 9 else timestamp (bufat (at_tick 9 one_read) 29)).
Proof.
  destruct (brelse_releases_then_decrements (at_tick 9 one_read) 29 5)
    as (s' & Hrun & Hlock & Hcnt & _ & Hts & _).
  - vm_compute. lia.
  - vm_compute. reflexivity.
  - apply (bool_decide_eq_true_1 _). vm_compute. reflexivity.
  - vm_compute. reflexivity.
  - exists s'. by repeat split.
Defined.

(** [bunpin] of buffer 0 right after [binit], its [refcnt] being 0. *)
Lemma bunpin_witness :
  exists s',
    bunpin 0 (after_binit 7 1) = Ret tt s' /\
    refcnt (bufat s' 0) = -1 /\
    timestamp (bufat s' 0) = timestamp (bufat (after_binit 7 1) 0).
Proof.
  destruct (bunpin_decrements_unconditionally (after_binit 7 1) 0)
    as (s' & Hrun & _ & _ & Hneg & Hts).
  - vm_compute. lia.
  - exists s'. split; [done |]. split; [| done]. apply Hneg. vm_compute. reflexivity.
Defined.

(** ** The eviction scan *)

Lemma release_head (l : spinlock) (h : list spinlock) :
  filter (fun l' => l' <> l) (l :: h) = filter (fun l' => l' <> l) h.
Proof. rewrite filter_cons_False; [done | tauto]. Qed.

Lemma release_other (l l' : spinlock) (h : list spinlock) :
  l' <> l ->
  filter (fun x => x <> l) (l' :: h) = l' :: filter (fun x => x <> l) h.
Proof. intros H. by rewrite filter_cons_True. Qed.

Lemma scan_locks_release (id i : Z) :
  id <> i -> filter (fun l => l <> BucketLock i) (scan_locks id) = scan_locks id.
Proof.
  intros Hne. unfold scan_locks. destruct (id =? -1); [done |].
  rewrite release_other by congruence. done.
Qed.

(** One iteration of the scan loop computes [scan_step] and leaves the
    CPU holding the lock of the candidate's bucket only. *)
Lemma scan_bucket_run (i : Z) (sc : scan) (id : Z) (s : kstate) :
  held s = scan_locks id -> -1 <= id < i ->
  scan_bucket i (sc, id) s =
    Ret (scan_step (bufs s) (chains s) (sc, id) i)
        (set_held (fun _ => scan_locks (snd (scan_step (bufs s) (chains s) (sc, id) i))) s).
Proof.
  intros Hh Hid. unfold scan_bucket, scan_step, chain_of. run_monad.
  destruct (is_better (scan_chain _ _ _ _ _)); simpl.
  - unfold set_held. simpl. rewrite Hh. unfold scan_locks.
    destruct (id =? -1) eqn:E; simpl.
    + destruct (i =? -1) eqn:E'; [lia | done].
    + rewrite release_other by (intros [=]; lia).
      rewrite release_head. simpl.
      destruct (i =? -1) eqn:E'; [lia | done].
  - unfold set_held. simpl. rewrite Hh, release_head.
    rewrite scan_locks_release by lia. done.
Qed.

Lemma for_each_cons {A} (body : Z -> A -> M A) i rest a s :
  for_each body (i :: rest) a s =
    match body i a s with
    | Ret a' s' => for_each body rest a' s'
    | Panic msg s' => Panic msg s'
    | NullDeref s' => NullDeref s'
    | Sleeps s' => Sleeps s'
    end.
Proof. reflexivity. Qed.

Lemma scan_step_id bs cs st i :
  snd (scan_step bs cs st i) = snd st \/ snd (scan_step bs cs st i) = i.
Proof. unfold scan_step. simpl. destruct (is_better _); auto. Qed.

(** The scan loop computes the fold of [scan_step]; it changes nothing
    but the locks held. *)
Lemma scan_loop_run (n : nat) :
  forall (m : Z) (st : scan * Z) (s : kstate),
    held s = scan_locks (snd st) -> -1 <= snd st < m ->
    for_each scan_bucket (seqZ m (Z.of_nat n)) st s =
      Ret (fold_left (scan_step (bufs s) (chains s)) (seqZ m (Z.of_nat n)) st)
          (set_held (fun _ => scan_locks
             (snd (fold_left (scan_step (bufs s) (chains s)) (seqZ m (Z.of_nat n)) st))) s).
Proof.
  induction n as [| n IH]; intros m [sc id] s Hh Hid.
  - simpl in *. unfold ret, set_held. rewrite <- Hh. by destruct s.
  - rewrite seqZ_cons by lia.
    replace (Z.pred (Z.of_nat (S n))) with (Z.of_nat n) by lia.
    rewrite for_each_cons, scan_bucket_run by done.
    pose proof (scan_step_id (bufs s) (chains s) (sc, id) m) as Hs.
    rewrite IH; simpl in *; [done | done | lia].
Qed.

Lemma scan_run (s : kstate) :
  held s = [] ->
  for_each scan_bucket (seqZ 0 NBUK) (mkscan 0 false None, -1) s =
    Ret (lru_scan (bufs s) (chains s))
        (set_held (fun _ => scan_locks (snd (lru_scan (bufs s) (chains s)))) s).
Proof.
  intros Hh. unfold lru_scan.
  change NBUK with (Z.of_nat 13). apply scan_loop_run; simpl; [done | lia].
Qed.

Section ScanInvariant.

Variable bs : list buf.
Variable cs : list (list nat).

(** The walk of one chain from position [length done] on, after the scan
    has met [pre]. *)
Lemma scan_chain_inv (i : Z) (rest : list nat) :
  forall (done : list nat) (pre : list nat) (sc : scan),
    chain_of cs i = done ++ rest ->
    scan_inv bs cs pre sc ->
    scan_inv bs cs (pre ++ rest) (scan_chain bs i (length done) rest sc).
Proof.
  induction rest as [| b rest IH]; intros done pre sc Hc Hinv; simpl.
  - by rewrite app_nil_r.
  - assert (Hc' : chain_of cs i = (done ++ [b]) ++ rest).
    { by rewrite <- app_assoc. }
    replace (S (length done)) with (length (done ++ [b]))
      by (rewrite length_app; simpl; lia).
    replace (pre ++ b :: rest) with ((pre ++ [b]) ++ rest)
      by (by rewrite <- app_assoc).
    destruct ((refcnt (bs !!! b) =? 0)
              && (timestamp (bs !!! b) >=? uint_wrap (max_timestamp sc))) eqn:E.
    + apply andb_true_iff in E as [Er Et].
      apply Z.eqb_eq in Er. apply Z.geb_le in Et.
      apply IH; [done |]. unfold scan_inv. simpl.
      exists (length pre), b. split; [| split; [| split]].
      * rewrite Hc. by apply list_lookup_middle.
      * by apply list_lookup_middle.
      * done.
      * intros Hok. split; [by apply uint_int_uint |].
        split; [by apply list_lookup_middle |]. split; [done |].
        intros m w Hm Hw.
        assert (Hlt : (m < length (pre ++ [b]))%nat) by (by eapply lookup_lt_Some).
        rewrite length_app in Hlt. simpl in Hlt.
        split; [| lia].
        destruct (decide (m < length pre)%nat) as [Hin | Hout].
        -- rewrite lookup_app_l in Hm by done.
           unfold scan_inv in Hinv. destruct (prev_lru_b sc) as [l |].
           ++ destruct Hinv as (n & v & _ & _ & _ & Hbest).
              destruct (Hbest Hok) as (Hmax & _ & _ & Hall).
              destruct (Hall m w Hm Hw) as [Hle _]. lia.
           ++ destruct Hinv as [_ Hnone].
              exfalso. eapply (Hnone Hok w); [| done].
              by eapply list_elem_of_lookup_2.
        -- assert (m = length pre) as -> by lia.
           rewrite list_lookup_middle in Hm by done. by injection Hm as <-.
    + apply IH; [done |]. unfold scan_inv in *.
      destruct (prev_lru_b sc) as [l |].
      * destruct Hinv as (n & v & Hl & Hn & Hr & Hbest).
        exists n, v. split; [done |]. split; [by apply lookup_app_l_Some |].
        split; [done |]. intros Hok. destruct (Hbest Hok) as (Hmax & _ & _ & Hall).
        split; [done |]. split; [by apply lookup_app_l_Some |]. split; [done |].
        intros m w Hm Hw.
        destruct (decide (m < length pre)%nat) as [Hin | Hout].
        -- rewrite lookup_app_l in Hm by done. by apply Hall.
        -- assert (Hlt : (m < length (pre ++ [b]))%nat) by (by eapply lookup_lt_Some).
           rewrite length_app in Hlt. simpl in Hlt.
           assert (m = length pre) as -> by lia.
           rewrite list_lookup_middle in Hm by done. injection Hm as <-.
           rewrite Hw in E. simpl in E. rewrite Z.geb_leb in E.
           apply Z.leb_gt in E. lia.
      * destruct Hinv as [Hmax Hnone]. split; [done |].
        intros Hok w Hw. apply elem_of_app in Hw as [Hw | Hw].
        -- by apply Hnone.
        -- apply list_elem_of_singleton in Hw as ->. intros Hr.
           rewrite Hr, Hmax in E. simpl in E.
           destruct (Hok b) as [H0 _]. unfold uint_wrap in E. simpl in E.
           rewrite Z.geb_leb in E. apply Z.leb_gt in E.
           rewrite Z.mod_0_l in E by done. lia.
Qed.

(** A walk either leaves the locals alone or ends with a candidate of
    its own bucket. *)
Lemma scan_chain_cases (i : Z) (rest : list nat) :
  forall (p : nat) (sc : scan),
    scan_chain bs i p rest sc = sc \/
    (is_better (scan_chain bs i p rest sc) = true /\
     exists p', prev_lru_b (scan_chain bs i p rest sc) = Some (mklink i p')).
Proof.
  induction rest as [| b rest IH]; intros p sc; simpl; [by left |].
  destruct (_ && _).
  - right. destruct (IH (S p)
      (mkscan (int_wrap (timestamp (bs !!! b))) true (Some (mklink i p))))
      as [-> | H]; [| done].
    simpl. eauto.
  - apply IH.
Qed.

Lemma scan_step_inv (pre : list nat) (st : scan * Z) (i : Z) :
  scan_inv bs cs pre (fst st) ->
  scan_inv bs cs (pre ++ chain_of cs i) (fst (scan_step bs cs st i)).
Proof.
  intros Hinv. unfold scan_step. simpl.
  apply (scan_chain_inv i _ [] pre (fst st) eq_refl Hinv).
Qed.

Lemma scan_step_link (st : scan * Z) (i : Z) :
  i <> -1 -> link_inv st -> link_inv (scan_step bs cs st i).
Proof.
  intros Hi [Hb Hl]. unfold link_inv, scan_step. simpl. split; [done |].
  destruct (scan_chain_cases i (chain_of cs i) 0%nat (fst st))
    as [-> | (-> & p' & ->)]; simpl.
  - by rewrite Hb.
  - done.
Qed.

Lemma scan_fold_inv (idx : list Z) :
  forall (pre : list nat) (st : scan * Z),
    scan_inv bs cs pre (fst st) ->
    scan_inv bs cs
      (pre ++ concat (map (chain_of cs) idx))
      (fst (fold_left (scan_step bs cs) idx st)).
Proof.
  induction idx as [| i idx IH]; intros pre st Hinv; simpl.
  - by rewrite app_nil_r.
  - rewrite app_assoc. apply IH. by apply scan_step_inv.
Qed.

Lemma scan_fold_link (idx : list Z) :
  forall st : scan * Z,
    Forall (fun i => i <> -1) idx -> link_inv st ->
    link_inv (fold_left (scan_step bs cs) idx st).
Proof.
  induction idx as [| i idx IH]; intros st Hidx Hl; simpl; [done |].
  inversion Hidx; subst. apply IH; [done |]. by apply scan_step_link.
Qed.

Lemma lru_scan_inv :
  scan_inv bs cs
    (concat (map (chain_of cs) (seqZ 0 NBUK)))
    (fst (lru_scan bs cs)).
Proof.
  unfold lru_scan.
  apply (scan_fold_inv (seqZ 0 NBUK) [] (mkscan 0 false None, -1)).
  unfold scan_inv. simpl. split; [done |]. intros _ w Hw.
  by apply elem_of_nil in Hw.
Qed.

Lemma lru_scan_link : link_inv (lru_scan bs cs).
Proof.
  unfold lru_scan. apply scan_fold_link.
  - apply list.Forall_forall. intros i Hi. apply elem_of_seqZ in Hi. lia.
  - by split.
Qed.

(** The invariants read at the end of the scan.  They are used through
    these lemmas only, so that no proof has to evaluate [lru_scan]. *)
Lemma scan_inv_found pre sc l :
  scan_inv bs cs pre sc -> prev_lru_b sc = Some l ->
  exists n v,
    chain_of cs (lbucket l) !! lpos l = Some v /\
    pre !! n = Some v /\
    refcnt (bs !!! v) = 0 /\
    (stamps_ok bs -> lru_choice bs pre n v).
Proof.
  unfold scan_inv. intros Hinv Hl. rewrite Hl in Hinv.
  destruct Hinv as (n & v & Hv & Hn & Hr & Hbest).
  exists n, v. split; [done |]. split; [done |]. split; [done |].
  intros Hok. by apply Hbest.
Qed.

Lemma scan_inv_none pre sc :
  scan_inv bs cs pre sc -> prev_lru_b sc = None ->
  stamps_ok bs -> forall w, w ∈ pre -> refcnt (bs !!! w) <> 0.
Proof.
  unfold scan_inv. intros Hinv Hl. rewrite Hl in Hinv. by destruct Hinv.
Qed.

Lemma link_inv_found st l :
  link_inv st -> prev_lru_b (fst st) = Some l ->
  snd st = lbucket l /\ lbucket l <> -1.
Proof.
  unfold link_inv. intros [_ H] Hl. rewrite Hl in H. destruct H as [<- H]. done.
Qed.

Lemma link_inv_none st :
  link_inv st -> prev_lru_b (fst st) = None -> snd st = -1.
Proof. unfold link_inv. intros [_ H] Hl. by rewrite Hl in H. Qed.

End ScanInvariant.

(** ** The paths of bget *)

Lemma bind_get {B} (k : kstate -> M B) s : bind get k s = k s s.
Proof. reflexivity. Qed.

Lemma bind_ret {A B} (a : A) (k : A -> M B) s : bind (ret a) k s = k a s.
Proof. reflexivity. Qed.

Lemma bind_bind {A B C} (m : M A) (k : A -> M B) (k' : B -> M C) s :
  bind (bind m k) k' s = bind m (fun a => bind (k a) k') s.
Proof. unfold bind. by destruct (m s). Qed.

(** One statement of kernel code run on a state given field by field. *)
Section Steps.

Context {B : Type} (k : unit -> M B).
Variables (bs : list buf) (cs : list (list nat)) (h : list spinlock).
Variables (tk pid : Z) (dk : Z -> Z -> list byte).
Variable lg : list (action * list spinlock).

Lemma step_acquire l :
  bind (acquire l) k (mkstate bs cs h tk pid dk lg)
  = k tt (mkstate bs cs (l :: h) tk pid dk lg).
Proof. reflexivity. Qed.

Lemma step_release l :
  bind (release l) k (mkstate bs cs h tk pid dk lg)
  = k tt (mkstate bs cs (filter (fun l' => l' <> l) h) tk pid dk lg).
Proof. reflexivity. Qed.

Lemma step_upd b f :
  bind (upd b f) k (mkstate bs cs h tk pid dk lg)
  = k tt (mkstate (alter f b bs) cs h tk pid dk lg).
Proof. reflexivity. Qed.

Lemma step_log a :
  bind (modify (add_log a)) k (mkstate bs cs h tk pid dk lg)
  = k tt (mkstate bs cs h tk pid dk (lg ++ [(a, h)])).
Proof. reflexivity. Qed.

Lemma step_chains f :
  bind (modify (set_chains f)) k (mkstate bs cs h tk pid dk lg)
  = k tt (mkstate bs (f cs) h tk pid dk lg).
Proof. reflexivity. Qed.

End Steps.

Lemma step_scan {B} (k : scan * Z -> M B) bs cs tk pid dk lg :
  bind (for_each scan_bucket (seqZ 0 NBUK) (mkscan 0 false None, -1)) k
       (mkstate bs cs [] tk pid dk lg)
  = k (lru_scan bs cs)
      (mkstate bs cs (scan_locks (snd (lru_scan bs cs))) tk pid dk lg).
Proof. unfold bind at 1. by rewrite scan_run. Qed.

Ltac fields := cbn [bufs chains held ticks curproc disk log].

Ltac kstep :=
  repeat first
    [ rewrite bind_bind | rewrite step_acquire | rewrite step_release
    | rewrite step_upd | rewrite step_log | rewrite step_chains
    | rewrite bind_get | rewrite bind_ret ];
  fields.

Ltac bget_start :=
  unfold bumped, moved, installed, with_log, set_bufs, set_chains, bufat;
  fields;
  unfold bget, refcnt_incr, unlink, splice; kstep.

Section Paths.

Variables (bs : list buf) (cs : list (list nat)).
Variables (tk pid : Z) (dk : Z -> Z -> list byte).
Variable lg : list (action * list spinlock).
Variables dv bn : Z.

Let s : kstate := mkstate bs cs [] tk pid dk lg.

Lemma bget_hit b :
  lookup_chain bs dv bn (chain_of cs (hash dv bn)) = Some b ->
  bget dv bn s = sleep_return b (bumped b [BucketLock (hash dv bn)] s).
Proof.
  intros Hm. subst s. bget_start. rewrite Hm. kstep. by rewrite release_head.
Qed.

Lemma bget_miss_null :
  lookup_chain bs dv bn (chain_of cs (hash dv bn)) = None ->
  prev_lru_b (fst (lru_scan bs cs)) = None ->
  snd (lru_scan bs cs) = -1 ->
  bget dv bn s = NullDeref s.
Proof.
  intros Hm Hn Hid. subst s. bget_start. rewrite Hm. kstep.
  rewrite release_head. simpl filter. rewrite step_scan.
  destruct (lru_scan bs cs) as [sc id].
  cbn [fst snd] in *. rewrite Hn. subst id. reflexivity.
Qed.

Lemma bget_miss_move l v :
  lookup_chain bs dv bn (chain_of cs (hash dv bn)) = None ->
  prev_lru_b (fst (lru_scan bs cs)) = Some l ->
  snd (lru_scan bs cs) = lbucket l ->
  lbucket l <> -1 ->
  chain_of cs (lbucket l) !! lpos l = Some v ->
  bget dv bn s =
    match lookup_chain bs dv bn
            (chain_of (chains (moved l v (hash dv bn) s)) (hash dv bn)) with
    | Some b =>
        sleep_return b
          (bumped b [BucketLock (hash dv bn); BcacheLock] (moved l v (hash dv bn) s))
    | None =>
        sleep_return v
          (installed dv bn v [BucketLock (hash dv bn); BcacheLock]
             (moved l v (hash dv bn) s))
    end.
Proof.
  intros Hm Hl Hid Hne Hv. subst s. bget_start. rewrite Hm. kstep.
  rewrite release_head. simpl filter. rewrite step_scan.
  destruct (lru_scan bs cs) as [sc id].
  cbn [fst snd] in *. rewrite Hl. subst id.
  unfold scan_locks. destruct (lbucket l =? -1) eqn:E; [lia |].
  kstep. rewrite Hv. kstep. rewrite release_head. simpl filter.
  destruct (lookup_chain bs dv bn (chain_of (alter _ _ _) _)) as [b |] eqn:Hm2.
  - kstep. rewrite release_head, release_other by done.
    rewrite release_head. simpl filter. by rewrite <- !app_assoc.
  - kstep. rewrite release_head, release_other by done.
    rewrite release_head. simpl filter. by rewrite <- !app_assoc.
Qed.

End Paths.

(** The paths of [bget] called with no spin-lock held: a hit in the
    target bucket; a null [prev_lru_b] dereferenced when the scan found no
    candidate; or the candidate, a buffer with [refcnt == 0], moved to the
    target bucket and the lookup repeated. *)
Lemma bget_on_hit s dv bn b :
  held s = [] ->
  lookup_chain (bufs s) dv bn (chain_of (chains s) (hash dv bn)) = Some b ->
  bget dv bn s = sleep_return b (bumped b [BucketLock (hash dv bn)] s).
Proof.
  destruct s as [bs cs h tk pid dk lg]. simpl. intros -> Hm. by apply bget_hit.
Qed.

Lemma bget_on_no_candidate s dv bn :
  held s = [] ->
  lookup_chain (bufs s) dv bn (chain_of (chains s) (hash dv bn)) = None ->
  prev_lru_b (fst (lru_scan (bufs s) (chains s))) = None ->
  bget dv bn s = NullDeref s.
Proof.
  destruct s as [bs cs h tk pid dk lg]. simpl. intros -> Hm Hl.
  apply bget_miss_null; [done | done |].
  by apply link_inv_none; [apply lru_scan_link |].
Qed.

Lemma bget_on_candidate s dv bn l :
  held s = [] ->
  lookup_chain (bufs s) dv bn (chain_of (chains s) (hash dv bn)) = None ->
  prev_lru_b (fst (lru_scan (bufs s) (chains s))) = Some l ->
  exists n v,
    chain_of (chains s) (lbucket l) !! lpos l = Some v /\
    scan_order s !! n = Some v /\
    refcnt (bufat s v) = 0 /\
    (stamps_ok (bufs s) -> lru_choice (bufs s) (scan_order s) n v) /\
    bget dv bn s = after_move dv bn l v s.
Proof.
  destruct s as [bs cs h tk pid dk lg]. simpl. intros -> Hm Hl.
  destruct (link_inv_found _ _ (lru_scan_link bs cs) Hl) as [Hid Hne].
  destruct (scan_inv_found _ _ _ _ _ (lru_scan_inv bs cs) Hl)
    as (n & v & Hv & Hn & Hr & Hbest).
  exists n, v. split; [done |]. split; [done |]. split; [done |].
  split; [done |].
  unfold after_move. fields. by apply bget_miss_move.
Qed.

(** ** Fields of the states bget passes through *)

Section Fields.

Variables (s : kstate) (b : nat) (h : list spinlock).
Variables (l : link) (tgt dv bn : Z).

Lemma bufs_bumped :
  bufs (bumped b h s)
  = alter (fun bf => set_refcnt (int_wrap (refcnt bf + 1)) bf) b (bufs s).
Proof. reflexivity. Qed.
Lemma chains_bumped : chains (bumped b h s) = chains s.
Proof. reflexivity. Qed.
Lemma held_bumped : held (bumped b h s) = held s.
Proof. reflexivity. Qed.
Lemma curproc_bumped : curproc (bumped b h s) = curproc s.
Proof. reflexivity. Qed.
Lemma log_bumped : log (bumped b h s) = log s ++ [(ARefcnt b, h)].
Proof. reflexivity. Qed.

Lemma bufs_moved : bufs (moved l b tgt s) = bufs s.
Proof. reflexivity. Qed.
Lemma chains_moved :
  chains (moved l b tgt s)
  = alter (cons b) (Z.to_nat tgt)
      (alter (delete (lpos l)) (Z.to_nat (lbucket l)) (chains s)).
Proof. reflexivity. Qed.
Lemma held_moved : held (moved l b tgt s) = held s.
Proof. reflexivity. Qed.
Lemma curproc_moved : curproc (moved l b tgt s) = curproc s.
Proof. reflexivity. Qed.
Lemma log_moved :
  log (moved l b tgt s)
  = log s ++ [(AUnlink (lbucket l) b, [BucketLock (lbucket l)]);
              (ASplice tgt b, [BucketLock tgt; BcacheLock])].
Proof. unfold moved, with_log. simpl. by rewrite <- app_assoc. Qed.

Lemma bufs_installed :
  bufs (installed dv bn b h s)
  = alter (set_refcnt 1) b (alter (set_valid 0) b
      (alter (set_blockno bn) b (alter (set_dev dv) b (bufs s)))).
Proof. reflexivity. Qed.
Lemma chains_installed : chains (installed dv bn b h s) = chains s.
Proof. reflexivity. Qed.
Lemma held_installed : held (installed dv bn b h s) = held s.
Proof. reflexivity. Qed.
Lemma curproc_installed : curproc (installed dv bn b h s) = curproc s.
Proof. reflexivity. Qed.
Lemma log_installed : log (installed dv bn b h s) = log s ++ [(ARefcnt b, h)].
Proof. reflexivity. Qed.

Lemma bufs_locked :
  bufs (locked b s) = alter (set_lock (Some (curproc s))) b (bufs s).
Proof. reflexivity. Qed.
Lemma chains_locked : chains (locked b s) = chains s.
Proof. reflexivity. Qed.
Lemma held_locked : held (locked b s) = held s.
Proof. reflexivity. Qed.
Lemma curproc_locked : curproc (locked b s) = curproc s.
Proof. reflexivity. Qed.
Lemma log_locked : log (locked b s) = log s ++ [(AAcquireSleep b, held s)].
Proof. reflexivity. Qed.

Lemma bufs_fetched :
  bufs (fetched b s)
  = alter (set_valid 1) b
      (alter (set_data (disk s (dev (bufat s b)) (blockno (bufat s b)))) b (bufs s)).
Proof. reflexivity. Qed.
Lemma chains_fetched : chains (fetched b s) = chains s.
Proof. reflexivity. Qed.
Lemma held_fetched : held (fetched b s) = held s.
Proof. reflexivity. Qed.
Lemma curproc_fetched : curproc (fetched b s) = curproc s.
Proof. reflexivity. Qed.
Lemma log_fetched : log (fetched b s) = log s.
Proof. reflexivity. Qed.

End Fields.

Create Rewrite HintDb kst.
#[local] Hint Rewrite
  bufs_fetched chains_fetched held_fetched curproc_fetched log_fetched : kst.
#[local] Hint Rewrite
  bufs_bumped chains_bumped held_bumped curproc_bumped log_bumped
  bufs_moved chains_moved held_moved curproc_moved log_moved
  bufs_installed chains_installed held_installed curproc_installed log_installed
  bufs_locked chains_locked held_locked curproc_locked log_locked : kst.

(** Reads of buffer fields in such a state. *)
Ltac read_fields :=
  unfold bufat; autorewrite with kst; bufs_simpl; cbn [valid dev blockno lock refcnt timestamp data set_lock set_refcnt set_timestamp set_valid set_dev set_blockno set_data].

(** ** Well-formed caches *)

Lemma elem_of_scan_order s b :
  b ∈ scan_order s <-> exists i, 0 <= i < NBUK /\ b ∈ chain_of (chains s) i.
Proof.
  unfold scan_order. rewrite list_elem_of_In, in_concat. split.
  - intros (c & Hc & Hb). apply in_map_iff in Hc as (i & <- & Hi).
    apply list_elem_of_In, elem_of_seqZ in Hi. exists i.
    split; [lia | by apply list_elem_of_In].
  - intros (i & Hi & Hb). exists (chain_of (chains s) i). split.
    + apply in_map. apply list_elem_of_In, elem_of_seqZ. lia.
    + by apply list_elem_of_In.
Qed.

Lemma wf_linked s b : wf s -> b ∈ scan_order s -> (b < length (bufs s))%nat.
Proof.
  unfold wf, wfb, linkedb. rewrite !andb_true_iff. intros [[[[Hl _] _] _] _] Hb.
  rewrite forallb_forall in Hl. apply list_elem_of_In, Hl in Hb.
  by apply Nat.ltb_lt in Hb.
Qed.

Lemma wf_placed s i b :
  wf s -> 0 <= i < NBUK -> b ∈ chain_of (chains s) i ->
  hash (dev (bufat s b)) (blockno (bufat s b)) = i.
Proof.
  unfold wf, wfb, placedb. rewrite !andb_true_iff. intros [[[[_ Hp] _] _] _] Hi Hb.
  rewrite forallb_forall in Hp.
  assert (Hin : In i (seqZ 0 NBUK)) by (apply list_elem_of_In, elem_of_seqZ; lia).
  apply Hp in Hin. rewrite forallb_forall in Hin.
  apply list_elem_of_In, Hin in Hb. by apply Z.eqb_eq in Hb.
Qed.

Lemma wf_stamps s : wf s -> stamps_ok (bufs s).
Proof.
  unfold wf, wfb, stampedb. rewrite !andb_true_iff. intros [[[_ Hst] _] _] w.
  rewrite forallb_forall in Hst. rewrite list_lookup_total_alt.
  destruct (bufs s !! w) as [bf |] eqn:E; simpl.
  - apply list_elem_of_lookup_2, list_elem_of_In, Hst in E.
    apply andb_true_iff in E as [E1 E2].
    apply Z.leb_le in E1. apply Z.leb_le in E2. by split.
  - unfold is_uint, UINT_MAX. simpl. lia.
Qed.

Lemma wf_idle_unlocked s b :
  wf s -> refcnt (bufat s b) = 0 -> lock (bufat s b) = None.
Proof.
  unfold wf, wfb, idle_unlockedb, bufat. rewrite !andb_true_iff.
  intros [[_ Hu] _] Hr.
  rewrite forallb_forall in Hu. rewrite list_lookup_total_alt in *.
  destruct (bufs s !! b) as [bf |] eqn:E; simpl in *; [| done].
  apply list_elem_of_lookup_2, list_elem_of_In, Hu in E.
  apply orb_true_iff in E as [E | E].
  - apply negb_true_iff, Z.eqb_neq in E. done.
  - by apply bool_decide_eq_true in E.
Qed.

Lemma wf_covered s b :
  wf s -> (b < length (bufs s))%nat -> b ∈ scan_order s.
Proof.
  unfold wf, wfb, coveredb. rewrite !andb_true_iff. intros [_ Hc] Hb.
  rewrite forallb_forall in Hc.
  assert (Hin : In b (seq 0 (length (bufs s)))) by (apply in_seq; lia).
  apply Hc in Hin. by apply bool_decide_eq_true in Hin.
Qed.

Lemma lookup_chain_None bs dv bn c :
  lookup_chain bs dv bn c = None <->
  forall b, b ∈ c -> ~ (dev (bs !!! b) = dv /\ blockno (bs !!! b) = bn).
Proof.
  induction c as [| b c IH]; simpl.
  - split; [| done]. intros _ b Hb. by apply elem_of_nil in Hb.
  - destruct ((dev (bs !!! b) =? dv) && (blockno (bs !!! b) =? bn)) eqn:E.
    + apply andb_true_iff in E as [E1 E2].
      apply Z.eqb_eq in E1. apply Z.eqb_eq in E2.
      split; [discriminate |]. intros H. destruct (H b); [by left | done].
    + rewrite IH. apply andb_false_iff in E. split.
      * intros H b' Hb'. apply elem_of_cons in Hb' as [-> | Hb']; [| by apply H].
        intros [H1 H2]. destruct E as [E | E]; apply Z.eqb_neq in E; done.
      * intros H b' Hb'. apply H. by right.
Qed.

Lemma chain_of_alter (f : list nat -> list nat) (k : nat) cs j b :
  b ∈ chain_of (alter f k cs) j -> b ∈ f (chain_of cs j) \/ b ∈ chain_of cs j.
Proof.
  unfold chain_of. rewrite list_lookup_alter.
  destruct (decide (k = Z.to_nat j)) as [-> | Hne]; [| by right].
  destruct (cs !! Z.to_nat j); simpl; [by left | by right].
Qed.

Lemma moved_target_chain l v tgt s b :
  b ∈ chain_of (chains (moved l v tgt s)) tgt -> b = v \/ b ∈ chain_of (chains s) tgt.
Proof.
  rewrite chains_moved. intros Hb.
  apply chain_of_alter in Hb as [Hb | Hb].
  - apply elem_of_cons in Hb as [-> | Hb]; [by left |]. right.
    apply chain_of_alter in Hb as [Hb | Hb]; [| done].
    eapply elem_of_sublist; [exact Hb | apply sublist_delete].
  - right. apply chain_of_alter in Hb as [Hb | Hb]; [| done].
    eapply elem_of_sublist; [exact Hb | apply sublist_delete].
Qed.

Lemma sleep_return_free s b :
  lock (bufat s b) = None -> sleep_return b s = Ret b (locked b s).
Proof.
  intros Hl. unfold sleep_return, acquiresleep.
  rewrite bind_bind, bind_get, Hl. reflexivity.
Qed.

Lemma sleep_return_held s b p :
  lock (bufat s b) = Some p -> sleep_return b s = Sleeps s.
Proof.
  intros Hl. unfold sleep_return, acquiresleep.
  rewrite bind_bind, bind_get, Hl. reflexivity.
Qed.

(** ** Eviction *)

Lemma scan_none_all_pinned s :
  prev_lru_b (fst (lru_scan (bufs s) (chains s))) = None ->
  stamps_ok (bufs s) ->
  forall w, w ∈ scan_order s -> refcnt (bufat s w) <> 0.
Proof. exact (scan_inv_none _ _ _ _ (lru_scan_inv (bufs s) (chains s))). Qed.

(** C3: on a miss in a well-formed cache with some buffer of
    [refcnt == 0], [bget] evicts, and returns with the new identity, the
    buffer that among all those with [refcnt == 0] has the largest
    timestamp, the buckets scanned 0 .. NBUK-1 and each chain from its
    head, and of several with that timestamp the one met last. *)
Theorem bget_evicts_latest_stamp (s : kstate) (dv bn : Z) :
  wf s ->
  held s = [] ->
  lookup_chain (bufs s) dv bn (chain_of (chains s) (hash dv bn)) = None ->
  Exists (fun b => refcnt (bufat s b) = 0) (scan_order s) ->
  exists n v src s',
    lru_choice (bufs s) (scan_order s) n v /\
    (forall w, (w < length (bufs s))%nat -> refcnt (bufat s w) = 0 ->
       timestamp (bufat s w) <= timestamp (bufat s v)) /\
    bget dv bn s = Ret v s' /\
    log s' = log s ++
      [(AUnlink src v, [BucketLock src]);
       (ASplice (hash dv bn) v, [BucketLock (hash dv bn); BcacheLock]);
       (ARefcnt v, [BucketLock (hash dv bn); BcacheLock]);
       (AAcquireSleep v, [])] /\
    dev (bufat s' v) = dv /\
    blockno (bufat s' v) = bn /\
    valid (bufat s' v) = 0 /\
    refcnt (bufat s' v) = 1 /\
    lock (bufat s' v) = Some (curproc s).
Proof.
  intros Hwf Hh Hm Hex.
  pose proof (wf_stamps s Hwf) as Hok.
  destruct (prev_lru_b (fst (lru_scan (bufs s) (chains s)))) as [l |] eqn:Hl.
  - destruct (bget_on_candidate s dv bn l Hh Hm Hl)
      as (n & v & Hv & Hn & Hr & Hbest & Hg).
    assert (Hin : v ∈ scan_order s) by (by eapply list_elem_of_lookup_2).
    assert (Hlen : (v < length (bufs s))%nat) by (by apply wf_linked).
    assert (Hrecheck :
      lookup_chain (bufs s) dv bn
        (chain_of (chains (moved l v (hash dv bn) s)) (hash dv bn)) = None).
    { apply lookup_chain_None. intros b Hb [Hd Hbn].
      rewrite lookup_chain_None in Hm.
      apply moved_target_chain in Hb as [-> | Hb]; [| by eapply Hm].
      apply elem_of_scan_order in Hin as (i & Hi & Hvi).
      pose proof (wf_placed s i v Hwf Hi Hvi) as Hp. unfold bufat in Hp.
      rewrite Hd, Hbn in Hp. subst i. by eapply Hm. }
    unfold after_move in Hg. cbn zeta in Hg. rewrite Hrecheck in Hg.
    rewrite sleep_return_free in Hg.
    + exists n, v, (lbucket l). eexists. split; [by apply Hbest |].
      split.
      { intros w Hw Hrw.
        apply (wf_covered s w Hwf), list_elem_of_lookup_1 in Hw as [m Hm'].
        destruct (Hbest Hok) as (_ & _ & Hall).
        by destruct (Hall m w Hm' Hrw). }
      split; [exact Hg |]. read_fields.
      rewrite Hh, <- !app_assoc. done.
    + read_fields. by apply wf_idle_unlocked.
  - exfalso. apply list.Exists_exists in Hex as (w & Hw & Hr).
    exact (scan_none_all_pinned s Hl Hok w Hw Hr).
Qed.

Lemma bget_evicts_witness :
  exists n v src s',
    lru_choice (bufs some_released) (scan_order some_released) n v /\
    (forall w, (w < length (bufs some_released))%nat ->
       refcnt (bufat some_released w) = 0 ->
       timestamp (bufat some_released w) <= timestamp (bufat some_released v)) /\
    bget 1 31 some_released = Ret v s' /\
    log s' = log some_released ++
      [(AUnlink src v, [BucketLock src]);
       (ASplice (hash 1 31) v, [BucketLock (hash 1 31); BcacheLock]);
       (ARefcnt v, [BucketLock (hash 1 31); BcacheLock]);
       (AAcquireSleep v, [])] /\
    dev (bufat s' v) = 1 /\
    blockno (bufat s' v) = 31 /\
    valid (bufat s' v) = 0 /\
    refcnt (bufat s' v) = 1 /\
    lock (bufat s' v) = Some (curproc some_released).
Proof.
  apply (bget_evicts_latest_stamp some_released 1 31).
  - vm_compute. reflexivity.
  - vm_compute. reflexivity.
  - vm_compute. reflexivity.
  - apply (bool_decide_eq_true_1 _). vm_compute. reflexivity.
Defined.

(** ** Where bget and bread end *)

Lemma sleep_return_cases s b :
  sleep_return b s = Sleeps s \/ sleep_return b s = Ret b (locked b s).
Proof.
  destruct (lock (bufat s b)) as [p |] eqn:E.
  - left. by rewrite (sleep_return_held s b p).
  - right. by rewrite sleep_return_free.
Qed.

(** [bget] ends sleeping in, or returns [b] locked from, a state of
    [bget_mid], or ends at the null dereference in the state of the call. *)
Lemma bget_outcome s dv bn :
  held s = [] ->
  bget dv bn s = NullDeref s \/
  exists x b, bget_mid dv bn s x /\
    (bget dv bn s = Sleeps x \/ bget dv bn s = Ret b (locked b x)).
Proof.
  intros Hh.
  destruct (lookup_chain (bufs s) dv bn (chain_of (chains s) (hash dv bn)))
    as [b |] eqn:Hm.
  - right. rewrite (bget_on_hit s dv bn b Hh Hm).
    exists (bumped b [BucketLock (hash dv bn)] s), b.
    split; [constructor | apply sleep_return_cases].
  - destruct (prev_lru_b (fst (lru_scan (bufs s) (chains s)))) as [l |] eqn:Hl.
    + right.
      destruct (bget_on_candidate s dv bn l Hh Hm Hl) as (n & v & _ & _ & Hr & _ & ->).
      unfold after_move. cbn zeta.
      destruct (lookup_chain (bufs s) dv bn (chain_of (chains (moved _ _ _ _)) _))
        as [b |].
      * eexists _, b. split; [by apply mid_rehit | apply sleep_return_cases].
      * eexists _, v. split; [by apply mid_install | apply sleep_return_cases].
    + left. by apply bget_on_no_candidate.
Qed.

Lemma bread_after_bget s dv bn :
  bread dv bn s =
    match bget dv bn s with
    | Ret b s1 => Ret b (if valid (bufat s1 b) =? 0 then fetched b s1 else s1)
    | Panic msg s1 => Panic msg s1
    | NullDeref s1 => NullDeref s1
    | Sleeps s1 => Sleeps s1
    end.
Proof.
  unfold bread. unfold bind at 1.
  destruct (bget dv bn s) as [b s1 | | |]; try reflexivity.
  rewrite bind_get. destruct (valid (bufat s1 b) =? 0); reflexivity.
Qed.

Lemma bread_ends s dv bn :
  held s = [] ->
  bread_end dv bn s (final (bget dv bn s)) /\
  bread_end dv bn s (final (bread dv bn s)).
Proof.
  intros Hh. rewrite bread_after_bget.
  destruct (bget_outcome s dv bn Hh) as [-> | (x & b & Hx & [-> | ->])]; simpl.
  - split; apply end_mid; constructor.
  - split; by apply end_mid.
  - split; [by apply end_locked |].
    destruct (valid (bufat (locked b x) b) =? 0);
      [by apply end_fetched | by apply end_locked].
Qed.

(** ** What the operations leave of a buffer *)

Lemma alter_field {A} (g : buf -> A) (f : buf -> buf) (b0 : nat) (bs : list buf) (b : nat) :
  (forall x, g (f x) = g x) -> g (alter f b0 bs !!! b) = g (bs !!! b).
Proof.
  intros Hg. rewrite list_lookup_total_alter.
  case_decide as H; [destruct H as [-> _]; apply Hg | done].
Qed.

Ltac keep_field g := rewrite ?(alter_field g) by done.

Section Ends.

Variables dv bn : Z.
Variables s x : kstate.

Lemma mid_identity b :
  bget_mid dv bn s x -> refcnt (bufat s b) <> 0 ->
  dev (bufat x b) = dev (bufat s b) /\ blockno (bufat x b) = blockno (bufat s b).
Proof.
  intros Hx Hr.
  destruct Hx as [| b0 | l v b0 Hv | l v Hv];
    unfold bufat in *; autorewrite with kst.
  - done.
  - by keep_field dev; keep_field blockno.
  - by keep_field dev; keep_field blockno.
  - assert (v <> b) by (intros ->; done). by rewrite !alter_other.
Qed.

Lemma mid_refcnt b :
  bget_mid dv bn s x -> refcnt (bufat s b) = 1 -> refcnt (bufat x b) <> 0.
Proof.
  intros Hx Hr.
  destruct Hx as [| b0 | l v b0 Hv | l v Hv];
    unfold bufat in *; autorewrite with kst.
  - by rewrite Hr.
  - rewrite list_lookup_total_alter. case_decide as H.
    + destruct H as [-> _]. by rewrite Hr.
    + by rewrite Hr.
  - rewrite list_lookup_total_alter. case_decide as H.
    + destruct H as [-> _]. by rewrite Hr.
    + by rewrite Hr.
  - assert (v <> b) by (intros ->; congruence).
    rewrite !alter_other by done. by rewrite Hr.
Qed.

Lemma mid_log :
  bget_mid dv bn s x ->
  exists delta,
    log x = log s ++ delta /\ (no_move s x delta \/ one_move dv bn s x delta).
Proof.
  intros Hx.
  assert (Hq : forall b h, Forall no_membership [(ARefcnt b, h)]).
  { intros b h. repeat constructor. by intros []. }
  destruct Hx as [| b0 | l v b0 Hv | l v Hv].
  - exists []. split; [by rewrite app_nil_r |]. left. by split.
  - eexists. split; [by autorewrite with kst |]. left. by split.
  - eexists. split; [autorewrite with kst; by rewrite <- app_assoc |].
    right. exists l, v. eexists. by autorewrite with kst.
  - eexists. split; [autorewrite with kst; by rewrite <- app_assoc |].
    right. exists l, v. eexists. by autorewrite with kst.
Qed.

End Ends.

Lemma end_identity dv bn s x b :
  bread_end dv bn s x -> refcnt (bufat s b) <> 0 ->
  dev (bufat x b) = dev (bufat s b) /\ blockno (bufat x b) = blockno (bufat s b).
Proof.
  intros Hx Hr. destruct Hx as [x Hx | x b0 Hx | x b0 Hx];
    destruct (mid_identity dv bn s x b Hx Hr) as [<- <-]; unfold bufat;
    autorewrite with kst; by keep_field dev; keep_field blockno.
Qed.

Lemma end_refcnt dv bn s x b :
  bread_end dv bn s x -> refcnt (bufat s b) = 1 -> refcnt (bufat x b) <> 0.
Proof.
  intros Hx Hr. destruct Hx as [x Hx | x b0 Hx | x b0 Hx];
    pose proof (mid_refcnt dv bn s x b Hx Hr) as Hne; unfold bufat in *;
    autorewrite with kst; by keep_field refcnt.
Qed.

Lemma no_move_app s x y delta more :
  no_move s x delta -> chains y = chains x -> Forall no_membership more ->
  no_move s y (delta ++ more).
Proof.
  intros [Hc Hq] Hy Hm. split; [congruence | by apply Forall_app].
Qed.

Lemma one_move_app dv bn s x y delta more :
  one_move dv bn s x delta -> chains y = chains x -> Forall no_membership more ->
  one_move dv bn s y (delta ++ more).
Proof.
  intros (l & v & rest & Hv & Hc & -> & Hq) Hy Hm.
  exists l, v, (rest ++ more). split; [done |]. split; [congruence |].
  split; [done | by apply Forall_app].
Qed.

Lemma end_log dv bn s x :
  bread_end dv bn s x ->
  exists delta,
    log x = log s ++ delta /\ (no_move s x delta \/ one_move dv bn s x delta).
Proof.
  assert (Hq : forall b h, Forall no_membership [(AAcquireSleep b, h)]).
  { intros b h. repeat constructor. by intros []. }
  intros Hx. destruct Hx as [x Hx | x b0 Hx | x b0 Hx];
    destruct (mid_log dv bn s x Hx) as (delta & Hd & Hmv).
  - by exists delta.
  - exists (delta ++ [(AAcquireSleep b0, held x)]).
    split; [autorewrite with kst; by rewrite Hd, <- app_assoc |].
    destruct Hmv as [Hmv | Hmv];
      [left; eapply no_move_app | right; eapply one_move_app]; by eauto.
  - exists (delta ++ [(AAcquireSleep b0, held x)]).
    split; [autorewrite with kst; by rewrite Hd, <- app_assoc |].
    destruct Hmv as [Hmv | Hmv];
      [left; eapply no_move_app | right; eapply one_move_app]; by eauto.
Qed.

(** ** The operations other than bread *)

Ltac run_op :=
  unfold run, bwrite, brelse, bpin, bunpin, virtio_disk_rw; run_monad.

Lemma other_ops_log o s :
  (forall dv bn, o <> OpBread dv bn) ->
  exists delta, log (run o s) = log s ++ delta /\ no_move s (run o s) delta.
Proof.
  intros Ho. unfold no_move.
  destruct o as [dv bn | b | b | b | b]; [by destruct (Ho dv bn) | ..].
  - run_op. destruct (bool_decide _); simpl; exists []; by rewrite app_nil_r.
  - run_op. destruct (bool_decide _); simpl; [| by exists []; rewrite app_nil_r].
    destruct (_ =? 0); simpl; rewrite <- !app_assoc; eexists;
      (split; [done |]); (split; [done |]); repeat constructor; by intros [].
  - run_op. eexists. split; [done |]. split; [done |].
    repeat constructor. by intros [].
  - run_op. eexists. split; [done |]. split; [done |].
    repeat constructor. by intros [].
Qed.

Lemma other_ops_identity o s b :
  (forall dv bn, o <> OpBread dv bn) ->
  dev (bufat (run o s) b) = dev (bufat s b) /\
  blockno (bufat (run o s) b) = blockno (bufat s b).
Proof.
  intros Ho. destruct o as [dv bn | b0 | b0 | b0 | b0]; [by destruct (Ho dv bn) | ..].
  - run_op. destruct (bool_decide _); simpl; [| done]. by destruct (1 =? 0).
  - run_op. destruct (bool_decide _); simpl; [| done].
    destruct (_ =? 0); unfold bufat; simpl; by keep_field dev; keep_field blockno.
  - run_op. unfold bufat; simpl; by keep_field dev; keep_field blockno.
  - run_op. unfold bufat; simpl; by keep_field dev; keep_field blockno.
Qed.

Lemma other_ops_last_release o s b :
  (forall dv bn, o <> OpBread dv bn) ->
  refcnt (bufat s b) = 1 ->
  refcnt (bufat (run o s) b) = 0 ->
  (o = OpBrelse b /\ timestamp (bufat (run o s) b) = ticks s) \/
  (o = OpBunpin b /\ timestamp (bufat (run o s) b) = timestamp (bufat s b)).
Proof.
  intros Ho Hr. destruct o as [dv bn | b0 | b0 | b0 | b0]; [by destruct (Ho dv bn) | ..].
  - run_op. unfold bufat in *.
    destruct (bool_decide _); simpl; congruence.
  - destruct (decide (b0 = b)) as [-> | Hne].
    + intros H0. left. split; [done |]. revert H0. run_op.
      destruct (bool_decide _); simpl; [| congruence].
      unfold bufat in *. simpl.
      assert (Hlt : (b < length (bufs s))%nat).
      { destruct (decide (b < length (bufs s))%nat); [done |].
        rewrite list_lookup_total_alt, lookup_ge_None_2 in Hr by lia.
        discriminate. }
      bufs_simpl. simpl. rewrite Hr. simpl. bufs_simpl. done.
    + run_op. destruct (bool_decide _); simpl; [| congruence].
      unfold bufat in *. simpl.
      destruct (_ =? 0); simpl; rewrite !alter_other by done;
        intros H0; rewrite Hr in H0; discriminate.
  - run_op. unfold bufat in *. simpl. rewrite list_lookup_total_alter.
    case_decide as H; [destruct H as [-> _] |]; simpl; intros H0;
      rewrite Hr in H0; vm_compute in H0; discriminate.
  - destruct (decide (b0 = b)) as [-> | Hne].
    + intros _. right. split; [done |]. run_op. unfold bufat. simpl.
      by keep_field timestamp.
    + run_op. unfold bufat in *. simpl. rewrite alter_other by done.
      intros H0. rewrite Hr in H0. discriminate.
Qed.

Lemma bread_or_other (o : op) :
  (exists dv bn, o = OpBread dv bn) \/ (forall dv bn, o <> OpBread dv bn).
Proof. destruct o; [left; eauto | right; done ..]. Qed.

(** ** Lock discipline of bucket membership *)

Lemma no_membership_ok e : no_membership e -> membership_ok e.
Proof.
  destruct e as [a h]. unfold no_membership, membership_ok. simpl. by destruct a.
Qed.

Lemma moves_ok dv bn s x delta :
  no_move s x delta \/ one_move dv bn s x delta -> Forall membership_ok delta.
Proof.
  intros [[_ Hq] | (l & v & rest & _ & _ & -> & Hq)].
  - eapply list.Forall_impl; [exact Hq | apply no_membership_ok].
  - repeat constructor; simpl.
    + intros H. by apply list_elem_of_singleton in H.
    + eapply list.Forall_impl; [exact Hq | apply no_membership_ok].
Qed.

(** C2 (as it holds on the code): an operation called with no spin-lock
    held changes no chain, unless it is [bread], whose [bget] may move one
    buffer with [refcnt == 0]: it unlinks the buffer from its source
    bucket holding the lock of that bucket and not yet [bcache.lock], and
    splices it into the target bucket holding the lock of that bucket and
    [bcache.lock]. *)
Theorem membership_changes_under_bucket_lock (o : op) (s : kstate) :
  held s = [] ->
  exists delta,
    log (run o s) = log s ++ delta /\
    Forall membership_ok delta /\
    (no_move s (run o s) delta \/
     exists dv bn, o = OpBread dv bn /\ one_move dv bn s (run o s) delta).
Proof.
  intros Hh.
  destruct (bread_or_other o) as [(dv & bn & ->) | Ho].
  - destruct (bread_ends s dv bn Hh) as [_ He].
    destruct (end_log _ _ _ _ He) as (delta & Hd & Hmv).
    exists delta. split; [done |]. split; [by eapply moves_ok |].
    destruct Hmv as [Hmv | Hmv]; [by left | right; eauto].
  - destruct (other_ops_log o s Ho) as (delta & Hd & Hq).
    exists delta. split; [done |]. split; [| by left].
    apply (moves_ok 0 0 s (run o s)). by left.
Qed.

(** Counterexample to C2 as stated: [bread(1, 5)] after [binit] unlinks
    buffer 29 from bucket 0 holding the lock of bucket 0 only. *)
Lemma unlink_without_bcache_lock :
  ~ membership_claim (run (OpBread 1 5)) (after_binit 7 1).
Proof.
  intros Hc.
  specialize (Hc [(AUnlink 0 29, [BucketLock 0]);
                  (ASplice 5 29, [BucketLock 5; BcacheLock]);
                  (ARefcnt 29, [BucketLock 5; BcacheLock]);
                  (AAcquireSleep 29, [])] eq_refl).
  inversion Hc as [| e es He _]. destruct He as [_ Hb]. simpl in Hb.
  by apply list_elem_of_singleton in Hb.
Qed.

Lemma membership_witness :
  exists delta,
    log (run (OpBread 1 5) (after_binit 7 1)) = log (after_binit 7 1) ++ delta /\
    Forall membership_ok delta /\
    (no_move (after_binit 7 1) (run (OpBread 1 5) (after_binit 7 1)) delta \/
     exists dv bn,
       OpBread 1 5 = OpBread dv bn /\
       one_move dv bn (after_binit 7 1) (run (OpBread 1 5) (after_binit 7 1)) delta).
Proof.
  apply (membership_changes_under_bucket_lock (OpBread 1 5) (after_binit 7 1)).
  vm_compute. reflexivity.
Defined.

(** ** The timestamp at the last release *)

(** C4 (as it holds on the code): an operation takes the [refcnt] of a
    buffer [b] from 1 to 0 only if it is [brelse(b)], which sets the
    timestamp of [b] to the current tick, or [bunpin(b)], which leaves the
    timestamp as it was. *)
Theorem last_release_stamps_in_brelse_only (o : op) (s : kstate) (b : nat) :
  held s = [] ->
  refcnt (bufat s b) = 1 ->
  refcnt (bufat (run o s) b) = 0 ->
  (o = OpBrelse b /\ timestamp (bufat (run o s) b) = ticks s) \/
  (o = OpBunpin b /\ timestamp (bufat (run o s) b) = timestamp (bufat s b)).
Proof.
  intros Hh Hr H0.
  destruct (bread_or_other o) as [(dv & bn & ->) | Ho].
  - destruct (bread_ends s dv bn Hh) as [_ He].
    by destruct (end_refcnt _ _ _ _ b He Hr).
  - by apply other_ops_last_release.
Qed.

(** Counterexample to C4 as stated: with buffer 29 referenced once,
    [bunpin] at tick 9 takes its [refcnt] to 0 and leaves its timestamp
    at 7. *)
Lemma bunpin_last_release_keeps_stamp :
  ~ stamp_claim (run (OpBunpin 29)) pinned_once 29.
Proof.
  intros Hc. specialize (Hc eq_refl eq_refl). vm_compute in Hc. discriminate.
Qed.

Lemma last_release_witness :
  (OpBrelse 29 = OpBrelse 29 /\
   timestamp (bufat (run (OpBrelse 29) (at_tick 9 one_read)) 29) = ticks (at_tick 9 one_read)) \/
  (OpBrelse 29 = OpBunpin 29 /\
   timestamp (bufat (run (OpBrelse 29) (at_tick 9 one_read)) 29)
   = timestamp (bufat (at_tick 9 one_read) 29)).
Proof.
  apply (last_release_stamps_in_brelse_only (OpBrelse 29) (at_tick 9 one_read) 29).
  - vm_compute. reflexivity.
  - vm_compute. reflexivity.
  - vm_compute. reflexivity.
Defined.

(** ** The identity of a referenced buffer *)

(** C10: no operation changes the [dev] or [blockno], and so the hash
    bucket, of a buffer whose [refcnt] is at least 1. *)
Theorem referenced_identity_stable (o : op) (s : kstate) (b : nat) :
  held s = [] ->
  1 <= refcnt (bufat s b) ->
  dev (bufat (run o s) b) = dev (bufat s b) /\
  blockno (bufat (run o s) b) = blockno (bufat s b) /\
  hash (dev (bufat (run o s) b)) (blockno (bufat (run o s) b))
  = hash (dev (bufat s b)) (blockno (bufat s b)).
Proof.
  intros Hh Hr.
  assert (Hid : dev (bufat (run o s) b) = dev (bufat s b) /\
                blockno (bufat (run o s) b) = blockno (bufat s b)).
  { destruct (bread_or_other o) as [(dv & bn & ->) | Ho].
    - destruct (bread_ends s dv bn Hh) as [_ He].
      apply (end_identity _ _ _ _ b He). lia.
    - by apply other_ops_identity. }
  destruct Hid as [Hd Hb]. by rewrite Hd, Hb.
Qed.

Lemma referenced_identity_witness :
  dev (bufat (run (OpBread 1 31) some_released) 5) = dev (bufat some_released 5) /\
  blockno (bufat (run (OpBread 1 31) some_released) 5)
  = blockno (bufat some_released 5) /\
  hash (dev (bufat (run (OpBread 1 31) some_released) 5))
       (blockno (bufat (run (OpBread 1 31) some_released) 5))
  = hash (dev (bufat some_released 5)) (blockno (bufat some_released 5)).
Proof.
  apply (referenced_identity_stable (OpBread 1 31) some_released 5).
  - vm_compute. reflexivity.
  - vm_compute. discriminate.
Defined.

(** ** bget with every buffer referenced *)

Lemma bread_null_deref s dv bn s' :
  bget dv bn s = NullDeref s' -> bread dv bn s = NullDeref s'.
Proof. intros H. unfold bread, bind. by rewrite H. Qed.

(** C1 (the code departs from the claim): when the lookup misses and no
    linked buffer has [refcnt == 0], the scan leaves [prev_lru_b] null and
    [lru_b = prev_lru_b->next] dereferences it; [bget], and [bread] with
    it, end there and never reach [panic("bget: no buffers")]. *)
Theorem bget_all_pinned_null_deref (s : kstate) (dv bn : Z) :
  held s = [] ->
  lookup_chain (bufs s) dv bn (chain_of (chains s) (hash dv bn)) = None ->
  Forall (fun b => refcnt (bufat s b) <> 0) (scan_order s) ->
  bget dv bn s = NullDeref s /\ bread dv bn s = NullDeref s.
Proof.
  intros Hh Hm Hp.
  assert (Hg : bget dv bn s = NullDeref s).
  { destruct (prev_lru_b (fst (lru_scan (bufs s) (chains s)))) as [l |] eqn:Hl.
    - destruct (bget_on_candidate s dv bn l Hh Hm Hl) as (n & v & _ & Hn & Hr & _).
      rewrite list.Forall_forall in Hp. destruct (Hp v); [| done].
      by eapply list_elem_of_lookup_2.
    - by apply bget_on_no_candidate. }
  split; [done |]. by apply bread_null_deref.
Qed.

(** The failing input of C1: all 30 buffers held after [bread(1,1)], ...,
    [bread(1,30)], then [bread(1,31)]. *)
Lemma bget_all_pinned_witness :
  bget 1 31 (read_blocks 30 (after_binit 0 1))
    = NullDeref (read_blocks 30 (after_binit 0 1)) /\
  bread 1 31 (read_blocks 30 (after_binit 0 1))
    = NullDeref (read_blocks 30 (after_binit 0 1)).
Proof.
  apply (bget_all_pinned_null_deref (read_blocks 30 (after_binit 0 1)) 1 31).
  - vm_compute. reflexivity.
  - vm_compute. reflexivity.
  - apply (bool_decide_eq_true_1 _). vm_compute. reflexivity.
Defined.

(** ** Scenarios *)

(** Spec scenario S1: a block read, released and read again is found in
    the cache; the second [bread] returns the same buffer, still valid. *)
Example reread_hits_the_cache :
  exists b s1 s2 s3,
    bread 1 10 (after_binit 0 1) = Ret b s1 /\
    brelse b s1 = Ret tt s2 /\
    bget 1 10 s2 = Ret b s3 /\
    valid (bufat s3 b) = 1 /\ refcnt (bufat s3 b) = 1.
Proof.
  eexists _, _, _, _. split; [vm_compute; reflexivity |].
  split; [vm_compute; reflexivity |].
  split; [vm_compute; reflexivity |]. by split.
Qed.

End BioProofs.

(** * Lists of lists *)

Module Chains.

Lemma concat_alter_perm {A} (f : list A -> list A) (ls : list (list A)) i l :
  ls !! i = Some l ->
  concat ls ≡ₚ l ++ concat (delete i ls) /\
  concat (alter f i ls) ≡ₚ f l ++ concat (delete i ls).
Proof.
  revert i. induction ls as [| c ls IH]; intros [| i] H; try discriminate; simpl in *.
  - injection H as ->. done.
  - destruct (IH i H) as [H1 H2]. split.
    + rewrite H1. rewrite !app_assoc. f_equiv. apply Permutation_app_comm.
    + rewrite H2. rewrite !app_assoc. f_equiv. apply Permutation_app_comm.
Qed.

Lemma concat_cons_perm {A} (x : A) (ls : list (list A)) i :
  (i < length ls)%nat -> concat (alter (cons x) i ls) ≡ₚ x :: concat ls.
Proof.
  intros Hi. destruct (lookup_lt_is_Some_2 ls i Hi) as [l Hl].
  destruct (concat_alter_perm (cons x) ls i l Hl) as [H1 H2].
  rewrite H2, H1. done.
Qed.

Lemma concat_insert_tail_perm {A} (x : A) (l : list A) (ls : list (list A)) i :
  ls !! i = Some (x :: l) -> concat ls ≡ₚ x :: concat (<[i := l]> ls).
Proof.
  intros Hl.
  destruct (concat_alter_perm (fun _ => l) ls i _ Hl) as [H1 H2].
  assert (alter (fun _ => l) i ls = <[i := l]> ls) as <-.
  { apply list_eq. intros k. destruct (decide (k = i)) as [-> | Hk].
    - rewrite list_lookup_alter_eq, Hl. simpl.
      rewrite list_lookup_insert_eq; [done | by eapply lookup_lt_Some].
    - by rewrite list_lookup_alter_ne, list_lookup_insert_ne. }
  rewrite H1, H2. done.
Qed.

Lemma concat_move_perm {A} (v : A) (ls : list (list A)) (i j p : nat) l :
  ls !! i = Some l -> l !! p = Some v -> (j < length ls)%nat ->
  concat (alter (cons v) j (alter (delete p) i ls)) ≡ₚ concat ls.
Proof.
  intros Hl Hp Hj.
  rewrite concat_cons_perm by (by rewrite length_alter).
  destruct (concat_alter_perm (delete p) ls i l Hl) as [H1 H2].
  rewrite H2, H1. rewrite (delete_Permutation l p v Hp) at 2. done.
Qed.

Lemma NoDup_concat_lookup {A} (ls : list (list A)) i l :
  NoDup (concat ls) -> ls !! i = Some l -> NoDup l.
Proof.
  revert i. induction ls as [| c ls IH]; intros [| i] Hnd Hl; try discriminate;
    simpl in *; apply list.NoDup_app in Hnd as (Hc & _ & Hrest).
  - by injection Hl as <-.
  - by eapply IH.
Qed.

Lemma elem_of_delete_NoDup {A} (l : list A) p v b :
  NoDup l -> l !! p = Some v -> b ∈ delete p l <-> b ∈ l /\ b <> v.
Proof.
  intros Hnd Hp. pose proof (delete_Permutation l p v Hp) as Hperm.
  assert (Hiff : b ∈ l <-> b ∈ v :: delete p l).
  { split; intros H; eapply elem_of_Permutation_proper; try exact H; done. }
  assert (Hnd' : NoDup (v :: delete p l)).
  { eapply NoDup_Permutation_proper; [symmetry; exact Hperm | done]. }
  apply list.NoDup_cons in Hnd' as [Hv _].
  rewrite Hiff, elem_of_cons. split.
  - intros Hb. split; [by right |]. intros ->. done.
  - intros [[-> | Hb] Hne]; done.
Qed.

End Chains.

(** * The free lists of the page allocator as lists of frames *)

Module KallocPools.
Import Kalloc KallocProofs.

Lemma runs_ext m m' l :
  forall h, (forall a, a ∈ l -> m' a = m a) -> runs m h l -> runs m' h l.
Proof.
  induction l as [| a l IH]; intros h Hm; simpl; [done |].
  intros (-> & Hne & Hr). split; [done |]. split; [done |].
  rewrite Hm by (apply elem_of_cons; by left).
  apply IH; [| done]. intros b Hb. apply Hm. apply elem_of_cons. by right.
Qed.

Lemma runs_nil_iff m h l : runs m h l -> (h = 0 <-> l = []).
Proof.
  destruct l as [| a l]; simpl.
  - intros ->. done.
  - intros (-> & Hne & _). split; [done | discriminate].
Qed.

Lemma elem_of_concat_lookup {A} (ls : list (list A)) i l a :
  ls !! i = Some l -> a ∈ l -> a ∈ concat ls.
Proof.
  revert i. induction ls as [| c ls IH]; intros [| i] Hl Ha; try discriminate;
    simpl in *; apply elem_of_app.
  - injection Hl as ->. by left.
  - right. by eapply IH.
Qed.

Lemma aligned_apart a b :
  a mod PGSIZE = 0 -> b mod PGSIZE = 0 -> a <> b ->
  (b <=? a) && (a <? b + PGSIZE) = false.
Proof.
  unfold PGSIZE. intros Ha Hb Hne.
  apply Z.mod_divide in Ha as [qa ->]; [| lia].
  apply Z.mod_divide in Hb as [qb ->]; [| lia].
  apply andb_false_iff. rewrite Z.leb_gt, Z.ltb_ge. lia.
Qed.

Lemma pools_same_memory s s' ls :
  same_memory s s' -> pools s ls -> pools s' ls.
Proof.
  intros [Hf Hm] (Hlen & Hruns & Hnd & Hal).
  unfold pools, freelist_of. rewrite Hf, Hm. done.
Qed.

Lemma pools_exhausted n : pools (exhausted n) (replicate n []).
Proof.
  unfold pools. simpl. rewrite !length_replicate.
  assert (Hc : concat (replicate n (@nil Z)) = []) by (induction n; simpl; auto).
  rewrite Hc. split; [done |]. split; [| split].
  - intros i l Hl. apply lookup_replicate in Hl as [-> Hi]. simpl.
    unfold freelist_of. simpl. by rewrite lookup_total_replicate_2.
  - apply NoDup_nil_2.
  - intros a Ha. by apply elem_of_nil in Ha.
Qed.

Section Machine.

Variable NCPU : nat.
Variables kend PHYSTOP : Z.
Hypothesis kend_pos : 0 < kend.

Lemma kfree_runs s cpu_id pa :
  ~ bad_frame kend PHYSTOP pa ->
  exists s',
    kfree kend PHYSTOP cpu_id pa s = Done s' /\
    freelist s' = <[cpu_id := pa]> (freelist s) /\
    (forall x, mem s' x =
       if x =? pa then freelist_of s cpu_id
       else if (pa <=? x) && (x <? pa + PGSIZE) then fill 1 else mem s x).
Proof.
  intros Hok. unfold kfree.
  destruct (negb (pa mod PGSIZE =? 0) || (pa <? kend) || (pa >=? PHYSTOP)) eqn:E.
  - destruct Hok. by apply kfree_guard.
  - eexists. split; [reflexivity |]. split; reflexivity.
Qed.

Lemma kfree_pools s ls cpu_id pa :
  pools s ls -> (cpu_id < length ls)%nat ->
  ~ bad_frame kend PHYSTOP pa -> pa ∉ concat ls ->
  exists s',
    kfree kend PHYSTOP cpu_id pa s = Done s' /\
    pools s' (alter (cons pa) cpu_id ls).
Proof.
  intros (Hlen & Hruns & Hnd & Hal) Hc Hok Hfresh.
  destruct (kfree_runs s cpu_id pa Hok) as (s' & Hrun & Hfl & Hmem).
  exists s'. split; [done |].
  assert (Hpa : pa mod PGSIZE = 0 /\ pa <> 0).
  { unfold bad_frame in Hok. unfold PGSIZE. split; [| lia].
    destruct (decide (pa mod 4096 = 0)); [done | tauto]. }
  destruct Hpa as [Hpa Hpa0].
  assert (Hkeep : forall a, a ∈ concat ls -> mem s' a = mem s a).
  { intros a Ha. rewrite Hmem.
    assert (a <> pa) by (intros ->; done).
    destruct (a =? pa) eqn:E; [apply Z.eqb_eq in E; done |].
    rewrite aligned_apart; auto. }
  pose proof (Chains.concat_cons_perm pa ls cpu_id Hc) as Hperm.
  unfold pools. split; [| split; [| split]].
  - rewrite Hfl, length_insert, length_alter. done.
  - intros i l Hl. unfold freelist_of. rewrite Hfl.
    destruct (decide (i = cpu_id)) as [-> | Hi].
    + rewrite list_lookup_alter_eq in Hl.
      destruct (ls !! cpu_id) as [l0 |] eqn:El; [| discriminate].
      injection Hl as <-.
      rewrite list_lookup_total_insert_eq by lia. simpl.
      split; [done |]. split; [done |].
      rewrite Hmem, Z.eqb_refl.
      apply runs_ext with (m := mem s); [| by apply Hruns].
      intros a Ha. apply Hkeep. by eapply elem_of_concat_lookup.
    + rewrite list_lookup_alter_ne in Hl by done.
      rewrite list_lookup_total_insert_ne by done.
      apply runs_ext with (m := mem s); [| by apply Hruns].
      intros a Ha. apply Hkeep. by eapply elem_of_concat_lookup.
  - rewrite Hperm. by apply NoDup_cons_2.
  - intros a Ha. rewrite Hperm in Ha.
    apply elem_of_cons in Ha as [-> | Ha]; auto.
Qed.

Lemma kalloc_cases s cpu_id :
  match first_nonempty s (visit_order NCPU cpu_id) with
  | Some j => fst (kalloc NCPU cpu_id s) = freelist_of s j /\
              freelist_of s j <> 0 /\
              detached j s (snd (kalloc NCPU cpu_id s))
  | None => fst (kalloc NCPU cpu_id s) = 0 /\
            same_memory s (snd (kalloc NCPU cpu_id s))
  end.
Proof.
  unfold visit_order, kalloc. simpl.
  change (freelist_of (acquire cpu_id s) cpu_id) with (freelist_of s cpu_id).
  destruct (freelist_of s cpu_id =? 0) eqn:E; simpl.
  - pose proof (steal_seq NCPU cpu_id s NCPU 0%nat (release cpu_id (acquire cpu_id s))
                  ltac:(lia) ltac:(by split)) as Hs.
    destruct (first_nonempty s (filter (fun i => i <> cpu_id) (seq 0 NCPU)))
      as [j |] eqn:Ef.
    + destruct Hs as (s' & -> & Hd). simpl.
      apply first_nonempty_Some in Ef as [_ Hj]. done.
    + destruct Hs as [-> | (s' & -> & Hsame)]; simpl; [| done].
      split; [done |]. by split.
  - apply Z.eqb_neq in E. split; [done |]. split; [done |].
    split; [done |]. intros x. reflexivity.
Qed.

Lemma concat_all_nil {A} (ls : list (list A)) :
  (forall i l, ls !! i = Some l -> l = []) -> concat ls = [].
Proof.
  induction ls as [| c ls IH]; intros H; simpl; [done |].
  rewrite (H 0%nat c eq_refl). simpl. apply IH.
  intros i l Hl. by apply (H (S i)).
Qed.

Lemma kalloc_pools s ls cpu_id :
  (cpu_id < NCPU)%nat -> length ls = NCPU -> pools s ls ->
  (fst (kalloc NCPU cpu_id s) = 0 /\ concat ls = [] /\
   pools (snd (kalloc NCPU cpu_id s)) ls) \/
  (exists j l,
     ls !! j = Some (fst (kalloc NCPU cpu_id s) :: l) /\
     pools (snd (kalloc NCPU cpu_id s)) (<[j := l]> ls) /\
     fst (kalloc NCPU cpu_id s) <> 0 /\
     (fst (kalloc NCPU cpu_id s) ∉ concat (<[j := l]> ls)) /\
     (j <> cpu_id -> ls !! cpu_id = Some [])).
Proof.
  intros Hc Hn Hp. pose proof (kalloc_cases s cpu_id) as Hk.
  pose proof Hp as (Hlen & Hruns & Hnd & Hal).
  destruct (first_nonempty s (visit_order NCPU cpu_id)) as [j |] eqn:Ef.
  - right. destruct Hk as (Hr & Hne & Hfl & Hmem).
    set (s' := snd (kalloc NCPU cpu_id s)) in *.
    rewrite Hr. clear Hr.
    pose proof Ef as Ef'.
    apply first_nonempty_Some in Ef as [Hin _].
    apply elem_of_visit_order in Hin; [| done].
    destruct (lookup_lt_is_Some_2 ls j ltac:(lia)) as [lj Hlj].
    pose proof (Hruns j lj Hlj) as Hrj.
    destruct lj as [| a l]; simpl in Hrj; [done |].
    destruct Hrj as (Ha & Ha0 & Hrl). rewrite Ha in *.
    exists j, l. pose proof (Chains.concat_insert_tail_perm a l ls j Hlj) as Hperm.
    rewrite Hperm in Hnd. apply list.NoDup_cons in Hnd as [Hfresh Hnd'].
    assert (Hal' : forall b, b ∈ concat (<[j := l]> ls) -> b mod PGSIZE = 0).
    { intros b Hb. apply Hal. rewrite Hperm. apply elem_of_cons. by right. }
    assert (Hkeep : forall b, b ∈ concat (<[j := l]> ls) -> mem s' b = mem s b).
    { intros b Hb. rewrite Hmem.
      rewrite aligned_apart; auto.
      - apply Hal. rewrite Hperm. apply elem_of_cons. by left.
      - intros ->. done. }
    split; [done |]. split; [| split; [done | split; [done |]]].
    + unfold pools. split; [| split; [| split]]; try done.
      * rewrite Hfl, !length_insert. done.
      * intros i li Hli. unfold freelist_of. rewrite Hfl.
        apply runs_ext with (m := mem s).
        { intros b Hb. apply Hkeep. by eapply elem_of_concat_lookup. }
        destruct (decide (i = j)) as [-> | Hi].
        -- rewrite list_lookup_insert_eq in Hli by lia. injection Hli as <-.
           rewrite list_lookup_total_insert_eq by lia. done.
        -- rewrite list_lookup_insert_ne in Hli by done.
           rewrite list_lookup_total_insert_ne by done. by apply Hruns.
    + intros Hj. unfold visit_order in Ef'. simpl in Ef'.
      destruct (freelist_of s cpu_id =? 0) eqn:E.
      * apply Z.eqb_eq in E.
        destruct (lookup_lt_is_Some_2 ls cpu_id ltac:(lia)) as [lc Hlc].
        rewrite Hlc. f_equal.
        by apply (runs_nil_iff (mem s) (freelist_of s cpu_id)); [apply Hruns |].
      * congruence.
  - left. destruct Hk as [Hr Hsame]. split; [done |].
    split; [| by eapply pools_same_memory].
    apply concat_all_nil. intros i l Hl.
    apply (runs_nil_iff (mem s) (freelist_of s i)); [by apply Hruns |].
    eapply first_nonempty_None; [exact Ef |].
    apply elem_of_visit_order; [done |].
    rewrite <- Hn. by eapply lookup_lt_Some.
Qed.

Lemma elem_of_frames a n :
  forall p, a ∈ frames p n <->
            exists k, 0 <= k < Z.of_nat n /\ a = p + k * PGSIZE.
Proof.
  induction n as [| n IH]; intros p; simpl.
  - split; [intros H; by apply elem_of_nil in H | intros (k & ? & _); lia].
  - rewrite elem_of_cons, IH. split.
    + intros [-> | (k & Hk & ->)]; [exists 0; lia | exists (k + 1); lia].
    + intros (k & Hk & ->). destruct (decide (k = 0)) as [-> | Hk0]; [left; lia |].
      right. exists (k - 1). lia.
Qed.

Lemma PGROUNDUP_spec a :
  PGROUNDUP a mod PGSIZE = 0 /\ a <= PGROUNDUP a < a + PGSIZE.
Proof.
  unfold PGROUNDUP, PGSIZE. split.
  - apply Z.mod_mul. lia.
  - pose proof (Z.div_mod (a + 4096 - 1) 4096 ltac:(lia)).
    pose proof (Z.mod_pos_bound (a + 4096 - 1) 4096 ltac:(lia)). lia.
Qed.

(** The frames [freerange] frees are the whole pages between the rounded
    start and the end. *)
Lemma frames_range p pa_end a :
  p mod PGSIZE = 0 ->
  a ∈ frames p (Z.to_nat ((pa_end - p) / PGSIZE)) <->
  a mod PGSIZE = 0 /\ p <= a /\ a + PGSIZE <= pa_end.
Proof.
  unfold PGSIZE. intros Hp. rewrite elem_of_frames. unfold PGSIZE.
  apply Z.mod_divide in Hp as [qp ->]; [| lia].
  pose proof (Z.div_mod (pa_end - qp * 4096) 4096 ltac:(lia)) as Hd.
  pose proof (Z.mod_pos_bound (pa_end - qp * 4096) 4096 ltac:(lia)) as Hm.
  split.
  - intros (k & Hk & ->). split; [| lia].
    replace (qp * 4096 + k * 4096) with ((qp + k) * 4096) by lia.
    apply Z.mod_mul. lia.
  - intros (Ha & Hpa & Hae).
    apply Z.mod_divide in Ha as [qa ->]; [| lia].
    exists (qa - qp). split; [| lia].
    assert (qa - qp < (pa_end - qp * 4096) / 4096); [| lia].
    pose proof (Z.div_le_lower_bound (pa_end - qp * 4096) 4096 (qa - qp + 1)
                  ltac:(lia) ltac:(lia)).
    lia.
Qed.

Lemma freerange_loop_pools cpu_id pa_end n :
  forall p s ls,
    pools s ls -> (cpu_id < length ls)%nat ->
    p mod PGSIZE = 0 -> kend <= p -> pa_end <= PHYSTOP ->
    (n <> 0%nat -> p + Z.of_nat n * PGSIZE <= pa_end) ->
    (forall a, a ∈ frames p n -> a ∉ concat ls) ->
    exists s',
      freerange_loop kend PHYSTOP cpu_id n p pa_end s = Done s' /\
      pools s' (alter (fun l => rev (frames p n) ++ l) cpu_id ls).
Proof.
  induction n as [| n IH]; intros p s ls Hp Hc Hal Hlo Hhi Hfit Hfresh; simpl.
  - exists s. split; [done |].
    by rewrite list_alter_id.
  - specialize (Hfit ltac:(lia)). unfold PGSIZE in *.
    destruct (p + 4096 <=? pa_end) eqn:E; [| apply Z.leb_gt in E; lia].
    destruct (kfree_pools s ls cpu_id p Hp Hc) as (s1 & -> & Hp1).
    { unfold bad_frame. lia. }
    { apply Hfresh. apply elem_of_cons. by left. }
    destruct (IH (p + 4096) s1 (alter (cons p) cpu_id ls) Hp1) as (s' & -> & Hp').
    + by rewrite length_alter.
    + rewrite <- Z.add_mod_idemp_l, Hal by lia. reflexivity.
    + lia.
    + done.
    + lia.
    + intros a Ha. rewrite (Chains.concat_cons_perm p ls cpu_id Hc).
      intros Hin. apply elem_of_cons in Hin as [-> | Hin].
      * apply elem_of_frames in Ha as (k & Hk & Hk'). unfold PGSIZE in Hk'. lia.
      * revert Hin. apply Hfresh. apply elem_of_cons. by right.
    + exists s'. split; [done |].
      rewrite list_alter_alter_eq in Hp'.
      erewrite list_alter_ext; [exact Hp' | | done]. intros l _. simpl.
      by rewrite <- app_assoc.
Qed.

Lemma freerange_pools cpu_id pa_start pa_end s ls :
  pools s ls -> (cpu_id < length ls)%nat ->
  kend <= pa_start -> pa_end <= PHYSTOP ->
  (forall a, a ∈ concat ls -> a < pa_start \/ pa_end <= a) ->
  exists s' fs,
    freerange kend PHYSTOP cpu_id pa_start pa_end s = Done s' /\
    pools s' (alter (fun l => rev fs ++ l) cpu_id ls) /\
    fs = frames (PGROUNDUP pa_start) (length fs) /\
    (forall a, a ∈ fs <->
               a mod PGSIZE = 0 /\ pa_start <= a /\ a + PGSIZE <= pa_end).
Proof.
  intros Hp Hc Hlo Hhi Hout. unfold freerange.
  destruct (PGROUNDUP_spec pa_start) as [Hal Hup].
  set (p := PGROUNDUP pa_start) in *.
  set (n := Z.to_nat ((pa_end - p) / PGSIZE)).
  assert (Hrange : forall a, a ∈ frames p n <->
            a mod PGSIZE = 0 /\ pa_start <= a /\ a + PGSIZE <= pa_end).
  { intros a. unfold n. rewrite frames_range by done.
    split; intros (Ha & Hl & Hh); (split; [done |]); (split; [| done]).
    - lia.
    - unfold PGSIZE in *.
      apply Z.mod_divide in Ha as [qa ->]; [| lia].
      apply Z.mod_divide in Hal as [qp Hqp]; [| lia]. lia. }
  destruct (freerange_loop_pools cpu_id pa_end n p s ls) as (s' & Hrun & Hp');
    try done; try lia.
  - intros Hn. unfold n, PGSIZE in *.
    pose proof (Z.div_mod (pa_end - p) 4096 ltac:(lia)).
    pose proof (Z.mod_pos_bound (pa_end - p) 4096 ltac:(lia)).
    destruct (decide (0 <= pa_end - p)).
    + rewrite Z2Nat.id by (apply Z.div_pos; lia). lia.
    + rewrite Z2Nat.nonpos in Hn; [done |].
      assert ((pa_end - p) / 4096 < 0); [| lia].
      apply Z.div_lt_upper_bound; lia.
  - intros a Ha Hin. apply Hrange in Ha. apply Hout in Hin. unfold PGSIZE in *. lia.
  - exists s', (frames p n). split; [done |]. split; [done |]. split; [| done].
    f_equal. clear. generalize p. induction n as [| n IH]; intros q; simpl; [done |].
    by rewrite <- IH.
Qed.


Lemma kalloc_own s cpu_id :
  freelist_of s cpu_id <> 0 ->
  kalloc NCPU cpu_id s =
  (freelist_of s cpu_id,
   memset (freelist_of s cpu_id) 5 PGSIZE
     (release cpu_id
        (set_freelist cpu_id (mem s (freelist_of s cpu_id)) (acquire cpu_id s)))).
Proof.
  intros H. unfold kalloc.
  change (freelist_of (acquire cpu_id s) cpu_id) with (freelist_of s cpu_id).
  apply Z.eqb_neq in H. by rewrite H.
Qed.

(** X1: [kfree] of a valid frame that is not free already puts exactly
    that frame at the head of the calling CPU's free list: every list
    still is a null-terminated chain of distinct page-aligned frames, no
    frame is on two lists, and the other frames stay where they were. *)
Theorem kfree_pushes_the_frame (s : kstate) (ls : list (list Z)) (cpu_id : nat) (pa : Z) :
  pools s ls -> (cpu_id < length ls)%nat ->
  ~ bad_frame kend PHYSTOP pa -> pa ∉ concat ls ->
  exists s',
    kfree kend PHYSTOP cpu_id pa s = Done s' /\
    pools s' (alter (cons pa) cpu_id ls).
Proof. apply kfree_pools. Qed.

(** X2: [kalloc] returns null only when no frame is free on any CPU, and
    then changes no list; otherwise the frame it returns was the head of
    one free list, is taken off that list, is on no list afterwards, and
    comes from another CPU only when the caller's own list is empty. *)
Theorem kalloc_takes_one_free_frame (s : kstate) (ls : list (list Z)) (cpu_id : nat) :
  (cpu_id < NCPU)%nat -> length ls = NCPU -> pools s ls ->
  (fst (kalloc NCPU cpu_id s) = 0 /\ concat ls = [] /\
   pools (snd (kalloc NCPU cpu_id s)) ls) \/
  (exists j l,
     ls !! j = Some (fst (kalloc NCPU cpu_id s) :: l) /\
     pools (snd (kalloc NCPU cpu_id s)) (<[j := l]> ls) /\
     fst (kalloc NCPU cpu_id s) <> 0 /\
     (fst (kalloc NCPU cpu_id s) ∉ concat (<[j := l]> ls)) /\
     (j <> cpu_id -> ls !! cpu_id = Some [])).
Proof. apply kalloc_pools. Qed.


(** X4: [kalloc] right after [kfree(pa)] on the same CPU returns [pa]
    and puts every free-list head back to what it was before the
    [kfree]; memory outside the frame is as before. *)
Theorem kalloc_after_kfree_returns_the_frame (s : kstate) (cpu_id : nat) (pa : Z) :
  (cpu_id < length (freelist s))%nat -> ~ bad_frame kend PHYSTOP pa ->
  exists s1,
    kfree kend PHYSTOP cpu_id pa s = Done s1 /\
    fst (kalloc NCPU cpu_id s1) = pa /\
    freelist (snd (kalloc NCPU cpu_id s1)) = freelist s /\
    (forall x, ~ (pa <= x < pa + PGSIZE) ->
               mem (snd (kalloc NCPU cpu_id s1)) x = mem s x).
Proof.
  intros Hc Hok.
  destruct (kfree_runs s cpu_id pa Hok) as (s1 & Hrun & Hfl & Hmem).
  exists s1. split; [done |].
  assert (Hpa : pa <> 0) by (unfold bad_frame in Hok; lia).
  assert (Hhead : freelist_of s1 cpu_id = pa).
  { unfold freelist_of. rewrite Hfl. by rewrite list_lookup_total_insert_eq. }
  unfold kalloc.
  change (freelist_of (acquire cpu_id s1) cpu_id) with (freelist_of s1 cpu_id).
  rewrite Hhead. apply Z.eqb_neq in Hpa. rewrite Hpa. simpl.
  split; [done |]. split.
  - rewrite Hfl, Hmem, Z.eqb_refl, list_insert_insert_eq.
    apply list_insert_id. unfold freelist_of.
    by apply list_lookup_lookup_total_lt.
  - intros x Hx. rewrite Hmem.
    destruct ((pa <=? x) && (x <? pa + PGSIZE)) eqn:E.
    + apply andb_true_iff in E as [E1 E2].
      apply Z.leb_le in E1. apply Z.ltb_lt in E2. lia.
    + destruct (x =? pa) eqn:E'; [| done].
      apply Z.eqb_eq in E'. unfold PGSIZE in Hx. lia.
Qed.

(** X5: [kfree] does not notice a frame that is freed twice: after two
    [kfree(pa)] on one CPU the frame's [next] points at the frame itself,
    the next two [kalloc] on that CPU both return [pa], and the list head
    is then the junk word [kalloc] filled the frame with. *)
Theorem double_kfree_is_allocated_twice (s : kstate) (cpu_id : nat) (pa : Z) :
  (cpu_id < length (freelist s))%nat -> ~ bad_frame kend PHYSTOP pa ->
  exists s1 s2,
    kfree kend PHYSTOP cpu_id pa s = Done s1 /\
    kfree kend PHYSTOP cpu_id pa s1 = Done s2 /\
    mem s2 pa = pa /\
    fst (kalloc NCPU cpu_id s2) = pa /\
    fst (kalloc NCPU cpu_id (snd (kalloc NCPU cpu_id s2))) = pa /\
    freelist_of (snd (kalloc NCPU cpu_id (snd (kalloc NCPU cpu_id s2)))) cpu_id
    = fill 5.
Proof.
  intros Hc Hok.
  destruct (kfree_runs s cpu_id pa Hok) as (s1 & Hrun1 & Hfl1 & Hmem1).
  destruct (kfree_runs s1 cpu_id pa Hok) as (s2 & Hrun2 & Hfl2 & Hmem2).
  exists s1, s2. split; [done |]. split; [done |].
  assert (Hpa : pa <> 0) by (unfold bad_frame in Hok; lia).
  assert (Hc1 : (cpu_id < length (freelist s1))%nat)
    by (by rewrite Hfl1, length_insert).
  assert (Hhead1 : freelist_of s1 cpu_id = pa).
  { unfold freelist_of. rewrite Hfl1. by rewrite list_lookup_total_insert_eq. }
  assert (Hhead2 : freelist_of s2 cpu_id = pa).
  { unfold freelist_of. rewrite Hfl2. by rewrite list_lookup_total_insert_eq. }
  assert (Hnext : mem s2 pa = pa) by (by rewrite Hmem2, Z.eqb_refl).
  split; [done |].
  assert (Hin : (pa <=? pa) && (pa <? pa + PGSIZE) = true).
  { apply andb_true_iff. rewrite Z.leb_le, Z.ltb_lt. unfold PGSIZE. lia. }
  rewrite (kalloc_own s2 cpu_id) by congruence. rewrite Hhead2, Hnext. simpl.
  split; [done |].
  set (s3 := memset pa 5 PGSIZE (release cpu_id (set_freelist cpu_id pa (acquire cpu_id s2)))).
  assert (Hhead3 : freelist_of s3 cpu_id = pa).
  { unfold freelist_of. simpl. rewrite list_lookup_total_insert_eq; [done |].
    by rewrite Hfl2, length_insert. }
  rewrite (kalloc_own s3 cpu_id) by congruence. rewrite Hhead3. simpl.
  split; [done |].
  unfold freelist_of. simpl. rewrite Hin.
  rewrite list_lookup_total_insert_eq; [done |].
  by rewrite length_insert, Hfl2, length_insert.
Qed.

(** X6: [kinit] never panics and puts every whole page-aligned frame
    between [end] and [PHYSTOP] on the boot CPU's free list, in ascending
    order of freeing, so the highest frame is the head; the free lists
    of the other CPUs stay empty. *)
Theorem kinit_frees_every_frame (s : kstate) (cpu_id : nat) :
  NCPU <> 0%nat -> (cpu_id < length (freelist s))%nat ->
  pools s (replicate (length (freelist s)) []) ->
  exists s' fs,
    kinit NCPU kend PHYSTOP cpu_id s = Done s' /\
    pools s' (<[cpu_id := rev fs]> (replicate (length (freelist s)) [])) /\
    fs = frames (PGROUNDUP kend) (length fs) /\
    (forall a, a ∈ fs <->
               a mod PGSIZE = 0 /\ kend <= a /\ a + PGSIZE <= PHYSTOP).
Proof.
  intros Hn Hc Hp. unfold kinit. destruct NCPU as [| n]; [done |].
  destruct (freerange_pools cpu_id kend PHYSTOP s _ Hp) as (s' & fs & Hrun & Hp' & Hfs);
    try lia.
  - by rewrite length_replicate.
  - intros a Ha. exfalso. revert Ha.
    replace (concat (replicate (length (freelist s)) (@nil Z))) with (@nil Z).
    + apply not_elem_of_nil.
    + generalize (length (freelist s)). intros k. induction k; simpl; auto.
  - exists s', fs. split; [done |]. split; [| done].
    replace (<[cpu_id := rev fs]> (replicate (length (freelist s)) []))
      with (alter (fun l => rev fs ++ l) cpu_id (replicate (length (freelist s)) []));
      [done |].
    apply list_eq. intros i. destruct (decide (i = cpu_id)) as [-> | Hi].
    + rewrite list_lookup_alter_eq, list_lookup_insert_eq
        by (by rewrite length_replicate).
      rewrite lookup_replicate_2 by done. simpl. by rewrite app_nil_r.
    + by rewrite list_lookup_alter_ne, list_lookup_insert_ne.
Qed.

(** X7: [freerange(pa_start, pa_end)] on a range inside [[end, PHYSTOP]]
    whose frames are not free already never panics and frees exactly the
    whole page-aligned frames of the range, lowest first, so that they
    stand on the calling CPU's list in descending order before the frames
    that were there. *)
Theorem freerange_frees_whole_pages
  (s : kstate) (ls : list (list Z)) (cpu_id : nat) (pa_start pa_end : Z) :
  pools s ls -> (cpu_id < length ls)%nat ->
  kend <= pa_start -> pa_end <= PHYSTOP ->
  (forall a, a ∈ concat ls -> a < pa_start \/ pa_end <= a) ->
  exists s' fs,
    freerange kend PHYSTOP cpu_id pa_start pa_end s = Done s' /\
    pools s' (alter (fun l => rev fs ++ l) cpu_id ls) /\
    fs = frames (PGROUNDUP pa_start) (length fs) /\
    (forall a, a ∈ fs <->
               a mod PGSIZE = 0 /\ pa_start <= a /\ a + PGSIZE <= pa_end).
Proof. apply freerange_pools. Qed.


Lemma concat_nil_lookup {A} (ls : list (list A)) j x :
  concat ls = [] -> ls !! j = Some x -> x = [].
Proof.
  intros Hc Hj. destruct x as [| a x]; [done |].
  assert (Ha : a ∈ concat ls) by (eapply elem_of_concat_lookup; [exact Hj | by left]).
  rewrite Hc in Ha. by apply elem_of_nil in Ha.
Qed.

Lemma concat_nil_replicate {A} (ls : list (list A)) :
  concat ls = [] -> ls = replicate (length ls) [].
Proof.
  intros Hc. apply list_eq. intros i.
  destruct (ls !! i) as [x |] eqn:E.
  - rewrite (concat_nil_lookup ls i x Hc E).
    symmetry. apply lookup_replicate_2. by eapply lookup_lt_Some.
  - symmetry. apply lookup_ge_None_2. rewrite length_replicate.
    by apply lookup_ge_None_1.
Qed.

(** X9: a frame freed on one CPU while every free list is empty is what
    the next [kalloc] returns, on the same CPU or by stealing on any other,
    and every list is empty again afterwards. *)
Theorem freed_frame_is_stolen (s : kstate) (ls : list (list Z)) (c1 c2 : nat) (pa : Z) :
  pools s ls -> length ls = NCPU -> concat ls = [] ->
  (c1 < NCPU)%nat -> (c2 < NCPU)%nat -> ~ bad_frame kend PHYSTOP pa ->
  exists s1,
    kfree kend PHYSTOP c1 pa s = Done s1 /\
    fst (kalloc NCPU c2 s1) = pa /\
    pools (snd (kalloc NCPU c2 s1)) ls.
Proof.
  intros Hp Hn Hc H1 H2 Hok.
  destruct (kfree_pools s ls c1 pa Hp) as (s1 & Hrun & Hp1); try done; try lia.
  { rewrite Hc. apply not_elem_of_nil. }
  exists s1. split; [done |].
  assert (Hc1 : ls !! c1 = Some []).
  { destruct (lookup_lt_is_Some_2 ls c1 ltac:(lia)) as [x Hx].
    by rewrite Hx, (concat_nil_lookup ls c1 x Hc Hx). }
  destruct (kalloc_pools s1 (alter (cons pa) c1 ls) c2 H2) as
    [(_ & Hnil & _) | (j & l & Hj & Hp2 & _)]; [by rewrite length_alter | done | |].
  - exfalso.
    assert (Hin : pa ∈ concat (alter (cons pa) c1 ls)).
    { rewrite Chains.concat_cons_perm by lia. by left. }
    rewrite Hnil in Hin. by apply elem_of_nil in Hin.
  - destruct (decide (j = c1)) as [-> | Hne].
    + rewrite list_lookup_alter_eq, Hc1 in Hj. simpl in Hj.
      injection Hj as Hr <-. split; [done |].
      assert (Heq : <[c1 := []]> (alter (cons pa) c1 ls) = ls).
      { apply list_eq. intros i. destruct (decide (i = c1)) as [-> | Hi].
        - rewrite list_lookup_insert_eq by (rewrite length_alter; lia). done.
        - by rewrite list_lookup_insert_ne, list_lookup_alter_ne. }
      by rewrite Heq in Hp2.
    + rewrite list_lookup_alter_ne in Hj by done.
      by apply (concat_nil_lookup ls j _ Hc) in Hj.
Qed.

(** X10: as many calls of [kalloc] as there are free frames, on any one
    CPU, return exactly the free frames, each once, and leave every list
    empty; the call after them returns null. *)
Theorem kalloc_hands_out_every_free_frame (cpu_id : nat) (n : nat) :
  forall (s : kstate) (ls : list (list Z)),
    pools s ls -> length ls = NCPU -> (cpu_id < NCPU)%nat ->
    length (concat ls) = n ->
    fst (kallocs NCPU cpu_id n s) ≡ₚ concat ls /\
    pools (snd (kallocs NCPU cpu_id n s)) (replicate NCPU []) /\
    fst (kalloc NCPU cpu_id (snd (kallocs NCPU cpu_id n s))) = 0.
Proof.
  induction n as [| n IH]; intros s ls Hp Hn Hc Hlen.
  - apply nil_length_inv in Hlen. simpl. rewrite Hlen. split; [done |].
    split.
    + rewrite <- Hn. by rewrite <- concat_nil_replicate.
    + destruct (kalloc_pools s ls cpu_id Hc Hn Hp) as [(H0 & _) | (j & l & Hj & _)];
        [done |].
      by apply (concat_nil_lookup ls j _ Hlen) in Hj.
  - destruct (kalloc_pools s ls cpu_id Hc Hn Hp) as
      [(_ & Hnil & _) | (j & l & Hj & Hp1 & _)].
    + rewrite Hnil in Hlen. discriminate.
    + pose proof (Chains.concat_insert_tail_perm _ l ls j Hj) as Hperm.
      destruct (IH (snd (kalloc NCPU cpu_id s)) (<[j := l]> ls) Hp1) as (Hrs & Hp' & H0).
      * by rewrite length_insert.
      * done.
      * rewrite Hperm in Hlen. simpl in Hlen. lia.
      * cbn [kallocs fst snd]. split; [| done].
        rewrite Hperm. by f_equiv.
Qed.

End Machine.

(** ** The theorems at work on the memory layout of xv6 for qemu *)

Lemma pools_freed_on cpu_id pa s ls :
  pools s ls -> (cpu_id < length ls)%nat ->
  ~ bad_frame 2147618816 2281701376 pa -> pa ∉ concat ls ->
  pools (freed_on cpu_id pa s) (alter (cons pa) cpu_id ls).
Proof.
  intros Hp Hc Hok Hfresh. unfold freed_on.
  destruct (kfree_pools 2147618816 2281701376 ltac:(lia) s ls cpu_id pa)
    as (s' & -> & Hp'); done.
Qed.

Lemma last_frame_ok : ~ bad_frame 2147618816 2281701376 2281697280.
Proof.
  unfold bad_frame. intros [H | [H | H]]; [apply H; reflexivity | lia | lia].
Qed.

Lemma pools_one_freed :
  pools (freed_on 1 2281697280 (exhausted 2)) [[]; [2281697280]].
Proof.
  apply (pools_freed_on 1 2281697280 (exhausted 2) (replicate 2 [])).
  - apply pools_exhausted.
  - simpl. lia.
  - apply last_frame_ok.
  - simpl. apply not_elem_of_nil.
Qed.

Lemma kfree_pushes_witness :
  exists s',
    kfree 2147618816 2281701376 1 2281697280 (exhausted 2) = Done s' /\
    pools s' (alter (cons 2281697280) 1%nat (replicate 2 [])).
Proof.
  apply (kfree_pushes_the_frame 2147618816 2281701376 ltac:(lia)
           (exhausted 2) (replicate 2 []) 1 2281697280).
  - apply pools_exhausted.
  - simpl. lia.
  - apply last_frame_ok.
  - simpl. apply not_elem_of_nil.
Defined.

Lemma kalloc_takes_witness :
  (fst (kalloc 2 0 (freed_on 1 2281697280 (exhausted 2))) = 0 /\
   concat [[]; [2281697280]] = [] /\
   pools (snd (kalloc 2 0 (freed_on 1 2281697280 (exhausted 2))))
         [[]; [2281697280]]) \/
  (exists j l,
     [[]; [2281697280]] !! j
     = Some (fst (kalloc 2 0 (freed_on 1 2281697280 (exhausted 2))) :: l) /\
     pools (snd (kalloc 2 0 (freed_on 1 2281697280 (exhausted 2))))
           (<[j := l]> [[]; [2281697280]]) /\
     fst (kalloc 2 0 (freed_on 1 2281697280 (exhausted 2))) <> 0 /\
     (fst (kalloc 2 0 (freed_on 1 2281697280 (exhausted 2)))
        ∉ concat (<[j := l]> [[]; [2281697280]])) /\
     (j <> 0%nat -> [[]; [2281697280]] !! 0%nat = Some [])).
Proof.
  apply (kalloc_takes_one_free_frame 2 (freed_on 1 2281697280 (exhausted 2))
           [[]; [2281697280]] 0).
  - lia.
  - reflexivity.
  - apply pools_one_freed.
Defined.


Lemma kalloc_after_kfree_witness :
  exists s1,
    kfree 2147618816 2281701376 1 2281697280 (exhausted 2) = Done s1 /\
    fst (kalloc 2 1 s1) = 2281697280 /\
    freelist (snd (kalloc 2 1 s1)) = freelist (exhausted 2) /\
    (forall x, ~ (2281697280 <= x < 2281697280 + PGSIZE) ->
               mem (snd (kalloc 2 1 s1)) x = mem (exhausted 2) x).
Proof.
  apply (kalloc_after_kfree_returns_the_frame 2 2147618816 2281701376 ltac:(lia)
           (exhausted 2) 1 2281697280).
  - simpl. lia.
  - apply last_frame_ok.
Defined.

Lemma double_kfree_witness :
  exists s1 s2,
    kfree 2147618816 2281701376 1 2281697280 (exhausted 2) = Done s1 /\
    kfree 2147618816 2281701376 1 2281697280 s1 = Done s2 /\
    mem s2 2281697280 = 2281697280 /\
    fst (kalloc 2 1 s2) = 2281697280 /\
    fst (kalloc 2 1 (snd (kalloc 2 1 s2))) = 2281697280 /\
    freelist_of (snd (kalloc 2 1 (snd (kalloc 2 1 s2)))) 1 = fill 5.
Proof.
  apply (double_kfree_is_allocated_twice 2 2147618816 2281701376 ltac:(lia)
           (exhausted 2) 1 2281697280).
  - simpl. lia.
  - apply last_frame_ok.
Defined.

Lemma kinit_witness :
  exists s' fs,
    kinit 2 8292 20480 0 (exhausted 2) = Done s' /\
    pools s' (<[0%nat := rev fs]> (replicate (length (freelist (exhausted 2))) [])) /\
    fs = frames (PGROUNDUP 8292) (length fs) /\
    (forall a, a ∈ fs <->
               a mod PGSIZE = 0 /\ 8292 <= a /\ a + PGSIZE <= 20480).
Proof.
  apply (kinit_frees_every_frame 2 8292 20480 ltac:(lia) (exhausted 2) 0).
  - lia.
  - simpl. lia.
  - apply pools_exhausted.
Defined.


Lemma freerange_witness :
  exists s' fs,
    freerange 8292 20480 0 8292 20480 (exhausted 2) = Done s' /\
    pools s' (alter (fun l => rev fs ++ l) 0%nat (replicate 2 [])) /\
    fs = frames (PGROUNDUP 8292) (length fs) /\
    (forall a, a ∈ fs <->
               a mod PGSIZE = 0 /\ 8292 <= a /\ a + PGSIZE <= 20480).
Proof.
  apply (freerange_frees_whole_pages 8292 20480 ltac:(lia)
           (exhausted 2) (replicate 2 []) 0 8292 20480).
  - apply pools_exhausted.
  - simpl. lia.
  - lia.
  - lia.
  - simpl. intros a Ha. by apply elem_of_nil in Ha.
Defined.

Lemma stolen_witness :
  exists s1,
    kfree 2147618816 2281701376 1 2281697280 (exhausted 2) = Done s1 /\
    fst (kalloc 2 0 s1) = 2281697280 /\
    pools (snd (kalloc 2 0 s1)) (replicate 2 []).
Proof.
  apply (freed_frame_is_stolen 2 2147618816 2281701376 ltac:(lia)
           (exhausted 2) (replicate 2 []) 1 0 2281697280).
  - apply pools_exhausted.
  - reflexivity.
  - reflexivity.
  - lia.
  - lia.
  - apply last_frame_ok.
Defined.

Lemma hands_out_witness :
  fst (kallocs 2 0 1 (freed_on 1 2281697280 (exhausted 2)))
    ≡ₚ concat [[]; [2281697280]] /\
  pools (snd (kallocs 2 0 1 (freed_on 1 2281697280 (exhausted 2)))) (replicate 2 []) /\
  fst (kalloc 2 0 (snd (kallocs 2 0 1 (freed_on 1 2281697280 (exhausted 2))))) = 0.
Proof.
  apply (kalloc_hands_out_every_free_frame 2 0 1
           (freed_on 1 2281697280 (exhausted 2)) [[]; [2281697280]]).
  - apply pools_one_freed.
  - reflexivity.
  - lia.
  - reflexivity.
Defined.

End KallocPools.

(** * Invariants of the buffer cache *)

Module BioInvariants.
Import Bio BioProofs.

Lemma forallb_elem_of {A} (f : A -> bool) (l : list A) :
  forallb f l = true <-> forall x, x ∈ l -> f x = true.
Proof.
  rewrite forallb_forall. split; intros H x Hx; apply H; by apply list_elem_of_In.
Qed.

Lemma wf_intro s :
  (forall b, b ∈ scan_order s -> (b < length (bufs s))%nat) ->
  (forall i b, 0 <= i < NBUK -> b ∈ chain_of (chains s) i ->
     hash (dev (bufat s b)) (blockno (bufat s b)) = i) ->
  (forall b, is_uint (timestamp (bufat s b))) ->
  (forall b, refcnt (bufat s b) = 0 -> lock (bufat s b) = None) ->
  (forall b, (b < length (bufs s))%nat -> b ∈ scan_order s) ->
  wf s.
Proof.
  intros Hl Hp Ht Hi Hc. unfold wf, wfb. rewrite !andb_true_iff.
  split; [split; [split; [split |] |] |].
  - unfold linkedb. apply forallb_elem_of. intros b Hb. apply Nat.ltb_lt. auto.
  - unfold placedb. apply forallb_elem_of. intros i Hin.
    apply elem_of_seqZ in Hin. apply forallb_elem_of. intros b Hb.
    apply Z.eqb_eq. apply Hp; [lia | done].
  - unfold stampedb. apply forallb_elem_of. intros x Hx.
    apply list_elem_of_lookup_1 in Hx as [i Hx]. specialize (Ht i).
    unfold bufat in Ht. rewrite (list_lookup_total_correct _ _ _ Hx) in Ht.
    destruct Ht as [H1 H2]. apply andb_true_iff. by rewrite !Z.leb_le.
  - unfold idle_unlockedb. apply forallb_elem_of. intros x Hx.
    apply list_elem_of_lookup_1 in Hx as [i Hx]. specialize (Hi i).
    unfold bufat in Hi. rewrite (list_lookup_total_correct _ _ _ Hx) in Hi.
    destruct (refcnt x =? 0) eqn:E; simpl; [| done].
    apply Z.eqb_eq in E. apply bool_decide_eq_true. auto.
  - unfold coveredb. apply forallb_elem_of. intros b Hb.
    apply elem_of_seq in Hb. apply bool_decide_eq_true. apply Hc. lia.
Qed.

Lemma lookup_chain_ext bs bs' dv bn c :
  (forall b, b ∈ c -> dev (bs' !!! b) = dev (bs !!! b) /\
                      blockno (bs' !!! b) = blockno (bs !!! b)) ->
  lookup_chain bs' dv bn c = lookup_chain bs dv bn c.
Proof.
  induction c as [| b c IH]; intros H; simpl; [done |].
  destruct (H b) as [-> ->]; [by left |].
  rewrite IH; [done |]. intros b' Hb'. apply H. by right.
Qed.

Lemma lookup_chain_Some bs dv bn c b :
  lookup_chain bs dv bn c = Some b ->
  b ∈ c /\ dev (bs !!! b) = dv /\ blockno (bs !!! b) = bn.
Proof.
  induction c as [| a c IH]; simpl; [discriminate |].
  destruct ((dev (bs !!! a) =? dv) && (blockno (bs !!! a) =? bn)) eqn:E.
  - intros [= <-]. apply andb_true_iff in E as [E1 E2].
    apply Z.eqb_eq in E1. apply Z.eqb_eq in E2. split; [by left | done].
  - intros H. destruct (IH H) as (? & ? & ?). split; [by right | done].
Qed.

Lemma hash_range dv bn : 0 <= hash dv bn < NBUK.
Proof. unfold hash, NBUK. apply Z.mod_pos_bound. lia. Qed.

Lemma scan_order_chains s s' : chains s' = chains s -> scan_order s' = scan_order s.
Proof. unfold scan_order. by intros ->. Qed.

(** A change of buffer fields that keeps chains and identities keeps the
    invariant, if it keeps the conditions on the fields and gives a
    reference only to a buffer that a lookup finds. *)
Lemma ok_update s s' :
  cache_ok s ->
  chains s' = chains s -> length (bufs s') = length (bufs s) -> ticks s' = ticks s ->
  (forall b, dev (bufat s' b) = dev (bufat s b) /\
             blockno (bufat s' b) = blockno (bufat s b)) ->
  (forall b, is_uint (timestamp (bufat s' b))) ->
  (forall b, 0 <= refcnt (bufat s' b)) ->
  (forall b, refcnt (bufat s' b) = 0 -> lock (bufat s' b) = None) ->
  (forall b, b ∈ scan_order s -> refcnt (bufat s' b) <> 0 ->
             refcnt (bufat s b) <> 0 \/ first_match s b) ->
  cache_ok s'.
Proof.
  intros [Hwf Hn Hnd Htk Hr Hf] Hcs Hlen Hticks Hid Hts Hr' Hi' Hf'.
  pose proof (scan_order_chains s s' Hcs) as Hso.
  split.
  - apply wf_intro; try done.
    + intros b Hb. rewrite Hso in Hb. rewrite Hlen. by apply wf_linked.
    + intros i b Hi Hb. rewrite Hcs in Hb. destruct (Hid b) as [-> ->].
      by apply wf_placed.
    + intros b Hb. rewrite Hso. rewrite Hlen in Hb. by apply wf_covered.
  - by rewrite Hcs.
  - by rewrite Hso.
  - by rewrite Hticks.
  - done.
  - intros b Hb Hne. rewrite Hso in Hb. unfold first_match.
    destruct (Hid b) as [-> ->]. rewrite Hcs.
    rewrite (lookup_chain_ext (bufs s)); [| intros b' _; apply Hid].
    destruct (Hf' b Hb Hne) as [H | H]; [by apply Hf | done].
Qed.

Lemma ok_alter s s' f b :
  cache_ok s ->
  chains s' = chains s -> ticks s' = ticks s -> bufs s' = alter f b (bufs s) ->
  ((b < length (bufs s))%nat ->
   dev (f (bufat s b)) = dev (bufat s b) /\
   blockno (f (bufat s b)) = blockno (bufat s b) /\
   is_uint (timestamp (f (bufat s b))) /\
   0 <= refcnt (f (bufat s b)) /\
   (refcnt (f (bufat s b)) = 0 -> lock (f (bufat s b)) = None) /\
   (refcnt (f (bufat s b)) <> 0 -> refcnt (bufat s b) <> 0 \/ first_match s b)) ->
  cache_ok s'.
Proof.
  intros Hok Hcs Htk Hbs Hf.
  assert (Hat : forall b',
    bufat s' b' = bufat s b' \/
    (b' = b /\ (b < length (bufs s))%nat /\ bufat s' b' = f (bufat s b))).
  { intros b'. unfold bufat. rewrite Hbs.
    destruct (decide (b' = b)) as [-> | Hne].
    - destruct (decide (b < length (bufs s))%nat) as [Hlt | Hge].
      + right. by rewrite alter_at.
      + left. rewrite !list_lookup_total_alt, list_lookup_alter_eq.
        by rewrite lookup_ge_None_2 by lia.
    - left. by rewrite alter_other. }
  pose proof Hok as [Hwf Hn Hnd Hticks Hr Hfirst].
  apply (ok_update s s' Hok); try done.
  - by rewrite Hbs, length_alter.
  - intros b'. destruct (Hat b') as [-> | (-> & Hlt & ->)]; [done |].
    destruct (Hf Hlt) as (? & ? & _). done.
  - intros b'. destruct (Hat b') as [-> | (-> & Hlt & ->)].
    + by apply wf_stamps.
    + by destruct (Hf Hlt) as (_ & _ & ? & _).
  - intros b'. destruct (Hat b') as [-> | (-> & Hlt & ->)]; [done |].
    by destruct (Hf Hlt) as (_ & _ & _ & ? & _).
  - intros b'. destruct (Hat b') as [-> | (-> & Hlt & ->)].
    + by apply wf_idle_unlocked.
    + by destruct (Hf Hlt) as (_ & _ & _ & _ & ? & _).
  - intros b' Hb'. destruct (Hat b') as [-> | (-> & Hlt & ->)]; [by left |].
    by destruct (Hf Hlt) as (_ & _ & _ & _ & _ & ?).
Qed.

(** ** The operations that keep the chains *)

Lemma bpin_fields s b :
  bpin b s = Ret tt (final (bpin b s)) /\
  bufs (final (bpin b s)) = alter incr b (bufs s) /\
  chains (final (bpin b s)) = chains s /\
  ticks (final (bpin b s)) = ticks s /\
  curproc (final (bpin b s)) = curproc s /\
  disk (final (bpin b s)) = disk s /\
  held (final (bpin b s))
  = filter (fun l => l <> BucketLock (hash (dev (bufat s b)) (blockno (bufat s b))))
      (BucketLock (hash (dev (bufat s b)) (blockno (bufat s b))) :: held s).
Proof. destruct s. by repeat split. Qed.

Lemma bunpin_fields s b :
  bunpin b s = Ret tt (final (bunpin b s)) /\
  bufs (final (bunpin b s)) = alter decr b (bufs s) /\
  chains (final (bunpin b s)) = chains s /\
  ticks (final (bunpin b s)) = ticks s /\
  curproc (final (bunpin b s)) = curproc s /\
  disk (final (bunpin b s)) = disk s /\
  held (final (bunpin b s))
  = filter (fun l => l <> BucketLock (hash (dev (bufat s b)) (blockno (bufat s b))))
      (BucketLock (hash (dev (bufat s b)) (blockno (bufat s b))) :: held s).
Proof. destruct s. by repeat split. Qed.

Lemma bwrite_fields s b :
  bufs (final (bwrite b s)) = bufs s /\
  chains (final (bwrite b s)) = chains s /\
  ticks (final (bwrite b s)) = ticks s /\
  curproc (final (bwrite b s)) = curproc s /\
  held (final (bwrite b s)) = held s /\
  log (final (bwrite b s)) = log s.
Proof.
  destruct s as [bs cs h tk pid dk lg]. unfold bwrite, holdingsleep, virtio_disk_rw.
  rewrite bind_bind, bind_get, bind_ret. fields.
  destruct (bool_decide _); simpl; by repeat split.
Qed.

Lemma brelse_not_holding s b :
  ~ holds s b -> brelse b s = Panic "brelse" s.
Proof.
  intros H. unfold brelse, holdingsleep.
  rewrite bind_bind, bind_get, bind_ret.
  by rewrite bool_decide_eq_false_2.
Qed.

Lemma brelse_run bs cs h tk pid dk lg b :
  lock (bs !!! b) = Some pid ->
  exists lg',
    brelse b (mkstate bs cs h tk pid dk lg)
    = Ret tt (mkstate (alter (released tk) b bs) cs
                (filter (fun l => l <> BucketLock (hash (dev (bs !!! b)) (blockno (bs !!! b))))
                   (BucketLock (hash (dev (bs !!! b)) (blockno (bs !!! b))) :: h))
                tk pid dk lg').
Proof.
  intros H.
  assert (Hlt : (b < length bs)%nat).
  { destruct (decide (b < length bs)%nat); [done |].
    rewrite list_lookup_total_alt, lookup_ge_None_2 in H by lia. done. }
  unfold brelse, holdingsleep, releasesleep, refcnt_decr.
  rewrite bind_bind, bind_get, bind_ret. unfold bufat. fields.
  rewrite bool_decide_eq_true_2 by done. change (negb true) with false. cbv iota.
  kstep. unfold bufat. fields.
  rewrite !alter_at by (by rewrite ?length_alter).
  cbn [dev blockno refcnt set_lock set_refcnt].
  destruct (int_wrap (refcnt (bs !!! b) - 1) =? 0) eqn:E.
  - kstep. eexists. unfold release, modify, set_held. fields. f_equal. f_equal.
    rewrite !list_alter_alter_eq.
    apply list_alter_ext; [| done]. intros x Hx.
    apply list_lookup_total_correct in Hx. subst x.
    unfold released, decr. cbn [refcnt set_lock set_refcnt]. by rewrite E.
  - kstep. eexists. unfold release, modify, set_held. fields. f_equal. f_equal.
    rewrite !list_alter_alter_eq.
    apply list_alter_ext; [| done]. intros x Hx.
    apply list_lookup_total_correct in Hx. subst x.
    unfold released, decr. cbn [refcnt set_lock set_refcnt]. by rewrite E.
Qed.

Lemma brelse_fields s b :
  holds s b ->
  brelse b s = Ret tt (final (brelse b s)) /\
  bufs (final (brelse b s)) = alter (released (ticks s)) b (bufs s) /\
  chains (final (brelse b s)) = chains s /\
  ticks (final (brelse b s)) = ticks s /\
  curproc (final (brelse b s)) = curproc s /\
  disk (final (brelse b s)) = disk s /\
  held (final (brelse b s))
  = filter (fun l => l <> BucketLock (hash (dev (bufat s b)) (blockno (bufat s b))))
      (BucketLock (hash (dev (bufat s b)) (blockno (bufat s b))) :: held s).
Proof.
  intros H. destruct s as [bs cs h tk pid dk lg]. unfold holds, bufat in *. simpl in H.
  destruct (brelse_run bs cs h tk pid dk lg b H) as [lg' ->]. by repeat split.
Qed.

(** ** The chains after an eviction *)

Lemma map_chain_of cs :
  map (chain_of cs) (seqZ 0 (Z.of_nat (length cs))) = cs.
Proof.
  apply list_eq. intros i.
  change (map (chain_of cs) (seqZ 0 (Z.of_nat (length cs))))
    with (chain_of cs <$> seqZ 0 (Z.of_nat (length cs))).
  rewrite list_lookup_fmap.
  destruct (decide (i < length cs)%nat) as [Hlt | Hge].
  - rewrite lookup_seqZ_lt by lia. simpl. unfold chain_of.
    rewrite Z.add_0_l, Nat2Z.id.
    destruct (lookup_lt_is_Some_2 cs i Hlt) as [c ->]. done.
  - rewrite lookup_seqZ_ge by lia. simpl. by rewrite lookup_ge_None_2 by lia.
Qed.

Lemma scan_order_concat s :
  length (chains s) = Z.to_nat NBUK -> scan_order s = concat (chains s).
Proof.
  intros Hlen. unfold scan_order.
  replace NBUK with (Z.of_nat (length (chains s))) by (rewrite Hlen; reflexivity).
  by rewrite map_chain_of.
Qed.

Lemma chain_of_lookup cs i :
  0 <= i < NBUK -> length cs = Z.to_nat NBUK ->
  cs !! Z.to_nat i = Some (chain_of cs i).
Proof.
  intros Hi Hlen. unfold chain_of.
  destruct (lookup_lt_is_Some_2 cs (Z.to_nat i)) as [c ->]; [| done].
  rewrite Hlen. unfold NBUK in *. lia.
Qed.

Lemma chain_of_moved cs src tgt p v i :
  length cs = Z.to_nat NBUK ->
  0 <= src < NBUK -> 0 <= tgt < NBUK -> 0 <= i < NBUK ->
  chain_of (alter (cons v) (Z.to_nat tgt) (alter (delete p) (Z.to_nat src) cs)) i
  = (if decide (i = tgt) then [v] else [])
    ++ (if decide (i = src) then delete p (chain_of cs i) else chain_of cs i).
Proof.
  intros Hlen Hs Ht Hi.
  pose proof (chain_of_lookup cs i Hi Hlen) as Hc.
  unfold chain_of at 1. rewrite !list_lookup_alter.
  destruct (decide (i = tgt)) as [-> | Hit].
  - rewrite decide_True by done.
    destruct (decide (tgt = src)) as [-> | Hts].
    + rewrite decide_True by done. by rewrite Hc.
    + rewrite decide_False by lia. by rewrite Hc.
  - rewrite (decide_False (P := Z.to_nat tgt = Z.to_nat i)) by lia.
    destruct (decide (i = src)) as [-> | His].
    + rewrite decide_True by done. by rewrite Hc.
    + rewrite decide_False by lia. by rewrite Hc.
Qed.

Lemma lookup_chain_delete bs dv bn c p v b :
  lookup_chain bs dv bn c = Some b -> c !! p = Some v -> v <> b ->
  lookup_chain bs dv bn (delete p c) = Some b.
Proof.
  revert p. induction c as [| a c IH]; intros p; simpl; [discriminate |].
  destruct ((dev (bs !!! a) =? dv) && (blockno (bs !!! a) =? bn)) eqn:E.
  - intros [= ->] Hp Hne. destruct p as [| p]; simpl in *; [congruence |].
    by rewrite E.
  - intros Hl Hp Hne. destruct p as [| p]; simpl in *; [done |].
    rewrite E. by eapply IH.
Qed.

(** The state after [bget] gave the unreferenced buffer [v], the [next]
    of link [l], the identity [(dv, bn)] and moved it to the head of the
    bucket of that identity. *)
Lemma ok_install s s' dv bn l v g :
  cache_ok s ->
  lookup_chain (bufs s) dv bn (chain_of (chains s) (hash dv bn)) = None ->
  0 <= lbucket l < NBUK ->
  chain_of (chains s) (lbucket l) !! lpos l = Some v ->
  refcnt (bufat s v) = 0 ->
  chains s' = alter (cons v) (Z.to_nat (hash dv bn))
                (alter (delete (lpos l)) (Z.to_nat (lbucket l)) (chains s)) ->
  bufs s' = alter g v (bufs s) ->
  ticks s' = ticks s ->
  dev (g (bufat s v)) = dv -> blockno (g (bufat s v)) = bn ->
  refcnt (g (bufat s v)) = 1 ->
  timestamp (g (bufat s v)) = timestamp (bufat s v) ->
  cache_ok s'.
Proof.
  intros [Hwf Hn Hnd Htk Hr Hfirst] Hmiss Hsrc Hv Hv0 Hcs Hbs Hticks Hdev Hbn Hrc Hts.
  pose proof (hash_range dv bn) as Htgt.
  set (tgt := hash dv bn) in *. set (src := lbucket l) in *. set (p := lpos l) in *.
  assert (Hvin : v ∈ chain_of (chains s) src) by (by eapply list_elem_of_lookup_2).
  assert (Hvso : v ∈ scan_order s) by (apply elem_of_scan_order; eauto).
  assert (Hvlt : (v < length (bufs s))%nat) by (by apply wf_linked).
  assert (Hat : forall b, bufat s' b = if decide (b = v) then g (bufat s v) else bufat s b).
  { intros b. unfold bufat. rewrite Hbs. destruct (decide (b = v)) as [-> | Hne].
    - by rewrite alter_at.
    - by rewrite alter_other. }
  assert (Hch : forall i, 0 <= i < NBUK ->
    chain_of (chains s') i
    = (if decide (i = tgt) then [v] else [])
      ++ (if decide (i = src) then delete p (chain_of (chains s) i)
          else chain_of (chains s) i)).
  { intros i Hi. rewrite Hcs. by apply chain_of_moved. }
  assert (Hcnd : NoDup (chain_of (chains s) src)).
  { eapply Chains.NoDup_concat_lookup; [| by apply chain_of_lookup].
    by rewrite <- scan_order_concat. }
  assert (Hrest : forall i b, 0 <= i < NBUK ->
    b ∈ (if decide (i = src) then delete p (chain_of (chains s) i)
         else chain_of (chains s) i)
    <-> b <> v /\ b ∈ chain_of (chains s) i).
  { intros i b Hi. destruct (decide (i = src)) as [-> | His].
    - rewrite (Chains.elem_of_delete_NoDup _ p v b Hcnd Hv). tauto.
    - split; [| tauto]. intros Hb. split; [| done]. intros ->.
      apply His. rewrite <- (wf_placed s i v Hwf Hi Hb).
      by apply wf_placed. }
  assert (Hmem : forall i b, 0 <= i < NBUK ->
    b ∈ chain_of (chains s') i <-> (b = v /\ i = tgt) \/ (b <> v /\ b ∈ chain_of (chains s) i)).
  { intros i b Hi. rewrite (Hch i Hi), elem_of_app, (Hrest i b Hi).
    destruct (decide (i = tgt)) as [-> | Hit].
    - rewrite list_elem_of_singleton. tauto.
    - rewrite elem_of_nil. tauto. }
  assert (Hlen' : length (chains s') = Z.to_nat NBUK) by (by rewrite Hcs, !length_alter).
  assert (Hperm : scan_order s' ≡ₚ scan_order s).
  { rewrite !scan_order_concat by done. rewrite Hcs.
    eapply Chains.concat_move_perm.
    - by apply chain_of_lookup.
    - exact Hv.
    - rewrite Hn. unfold NBUK in *. lia. }
  assert (Hbl : length (bufs s') = length (bufs s)) by (by rewrite Hbs, length_alter).
  split.
  - apply wf_intro.
    + intros b Hb. rewrite Hbl. apply wf_linked; [done |]. by rewrite <- Hperm.
    + intros i b Hi Hb. rewrite Hat. apply (Hmem i b Hi) in Hb as [[-> ->] | [Hne Hb]].
      * rewrite decide_True by done. by rewrite Hdev, Hbn.
      * rewrite decide_False by done. by apply wf_placed.
    + intros b. rewrite Hat. destruct (decide (b = v)) as [-> | Hne].
      * rewrite Hts. by apply wf_stamps.
      * by apply wf_stamps.
    + intros b. rewrite Hat. destruct (decide (b = v)) as [-> | Hne].
      * rewrite Hrc. done.
      * by apply wf_idle_unlocked.
    + intros b Hb. rewrite Hperm. apply wf_covered; [done |]. by rewrite <- Hbl.
  - done.
  - by rewrite Hperm.
  - by rewrite Hticks.
  - intros b. rewrite Hat. destruct (decide (b = v)) as [-> | Hne]; [lia | done].
  - intros b Hb. unfold first_match. rewrite !Hat.
    destruct (decide (b = v)) as [-> | Hne].
    + intros _. rewrite Hdev, Hbn. fold tgt. rewrite (Hch tgt Htgt).
      rewrite decide_True by done. simpl.
      change (bufs s' !!! v) with (bufat s' v). rewrite Hat, decide_True by done.
      by rewrite Hdev, Hbn, !Z.eqb_refl.
    + intros Hb0. rewrite Hperm in Hb.
      pose proof (Hfirst b Hb Hb0) as Hfm. unfold first_match in Hfm.
      set (d := dev (bufat s b)) in *. set (n := blockno (bufat s b)) in *.
      pose proof (hash_range d n) as Hi. set (i := hash d n) in *.
      apply lookup_chain_Some in Hfm as Hfm'. destruct Hfm' as (Hbin & _).
      rewrite (Hch i Hi).
      assert (Hskip : lookup_chain (bufs s') d n
                (if decide (i = src) then delete p (chain_of (chains s) i)
                 else chain_of (chains s) i) = Some b).
      { rewrite (lookup_chain_ext (bufs s)).
        - destruct (decide (i = src)) as [His | His]; [| done].
          eapply lookup_chain_delete; [done | by rewrite His | done].
        - intros b' Hb'. apply (Hrest i b' Hi) in Hb' as [Hne' _].
          change (bufs s' !!! b') with (bufat s' b'). rewrite Hat.
          by rewrite decide_False. }
      destruct (decide (i = tgt)) as [Hit | Hit]; [| done].
      simpl. change (bufs s' !!! v) with (bufat s' v).
      rewrite Hat, decide_True by done. rewrite Hdev, Hbn.
      destruct ((dv =? d) && (bn =? n)) eqn:E; [| done].
      apply andb_true_iff in E as [E1 E2].
      apply Z.eqb_eq in E1. apply Z.eqb_eq in E2. exfalso.
      eapply lookup_chain_None; [exact Hmiss | | ].
      * fold tgt. rewrite <- Hit. exact Hbin.
      * split; [by rewrite E1 | by rewrite E2].
Qed.
(** ** The paths of [bread] *)

Section MoreFields.

Variables (s : kstate) (b : nat) (h : list spinlock).
Variables (l : link) (tgt dv bn : Z).

Lemma ticks_bumped : ticks (bumped b h s) = ticks s.
Proof. reflexivity. Qed.
Lemma ticks_moved : ticks (moved l b tgt s) = ticks s.
Proof. reflexivity. Qed.
Lemma ticks_installed : ticks (installed dv bn b h s) = ticks s.
Proof. reflexivity. Qed.
Lemma ticks_locked : ticks (locked b s) = ticks s.
Proof. reflexivity. Qed.
Lemma ticks_fetched : ticks (fetched b s) = ticks s.
Proof. reflexivity. Qed.

Lemma disk_bumped : disk (bumped b h s) = disk s.
Proof. reflexivity. Qed.
Lemma disk_moved : disk (moved l b tgt s) = disk s.
Proof. reflexivity. Qed.
Lemma disk_installed : disk (installed dv bn b h s) = disk s.
Proof. reflexivity. Qed.
Lemma disk_locked : disk (locked b s) = disk s.
Proof. reflexivity. Qed.
Lemma disk_fetched : disk (fetched b s) = disk s.
Proof. reflexivity. Qed.

End MoreFields.

Create Rewrite HintDb kfld.
#[local] Hint Rewrite
  bufs_fetched chains_fetched held_fetched curproc_fetched log_fetched
  ticks_fetched disk_fetched : kfld.
#[local] Hint Rewrite
  bufs_bumped chains_bumped held_bumped curproc_bumped log_bumped
  bufs_moved chains_moved held_moved curproc_moved log_moved
  bufs_installed chains_installed held_installed curproc_installed log_installed
  bufs_locked chains_locked held_locked curproc_locked log_locked
  ticks_bumped ticks_moved ticks_installed ticks_locked
  disk_bumped disk_moved disk_installed disk_locked : kfld.

Ltac buf_fields :=
  cbn [valid dev blockno lock refcnt timestamp data set_lock set_refcnt
       set_timestamp set_valid set_dev set_blockno set_data].

Ltac state_fields := unfold bufat; autorewrite with kfld; bufs_simpl; buf_fields.

Lemma scan_fold_bucket bs cs idx :
  forall st,
    (forall i, i ∈ idx -> 0 <= i < NBUK) -> bucket_or_none st ->
    bucket_or_none (fold_left (scan_step bs cs) idx st).
Proof.
  induction idx as [| i idx IH]; intros st Hidx Hst; simpl; [done |].
  apply IH.
  - intros j Hj. apply Hidx. by right.
  - unfold bucket_or_none.
    destruct (scan_step_id bs cs st i) as [-> | ->]; [done |].
    right. apply Hidx. by left.
Qed.

Lemma lru_scan_bucket bs cs : bucket_or_none (lru_scan bs cs).
Proof.
  unfold lru_scan. apply scan_fold_bucket.
  - intros i Hi. apply elem_of_seqZ in Hi. lia.
  - by left.
Qed.

Lemma bucket_or_none_found st l :
  bucket_or_none st -> snd st = lbucket l -> lbucket l <> -1 ->
  0 <= lbucket l < NBUK.
Proof. unfold bucket_or_none. intros [H | H] <- Hne; done. Qed.

(** The link the scan ends with lies in one of the buckets. *)
Lemma scan_link_range bs cs l :
  prev_lru_b (fst (lru_scan bs cs)) = Some l -> 0 <= lbucket l < NBUK.
Proof.
  intros Hl.
  destruct (link_inv_found (lru_scan bs cs) l (lru_scan_link bs cs) Hl) as [Hid Hne].
  exact (bucket_or_none_found _ l (lru_scan_bucket bs cs) Hid Hne).
Qed.

Lemma bread_hit s dv bn b :
  held s = [] ->
  lookup_chain (bufs s) dv bn (chain_of (chains s) (hash dv bn)) = Some b ->
  bread dv bn s =
    match lock (bufat s b) with
    | Some _ => Sleeps (bumped b [BucketLock (hash dv bn)] s)
    | None =>
        Ret b (if valid (bufat s b) =? 0
               then fetched b (hit_state dv bn b s) else hit_state dv bn b s)
    end.
Proof.
  intros Hh Hm. rewrite bread_after_bget, (bget_on_hit s dv bn b Hh Hm).
  assert (Hlock : lock (bufat (bumped b [BucketLock (hash dv bn)] s) b) = lock (bufat s b)).
  { unfold bufat. rewrite bufs_bumped. by keep_field lock. }
  destruct (lock (bufat s b)) as [p |] eqn:E.
  - by rewrite (sleep_return_held _ b p).
  - rewrite sleep_return_free by done. fold (hit_state dv bn b s).
    replace (valid (bufat (hit_state dv bn b s) b)) with (valid (bufat s b)); [done |].
    unfold hit_state, bufat. rewrite bufs_locked, bufs_bumped.
    by keep_field valid.
Qed.

Lemma bread_miss s dv bn l :
  wf s -> held s = [] ->
  lookup_chain (bufs s) dv bn (chain_of (chains s) (hash dv bn)) = None ->
  prev_lru_b (fst (lru_scan (bufs s) (chains s))) = Some l ->
  exists v,
    chain_of (chains s) (lbucket l) !! lpos l = Some v /\
    0 <= lbucket l < NBUK /\
    refcnt (bufat s v) = 0 /\
    (v < length (bufs s))%nat /\
    bget dv bn s = Ret v (locked v
      (installed dv bn v [BucketLock (hash dv bn); BcacheLock]
         (moved l v (hash dv bn) s))) /\
    bread dv bn s = Ret v (install_state dv bn l v s).
Proof.
  intros Hwf Hh Hm Hl.
  destruct (bget_on_candidate s dv bn l Hh Hm Hl) as (n & v & Hv & Hn & Hr & _ & Hg).
  assert (Hin : v ∈ scan_order s) by (by eapply list_elem_of_lookup_2).
  assert (Hlen : (v < length (bufs s))%nat) by (by apply wf_linked).
  assert (Hrecheck :
    lookup_chain (bufs s) dv bn
      (chain_of (chains (moved l v (hash dv bn) s)) (hash dv bn)) = None).
  { apply lookup_chain_None. intros b Hb [Hd Hbn].
    rewrite lookup_chain_None in Hm.
    apply moved_target_chain in Hb as [-> | Hb]; [| by eapply Hm].
    apply elem_of_scan_order in Hin as (i & Hi & Hvi).
    pose proof (wf_placed s i v Hwf Hi Hvi) as Hp. unfold bufat in Hp.
    rewrite Hd, Hbn in Hp. subst i. by eapply Hm. }
  unfold after_move in Hg. cbn zeta in Hg. rewrite Hrecheck in Hg.
  rewrite sleep_return_free in Hg.
  - exists v. split; [done |]. split; [by eapply scan_link_range |].
    split; [done |]. split; [done |]. split; [done |].
    rewrite bread_after_bget, Hg. unfold install_state.
    replace (valid (bufat (locked v (installed dv bn v [BucketLock (hash dv bn); BcacheLock]
                (moved l v (hash dv bn) s))) v)) with 0; [done |].
    state_fields. done.
  - state_fields. by apply wf_idle_unlocked.
Qed.
(** ** The invariant along the paths *)

Lemma int_wrap_incr r : 0 <= r < INT_MAX -> int_wrap (r + 1) = r + 1.
Proof. intros H. apply int_wrap_id. unfold is_int, INT_MIN, INT_MAX in *. lia. Qed.

Lemma int_wrap_decr r : 1 <= r <= INT_MAX -> int_wrap (r - 1) = r - 1.
Proof. intros H. apply int_wrap_id. unfold is_int, INT_MIN, INT_MAX in *. lia. Qed.

Lemma ok_bumped s b h :
  cache_ok s -> counts_fit s ->
  ((b < length (bufs s))%nat -> refcnt (bufat s b) <> 0 \/ first_match s b) ->
  cache_ok (bumped b h s).
Proof.
  intros Hok Hfit Hb. apply (ok_alter s _ incr b Hok); try reflexivity.
  intros Hlt. unfold incr. buf_fields.
  rewrite int_wrap_incr by (split; [apply Hok | apply Hfit]).
  pose proof (ok_refcnt s Hok b). pose proof (wf_stamps s (ok_wf s Hok) b).
  split; [done |]. split; [done |]. split; [done |]. split; [lia |].
  split; [lia | auto].
Qed.

Lemma ok_locked s b :
  cache_ok s -> refcnt (bufat s b) <> 0 -> cache_ok (locked b s).
Proof.
  intros Hok Hb. apply (ok_alter s _ (set_lock (Some (curproc s))) b Hok);
    try reflexivity.
  intros Hlt. buf_fields.
  pose proof (ok_refcnt s Hok b). pose proof (wf_stamps s (ok_wf s Hok) b).
  split; [done |]. split; [done |]. split; [done |]. split; [done |].
  split; [done | auto].
Qed.

Lemma ok_fetched s b : cache_ok s -> cache_ok (fetched b s).
Proof.
  intros Hok.
  apply (ok_alter s _
           (fun bf => set_valid 1
              (set_data (disk s (dev (bufat s b)) (blockno (bufat s b))) bf)) b Hok);
    try reflexivity.
  - rewrite bufs_fetched. by rewrite list_alter_alter_eq.
  - intros Hlt. buf_fields.
    pose proof (ok_refcnt s Hok b). pose proof (wf_stamps s (ok_wf s Hok) b).
    split; [done |]. split; [done |]. split; [done |]. split; [done |].
    split; [by apply wf_idle_unlocked, Hok | auto].
Qed.

Lemma refcnt_bumped s b h :
  cache_ok s -> counts_fit s -> (b < length (bufs s))%nat ->
  refcnt (bufat (bumped b h s) b) = refcnt (bufat s b) + 1.
Proof.
  intros Hok Hfit Hlt. state_fields.
  apply int_wrap_incr. split; [apply Hok | apply Hfit].
Qed.

Lemma lookup_first_match s dv bn b :
  lookup_chain (bufs s) dv bn (chain_of (chains s) (hash dv bn)) = Some b ->
  first_match s b.
Proof.
  intros Hm. destruct (lookup_chain_Some _ _ _ _ _ Hm) as (_ & Hd & Hn).
  unfold first_match, bufat. by rewrite Hd, Hn.
Qed.

Lemma lookup_in_range s dv bn b :
  wf s ->
  lookup_chain (bufs s) dv bn (chain_of (chains s) (hash dv bn)) = Some b ->
  (b < length (bufs s))%nat.
Proof.
  intros Hwf Hm. destruct (lookup_chain_Some _ _ _ _ _ Hm) as (Hin & _).
  apply wf_linked; [done |]. apply elem_of_scan_order.
  exists (hash dv bn). split; [apply hash_range | done].
Qed.

Lemma ok_install_state s dv bn l v :
  cache_ok s ->
  lookup_chain (bufs s) dv bn (chain_of (chains s) (hash dv bn)) = None ->
  0 <= lbucket l < NBUK ->
  chain_of (chains s) (lbucket l) !! lpos l = Some v ->
  refcnt (bufat s v) = 0 -> (v < length (bufs s))%nat ->
  cache_ok (install_state dv bn l v s).
Proof.
  intros Hok Hm Hl Hv Hr Hlt. unfold install_state.
  apply ok_fetched. apply ok_locked.
  - eapply (ok_install s _ dv bn l v
              (fun bf => set_refcnt 1 (set_valid 0 (set_blockno bn (set_dev dv bf)))));
      try done.
    rewrite bufs_installed, bufs_moved. by rewrite !list_alter_alter_eq.
  - state_fields. done.
Qed.

Lemma bread_keeps_ok s dv bn :
  cache_ok s -> held s = [] -> counts_fit s ->
  cache_ok (final (bread dv bn s)).
Proof.
  intros Hok Hh Hfit. pose proof (ok_wf s Hok) as Hwf.
  destruct (lookup_chain (bufs s) dv bn (chain_of (chains s) (hash dv bn)))
    as [b |] eqn:Hm.
  - rewrite (bread_hit s dv bn b Hh Hm).
    pose proof (lookup_first_match s dv bn b Hm) as Hfm.
    pose proof (lookup_in_range s dv bn b Hwf Hm) as Hlt.
    assert (Hb : cache_ok (bumped b [BucketLock (hash dv bn)] s))
      by (apply ok_bumped; auto).
    destruct (lock (bufat s b)); [done |]. simpl.
    assert (Hl : cache_ok (hit_state dv bn b s)).
    { apply ok_locked; [done |]. rewrite refcnt_bumped by done.
      pose proof (ok_refcnt s Hok b). lia. }
    destruct (valid (bufat s b) =? 0); [by apply ok_fetched | done].
  - destruct (prev_lru_b (fst (lru_scan (bufs s) (chains s)))) as [l |] eqn:Hl.
    + destruct (bread_miss s dv bn l Hwf Hh Hm Hl) as (v & Hv & Hr & Hv0 & Hlt & _ & ->).
      simpl. by apply ok_install_state.
    + rewrite (bread_null_deref s dv bn s); [done |].
      by apply bget_on_no_candidate.
Qed.

Lemma op_keeps_ok o s :
  cache_ok s -> held s = [] -> counts_fit s -> allowed o s ->
  cache_ok (run o s).
Proof.
  intros Hok Hh Hfit Hal. pose proof (ok_wf s Hok) as Hwf.
  destruct o as [dv bn | b | b | b | b]; unfold run.
  - by apply bread_keeps_ok.
  - destruct (bwrite_fields s b) as (Hb & Hc & Ht & _).
    apply (ok_alter s _ id b Hok); try done.
    + by rewrite list_alter_id.
    + intros _. pose proof (ok_refcnt s Hok b). pose proof (wf_stamps s Hwf b).
      unfold id. split; [done |]. split; [done |]. split; [done |].
      split; [done |]. split; [by apply wf_idle_unlocked | auto].
  - destruct (decide (lock (bufat s b) = Some (curproc s))) as [Hhold | Hnot].
    + destruct (brelse_fields s b Hhold) as (_ & Hb & Hc & Ht & _).
      apply (ok_alter s _ (released (ticks s)) b Hok); try done.
      intros Hlt. pose proof (ok_refcnt s Hok b) as Hr0.
      assert (Hr : refcnt (bufat s b) <> 0).
      { intros H0. apply (wf_idle_unlocked s b Hwf) in H0.
        unfold holds in Hhold. congruence. }
      unfold released, decr. buf_fields.
      rewrite int_wrap_decr by (pose proof (Hfit b); lia).
      pose proof (wf_stamps s Hwf b). pose proof (ok_ticks s Hok).
      destruct (refcnt (bufat s b) - 1 =? 0) eqn:E; buf_fields.
      * split; [done |]. split; [done |]. split; [done |]. split; [lia |].
        split; [done | auto].
      * split; [done |]. split; [done |]. split; [done |]. split; [lia |].
        split; [done | auto].
    + by rewrite (brelse_not_holding s b Hnot).
  - destruct (bpin_fields s b) as (_ & Hb & Hc & Ht & _).
    apply (ok_alter s _ incr b Hok); try done.
    intros Hlt. unfold incr. buf_fields. simpl in Hal.
    rewrite int_wrap_incr by (split; [apply Hok | apply Hfit]).
    pose proof (ok_refcnt s Hok b). pose proof (wf_stamps s Hwf b).
    split; [done |]. split; [done |]. split; [done |]. split; [lia |].
    split; [lia | auto].
  - destruct (bunpin_fields s b) as (_ & Hb & Hc & Ht & _).
    apply (ok_alter s _ decr b Hok); try done.
    intros Hlt. unfold decr. buf_fields. simpl in Hal. destruct Hal as [Hal1 Hal2].
    rewrite int_wrap_decr by (pose proof (Hfit b); lia).
    pose proof (wf_stamps s Hwf b).
    split; [done |]. split; [done |]. split; [done |]. split; [lia |].
    split; [| intros _; left; lia].
    intros H0. destruct (lock (bufat s b)) eqn:E; [| done].
    assert (2 <= refcnt (bufat s b)) by (by apply Hal2). lia.
Qed.
(** ** [binit] *)

Lemma binit_state tk pid d :
  binit (boot tk pid d)
  = Ret tt (mkstate (replicate NBUF (mkbuf 0 0 0 None 0 tk []))
              (seq 0 NBUF :: replicate 12 []) [] tk pid d []).
Proof. reflexivity. Qed.

Lemma binit_bufat tk pid d b :
  let s := mkstate (replicate NBUF (mkbuf 0 0 0 None 0 tk []))
             (seq 0 NBUF :: replicate 12 []) [] tk pid d [] in
  bufat s b = mkbuf 0 0 0 None 0 (if decide (b < NBUF)%nat then tk else 0) [].
Proof.
  intros s. unfold bufat, s. cbn [bufs].
  destruct (decide (b < NBUF)%nat) as [Hlt | Hge].
  - by rewrite lookup_total_replicate_2.
  - rewrite list_lookup_total_alt, lookup_ge_None_2; [done |].
    rewrite length_replicate. lia.
Qed.

Lemma binit_chain_of i :
  0 <= i < NBUK ->
  chain_of (seq 0 NBUF :: replicate 12 []) i = if decide (i = 0) then seq 0 NBUF else [].
Proof.
  intros Hi. unfold chain_of. destruct (decide (i = 0)) as [-> | Hne]; [done |].
  destruct (Z.to_nat i) as [| k] eqn:E; [lia |].
  rewrite lookup_cons. 
  destruct (replicate 12 (@nil nat) !! k) as [c |] eqn:Ec; [| done].
  by apply lookup_replicate in Ec as [-> _].
Qed.

Lemma binit_ok tk pid d :
  is_uint tk ->
  cache_ok (mkstate (replicate NBUF (mkbuf 0 0 0 None 0 tk []))
              (seq 0 NBUF :: replicate 12 []) [] tk pid d []).
Proof.
  intros Htk.
  set (s := mkstate (replicate NBUF (mkbuf 0 0 0 None 0 tk []))
              (seq 0 NBUF :: replicate 12 []) [] tk pid d []).
  assert (Hso : scan_order s = seq 0 NBUF) by reflexivity.
  assert (Hlen : length (bufs s) = NBUF) by reflexivity.
  pose proof (binit_bufat tk pid d) as Hat. cbn zeta in Hat. fold s in Hat.
  split.
  - apply wf_intro.
    + intros b. rewrite Hso, Hlen, elem_of_seq. lia.
    + intros i b Hi. cbn [chains s]. rewrite (binit_chain_of i Hi), Hat.
      destruct (decide (i = 0)) as [-> | Hne]; [done |].
      intros Hb. by apply elem_of_nil in Hb.
    + intros b. rewrite Hat. cbn [timestamp].
      destruct (decide (b < NBUF)%nat); [done |].
      unfold is_uint, UINT_MAX. lia.
    + intros b _. by rewrite Hat.
    + intros b. rewrite Hso, Hlen, elem_of_seq. lia.
  - reflexivity.
  - rewrite Hso. apply NoDup_seq.
  - done.
  - intros b. by rewrite Hat.
  - intros b _. by rewrite Hat.
Qed.
(** ** What [bread] leaves *)

Lemma bread_post s dv bn b s' :
  cache_ok s -> held s = [] -> counts_fit s ->
  bread dv bn s = Ret b s' ->
  (b < length (bufs s'))%nat /\
  dev (bufat s' b) = dv /\ blockno (bufat s' b) = bn /\
  lock (bufat s' b) = Some (curproc s) /\
  valid (bufat s' b) <> 0 /\
  1 <= refcnt (bufat s' b) <= INT_MAX /\
  data (bufat s' b) =
    match lookup_chain (bufs s) dv bn (chain_of (chains s) (hash dv bn)) with
    | Some b0 => if valid (bufat s b0) =? 0 then disk s dv bn else data (bufat s b0)
    | None => disk s dv bn
    end /\
  curproc s' = curproc s /\ held s' = [] /\ ticks s' = ticks s /\ disk s' = disk s.
Proof.
  intros Hok Hh Hfit Hrun. pose proof (ok_wf s Hok) as Hwf.
  destruct (lookup_chain (bufs s) dv bn (chain_of (chains s) (hash dv bn)))
    as [b0 |] eqn:Hm.
  - rewrite (bread_hit s dv bn b0 Hh Hm) in Hrun.
    pose proof (lookup_in_range s dv bn b0 Hwf Hm) as Hlt.
    destruct (lookup_chain_Some _ _ _ _ _ Hm) as (_ & Hd & Hn).
    destruct (lock (bufat s b0)); [discriminate |].
    injection Hrun as <- <-.
    pose proof (ok_refcnt s Hok b0) as Hr0. pose proof (Hfit b0) as Hr1.
    unfold bufat in Hr0, Hr1.
    unfold hit_state.
    destruct (valid (bufat s b0) =? 0) eqn:Ev.
    + split; [autorewrite with kfld; by rewrite !length_alter |].
      state_fields. state_fields. rewrite int_wrap_incr by done. rewrite Hd, Hn.
      unfold INT_MAX in *. repeat split; try done; lia.
    + apply Z.eqb_neq in Ev.
      split; [autorewrite with kfld; by rewrite !length_alter |].
      state_fields. rewrite int_wrap_incr by done.
      unfold INT_MAX in *. repeat split; try done; lia.
  - destruct (prev_lru_b (fst (lru_scan (bufs s) (chains s)))) as [l |] eqn:Hl.
    + destruct (bread_miss s dv bn l Hwf Hh Hm Hl) as (v & Hv & Hr & Hv0 & Hlt & _ & Hb).
      rewrite Hb in Hrun. injection Hrun as <- <-. unfold install_state.
      split; [autorewrite with kfld; by rewrite !length_alter |].
      state_fields. state_fields. unfold INT_MAX. repeat split; try done; lia.
    + rewrite (bread_null_deref s dv bn s) in Hrun; [discriminate |].
      by apply bget_on_no_candidate.
Qed.

Lemma end_timestamp dv bn s x b :
  bread_end dv bn s x -> timestamp (bufat x b) = timestamp (bufat s b).
Proof.
  assert (Hmid : forall y, bget_mid dv bn s y ->
                           timestamp (bufat y b) = timestamp (bufat s b)).
  { intros y Hy. destruct Hy as [| b0 | l v b0 Hv | l v Hv];
      unfold bufat; autorewrite with kfld; by keep_field timestamp. }
  intros Hx. destruct Hx as [x Hx | x b0 Hx | x b0 Hx];
    rewrite <- (Hmid x Hx); unfold bufat; autorewrite with kfld;
    by keep_field timestamp.
Qed.

Lemma mid_locks dv bn s x :
  bget_mid dv bn s x ->
  held x = held s /\
  exists delta, log x = log s ++ delta /\ Forall sleep_unlocked delta.
Proof.
  intros Hx. destruct Hx as [| b0 | l v b0 Hv | l v Hv].
  - split; [done |]. exists []. by rewrite app_nil_r.
  - split; [done |]. eexists. split; [by autorewrite with kfld |].
    by repeat constructor.
  - split; [done |]. eexists.
    split; [autorewrite with kfld; by rewrite <- app_assoc |].
    by repeat constructor.
  - split; [done |]. eexists.
    split; [autorewrite with kfld; by rewrite <- app_assoc |].
    by repeat constructor.
Qed.

Lemma end_locks dv bn s x :
  held s = [] -> bread_end dv bn s x ->
  held x = [] /\
  exists delta, log x = log s ++ delta /\ Forall sleep_unlocked delta.
Proof.
  intros Hh Hx. destruct Hx as [x Hx | x b0 Hx | x b0 Hx];
    destruct (mid_locks dv bn s x Hx) as (Hhx & delta & Hlog & Hd);
    rewrite Hh in Hhx.
  - split; [done |]. by exists delta.
  - split; [done |]. exists (delta ++ [(AAcquireSleep b0, [])]).
    autorewrite with kfld. rewrite Hlog, Hhx, <- app_assoc. split; [done |].
    apply Forall_app. split; [done |]. by repeat constructor.
  - split; [done |]. exists (delta ++ [(AAcquireSleep b0, [])]).
    autorewrite with kfld. rewrite Hlog, Hhx, <- app_assoc. split; [done |].
    apply Forall_app. split; [done |]. by repeat constructor.
Qed.

Lemma other_ops_locks o s :
  (forall dv bn, o <> OpBread dv bn) -> held s = [] ->
  held (run o s) = [] /\
  exists delta, log (run o s) = log s ++ delta /\ Forall sleep_unlocked delta.
Proof.
  intros Ho Hh.
  destruct o as [dv bn | b | b | b | b]; [by destruct (Ho dv bn) | ..].
  - destruct (bwrite_fields s b) as (_ & _ & _ & _ & Hheld & Hlog).
    unfold run. rewrite Hheld, Hlog. split; [done |]. exists []. by rewrite app_nil_r.
  - run_op. destruct (bool_decide _); simpl; [| by split; [| exists []; rewrite app_nil_r]].
    destruct (_ =? 0); simpl; rewrite Hh, <- !app_assoc;
      (split; [by rewrite release_head |]); eexists; (split; [done |]);
      by repeat constructor.
  - run_op. rewrite Hh. split; [by rewrite release_head |]. eexists. split; [done |].
    by repeat constructor.
  - run_op. rewrite Hh. split; [by rewrite release_head |]. eexists. split; [done |].
    by repeat constructor.
Qed.

Lemma bread_chains s dv bn :
  held s = [] ->
  chains (final (bread dv bn s)) = chains s \/
  exists l v,
    0 <= lbucket l < NBUK /\
    chain_of (chains s) (lbucket l) !! lpos l = Some v /\
    chains (final (bread dv bn s))
    = alter (cons v) (Z.to_nat (hash dv bn))
        (alter (delete (lpos l)) (Z.to_nat (lbucket l)) (chains s)).
Proof.
  intros Hh.
  assert (Hb : chains (final (bread dv bn s)) = chains (final (bget dv bn s))).
  { rewrite bread_after_bget. destruct (bget dv bn s) as [b s1 | | |]; try done.
    simpl. by destruct (valid (bufat s1 b) =? 0). }
  rewrite Hb. clear Hb.
  destruct (lookup_chain (bufs s) dv bn (chain_of (chains s) (hash dv bn)))
    as [b |] eqn:Hm.
  - left. rewrite (bget_on_hit s dv bn b Hh Hm).
    by destruct (sleep_return_cases (bumped b [BucketLock (hash dv bn)] s) b) as [-> | ->].
  - destruct (prev_lru_b (fst (lru_scan (bufs s) (chains s)))) as [l |] eqn:Hl.
    + right. pose proof (scan_link_range _ _ l Hl) as Hr.
      destruct (bget_on_candidate s dv bn l Hh Hm Hl) as (n & v & Hv & _ & _ & _ & ->).
      exists l, v. split; [done |]. split; [done |].
      unfold after_move. cbn zeta.
      destruct (lookup_chain (bufs s) dv bn (chain_of (chains (moved _ _ _ _)) _))
        as [b |].
      * by destruct (sleep_return_cases
          (bumped b [BucketLock (hash dv bn); BcacheLock] (moved l v (hash dv bn) s)) b)
          as [-> | ->].
      * by destruct (sleep_return_cases
          (installed dv bn v [BucketLock (hash dv bn); BcacheLock]
             (moved l v (hash dv bn) s)) v) as [-> | ->].
    + left. by rewrite bget_on_no_candidate.
Qed.
Lemma released_fields tk x :
  dev (released tk x) = dev x /\ blockno (released tk x) = blockno x /\
  valid (released tk x) = valid x /\ data (released tk x) = data x /\
  lock (released tk x) = None /\
  refcnt (released tk x) = int_wrap (refcnt x - 1) /\
  timestamp (released tk x)
  = (if int_wrap (refcnt x - 1) =? 0 then tk else timestamp x).
Proof.
  unfold released, decr. buf_fields.
  destruct (int_wrap (refcnt x - 1) =? 0); by repeat split.
Qed.

Lemma bufat_alter s s' f b b' :
  bufs s' = alter f b (bufs s) ->
  bufat s' b' = if decide (b' = b /\ (b < length (bufs s))%nat)
                then f (bufat s b) else bufat s b'.
Proof.
  intros Hbs. unfold bufat. rewrite Hbs.
  destruct (decide (b' = b /\ (b < length (bufs s))%nat)) as [[-> Hlt] | Hn].
  - by rewrite alter_at.
  - destruct (decide (b' = b)) as [-> | Hne]; [| by rewrite alter_other].
    rewrite !list_lookup_total_alt, list_lookup_alter_eq.
    rewrite lookup_ge_None_2; [done |].
    destruct (decide (b < length (bufs s))%nat); [tauto | lia].
Qed.

Lemma forallb_bufat (P : buf -> bool) s :
  P inhabitant = true -> forallb P (bufs s) = true -> forall b, P (bufat s b) = true.
Proof.
  intros H0 H b. unfold bufat. rewrite list_lookup_total_alt.
  destruct (bufs s !! b) as [bf |] eqn:E; simpl; [| done].
  rewrite forallb_elem_of in H. apply H. by eapply list_elem_of_lookup_2.
Qed.

Lemma cache_ok_check s : cache_okb s = true -> cache_ok s.
Proof.
  unfold cache_okb. rewrite !andb_true_iff.
  intros [[[[[Hwf Hn] Hnd] Htk] Hr] Hf].
  apply bool_decide_eq_true in Hn. apply bool_decide_eq_true in Hnd.
  destruct Htk as [H1 H2]. apply Z.leb_le in H1. apply Z.leb_le in H2.
  split; try done.
  - intros b. apply Z.leb_le.
    by apply (forallb_bufat (fun bf => 0 <=? refcnt bf)).
  - intros b Hb Hne. rewrite forallb_elem_of in Hf. specialize (Hf b Hb).
    apply orb_true_iff in Hf as [Hf | Hf].
    + by apply Z.eqb_eq in Hf.
    + by apply bool_decide_eq_true in Hf.
Qed.

Lemma counts_fit_check s : counts_fitb s = true -> counts_fit s.
Proof.
  intros H b. apply Z.ltb_lt.
  by apply (forallb_bufat (fun bf => refcnt bf <? INT_MAX)).
Qed.

Lemma int_wrap_round r : is_int r -> int_wrap (int_wrap (r + 1) - 1) = r.
Proof.
  unfold is_int, int_wrap, INT_MIN, INT_MAX. intros H.
  replace ((r + 1 + 2 ^ 31) mod 2 ^ 32 - 2 ^ 31 - 1 + 2 ^ 31)
    with ((r + 1 + 2 ^ 31) mod 2 ^ 32 - 1) by lia.
  rewrite Zminus_mod_idemp_l.
  replace (r + 1 + 2 ^ 31 - 1) with (r + 2 ^ 31) by lia.
  rewrite Z.mod_small; lia.
Qed.
(** ** Theorems *)

(** X11: [binit], run on the zeroed [bcache] at a tick that is a [uint],
    returns with the invariant of the cache established: all [NBUF]
    buffers are linked in bucket 0 in the order of [bcache.buf], the other
    buckets are empty, and every buffer is unlocked, unreferenced and
    stamped with the tick of the call. *)
Theorem binit_establishes_invariant (tk pid : Z) (d : Z -> Z -> list byte) :
  is_uint tk ->
  exists s,
    binit (boot tk pid d) = Ret tt s /\
    cache_ok s /\
    scan_order s = seq 0 NBUF /\
    chain_of (chains s) 0 = seq 0 NBUF /\
    (forall b, (b < NBUF)%nat -> bufat s b = mkbuf 0 0 0 None 0 tk []).
Proof.
  intros Htk. eexists. split; [apply binit_state |].
  split; [by apply binit_ok |]. split; [reflexivity |]. split; [reflexivity |].
  intros b Hb. rewrite binit_bufat. by rewrite decide_True.
Qed.

(** X12: every public operation keeps the invariant of the cache,
    whatever its outcome: [bread], [bwrite] and [brelse] always, [bpin] on
    a referenced buffer, and [bunpin] when it gives back a pin and leaves
    the reference of the holder of the sleep-lock. *)
Theorem operations_keep_invariant (o : op) (s : kstate) :
  cache_ok s -> held s = [] -> counts_fit s -> allowed o s ->
  cache_ok (run o s).
Proof. apply op_keeps_ok. Qed.

(** X13: no operation loses or duplicates a buffer: the buffers linked
    in the [NBUK] chains after an operation are those linked before it,
    each as many times as before. *)
Theorem buffers_stay_linked (o : op) (s : kstate) :
  length (chains s) = Z.to_nat NBUK -> held s = [] ->
  scan_order (run o s) ≡ₚ scan_order s.
Proof.
  intros Hn Hh.
  destruct (bread_or_other o) as [(dv & bn & ->) | Ho].
  - unfold run. destruct (bread_chains s dv bn Hh) as [Hc | (l & v & Hl & Hv & Hc)].
    + by rewrite (scan_order_chains _ _ Hc).
    + pose proof (hash_range dv bn) as Ht.
      rewrite !scan_order_concat; [| done | by rewrite Hc, !length_alter].
      rewrite Hc. eapply Chains.concat_move_perm.
      * by apply chain_of_lookup.
      * exact Hv.
      * rewrite Hn. unfold NBUK in *. lia.
  - destruct (other_ops_log o s Ho) as (delta & _ & Hc & _).
    by rewrite (scan_order_chains _ _ Hc).
Qed.



(** X16: called with no spin-lock held, [bget] and [bread] never panic:
    the call [panic("bget: no buffers")] cannot be reached. *)
Theorem bget_never_panics (s : kstate) (dv bn : Z) (msg : string) (s' : kstate) :
  held s = [] ->
  bget dv bn s <> Panic msg s' /\ bread dv bn s <> Panic msg s'.
Proof.
  intros Hh. rewrite bread_after_bget.
  destruct (bget_outcome s dv bn Hh) as [-> | (x & b & _ & [-> | ->])]; by split.
Qed.

(** X17: a block read, released and read again with nothing in between
    comes back in the same buffer without a disk read: the second
    [bread] returns the buffer of the first, with its data, its validity
    and its reference count as the first call left them, and the chains
    and the disk untouched. *)
Theorem reread_returns_same_buffer (s : kstate) (dv bn : Z) (b : nat) (s1 : kstate) :
  cache_ok s -> held s = [] -> counts_fit s ->
  bread dv bn s = Ret b s1 ->
  exists s2 s3,
    brelse b s1 = Ret tt s2 /\
    bread dv bn s2 = Ret b s3 /\
    data (bufat s3 b) = data (bufat s1 b) /\
    valid (bufat s3 b) = valid (bufat s1 b) /\
    refcnt (bufat s3 b) = refcnt (bufat s1 b) /\
    chains s3 = chains s1 /\
    disk s3 = disk s1.
Proof.
  intros Hok Hh Hfit Hrun.
  destruct (bread_post s dv bn b s1 Hok Hh Hfit Hrun)
    as (Hlt & Hd & Hn & Hl & Hv & Hr & _ & Hpid & Hh1 & _).
  assert (Hok1 : cache_ok s1).
  { pose proof (bread_keeps_ok s dv bn Hok Hh Hfit) as H. by rewrite Hrun in H. }
  assert (Hfm : first_match s1 b).
  { apply (ok_first _ Hok1); [apply wf_covered; [apply Hok1 | done] | lia]. }
  unfold first_match in Hfm. rewrite Hd, Hn in Hfm.
  assert (Hholds : holds s1 b) by (unfold holds; congruence).
  destruct (brelse_fields s1 b Hholds) as (Hrel & Hbs & Hcs & _ & _ & Hdk & Hheld).
  set (s2 := final (brelse b s1)) in *.
  assert (Hat : bufat s2 b = released (ticks s1) (bufat s1 b)).
  { rewrite (bufat_alter s1 s2 _ b b Hbs). by rewrite decide_True. }
  destruct (released_fields (ticks s1) (bufat s1 b))
    as (Rd & Rn & Rv & Rdata & Rl & Rr & _).
  assert (Hh2 : held s2 = []).
  { rewrite Hheld, Hh1. by rewrite release_head. }
  assert (Hm2 : lookup_chain (bufs s2) dv bn (chain_of (chains s2) (hash dv bn)) = Some b).
  { rewrite Hcs, <- Hfm. apply lookup_chain_ext. intros b' _.
    change (bufs s2 !!! b') with (bufat s2 b').
    rewrite (bufat_alter s1 s2 _ b b' Hbs).
    destruct (decide _) as [[-> _] | _]; [by rewrite Rd, Rn | done]. }
  exists s2. eexists. split; [done |].
  rewrite (bread_hit s2 dv bn b Hh2 Hm2). rewrite Hat, Rl, Rv.
  apply Z.eqb_neq in Hv. rewrite Hv.
  split; [reflexivity |].
  assert (Hlt2 : (b < length (bufs s2))%nat) by (by rewrite Hbs, length_alter).
  unfold hit_state. state_fields.
  change (bufs s2 !!! b) with (bufat s2 b). rewrite Hat, Rdata, Rv, Rr.
  rewrite int_wrap_decr by lia.
  rewrite int_wrap_id by (unfold is_int, INT_MIN, INT_MAX in *; lia).
  unfold bufat. repeat split; try done. lia.
Qed.

(** X18: [bunpin] undoes [bpin]: after [bpin(b); bunpin(b)] every buffer
    and every chain is as before, for every reference count an [int] can
    hold. *)
Theorem bpin_bunpin_round_trip (s : kstate) (b : nat) :
  is_int (refcnt (bufat s b)) ->
  exists s1 s2,
    bpin b s = Ret tt s1 /\ bunpin b s1 = Ret tt s2 /\
    bufs s2 = bufs s /\ chains s2 = chains s /\ disk s2 = disk s.
Proof.
  intros Hr.
  destruct (bpin_fields s b) as (Hrun1 & Hb1 & Hc1 & _ & _ & Hd1 & _).
  destruct (bunpin_fields (final (bpin b s)) b) as (Hrun2 & Hb2 & Hc2 & _ & _ & Hd2 & _).
  eexists _, _. split; [exact Hrun1 |]. split; [exact Hrun2 |].
  split; [| split; [congruence | congruence]].
  rewrite Hb2, Hb1, list_alter_alter_eq.
  rewrite <- (list_alter_id id (bufs s) b) at 2 by done.
  apply list_alter_ext; [| done]. intros x Hx.
  apply list_lookup_total_correct in Hx. unfold bufat in Hr. rewrite Hx in Hr.
  unfold decr, incr, set_refcnt. simpl. rewrite int_wrap_round by done.
  by destruct x.
Qed.

(** X19: an operation called with no spin-lock held ends with none held,
    whether it returns, panics or sleeps, and every [acquiresleep] it
    made was made with no spin-lock held. *)
Theorem operations_release_spinlocks (o : op) (s : kstate) :
  held s = [] ->
  held (run o s) = [] /\
  exists delta, log (run o s) = log s ++ delta /\ Forall sleep_unlocked delta.
Proof.
  intros Hh. destruct (bread_or_other o) as [(dv & bn & ->) | Ho].
  - apply (end_locks dv bn s _ Hh). by apply bread_ends.
  - by apply other_ops_locks.
Qed.

(** X20: the timestamp of a buffer changes in one place only: an
    operation that changes it is [brelse] of that buffer by the holder of
    its sleep-lock, it leaves the buffer unreferenced, and the new
    timestamp is the tick of the call. *)
Theorem timestamp_changes_only_in_brelse (o : op) (s : kstate) (b : nat) :
  held s = [] ->
  timestamp (bufat (run o s) b) <> timestamp (bufat s b) ->
  o = OpBrelse b /\ holds s b /\
  refcnt (bufat (run o s) b) = 0 /\
  timestamp (bufat (run o s) b) = ticks s.
Proof.
  intros Hh Hts. destruct o as [dv bn | b0 | b0 | b0 | b0]; unfold run in *.
  - destruct Hts. apply (end_timestamp dv bn). by apply bread_ends.
  - destruct (bwrite_fields s b0) as (Hb & _). unfold bufat in Hts. by rewrite Hb in Hts.
  - destruct (decide (lock (bufat s b0) = Some (curproc s))) as [Hhold | Hnot].
    + destruct (brelse_fields s b0 Hhold) as (_ & Hb & _).
      rewrite (bufat_alter s _ _ b0 b Hb) in *.
      destruct (decide _) as [[-> Hlt] | _]; [| done].
      destruct (released_fields (ticks s) (bufat s b0))
        as (_ & _ & _ & _ & _ & Rr & Rt).
      rewrite Rt in *. rewrite Rr.
      destruct (int_wrap (refcnt (bufat s b0) - 1) =? 0) eqn:E; [| done].
      apply Z.eqb_eq in E. done.
    + rewrite (brelse_not_holding s b0 Hnot) in Hts. simpl in Hts. done.
  - destruct (bpin_fields s b0) as (_ & Hb & _).
    rewrite (bufat_alter s _ _ b0 b Hb) in Hts.
    by destruct (decide _) as [[-> _] | _].
  - destruct (bunpin_fields s b0) as (_ & Hb & _).
    rewrite (bufat_alter s _ _ b0 b Hb) in Hts.
    by destruct (decide _) as [[-> _] | _].
Qed.



(** X23: the eviction scan of [bget], started with no spin-lock held,
    changes no buffer, no chain and logs nothing; when it ends it holds
    the lock of the bucket of its candidate and no other lock, and no lock
    at all when it found no candidate. *)
Theorem scan_retains_candidate_lock (s : kstate) :
  held s = [] ->
  exists s',
    for_each scan_bucket (seqZ 0 NBUK) (mkscan 0 false None, -1) s
    = Ret (lru_scan (bufs s) (chains s)) s' /\
    bufs s' = bufs s /\ chains s' = chains s /\ log s' = log s /\
    (forall l, prev_lru_b (fst (lru_scan (bufs s) (chains s))) = Some l ->
       0 <= lbucket l < NBUK /\ held s' = [BucketLock (lbucket l)]) /\
    (prev_lru_b (fst (lru_scan (bufs s) (chains s))) = None -> held s' = []).
Proof.
  intros Hh. eexists. split; [by apply scan_run |].
  split; [done |]. split; [done |]. split; [done |]. split.
  - intros l Hl. split; [by eapply scan_link_range |].
    destruct (link_inv_found _ l (lru_scan_link (bufs s) (chains s)) Hl) as [Hid Hne].
    cbn [held set_held]. rewrite Hid. unfold scan_locks.
    apply Z.eqb_neq in Hne. by rewrite Hne.
  - intros Hl. cbn [held set_held].
    by rewrite (link_inv_none _ (lru_scan_link (bufs s) (chains s)) Hl).
Qed.

(** X24: the buffer evicted is the one released last, not the one unused
    longest: after [brelse] took the last reference of [b] at a tick later
    than every other timestamp, the next [bread] of a block that is not
    cached evicts [b] and returns it with the new identity. *)
Theorem last_released_is_evicted_first (s : kstate) (b : nat) (dv bn : Z) :
  cache_ok s -> held s = [] -> counts_fit s ->
  holds s b -> refcnt (bufat s b) = 1 ->
  (forall w, (w < length (bufs s))%nat -> w <> b -> timestamp (bufat s w) < ticks s) ->
  lookup_chain (bufs s) dv bn (chain_of (chains s) (hash dv bn)) = None ->
  exists s1 s2,
    brelse b s = Ret tt s1 /\
    refcnt (bufat s1 b) = 0 /\ timestamp (bufat s1 b) = ticks s /\
    bread dv bn s1 = Ret b s2 /\
    dev (bufat s2 b) = dv /\ blockno (bufat s2 b) = bn.
Proof.
  intros Hok Hh Hfit Hhold Hr1 Hlate Hm.
  assert (Hlt : (b < length (bufs s))%nat).
  { destruct (decide (b < length (bufs s))%nat); [done |].
    unfold holds, bufat in Hhold.
    rewrite list_lookup_total_alt, lookup_ge_None_2 in Hhold by lia. done. }
  destruct (brelse_fields s b Hhold) as (Hrel & Hbs & Hcs & _ & _ & _ & Hheld).
  pose proof (op_keeps_ok (OpBrelse b) s Hok Hh Hfit I) as Hok1.
  unfold run in Hok1.
  set (s1 := final (brelse b s)) in *.
  pose proof (ok_wf s1 Hok1) as Hwf1.
  assert (Hh1 : held s1 = []) by (rewrite Hheld, Hh; by rewrite release_head).
  destruct (released_fields (ticks s) (bufat s b))
    as (Rd & Rn & _ & _ & _ & Rr & Rt).
  rewrite Hr1 in Rr, Rt. change (int_wrap (1 - 1)) with 0 in Rr, Rt. simpl in Rt.
  assert (Hat : forall w, bufat s1 w
                = if decide (w = b) then released (ticks s) (bufat s b) else bufat s w).
  { intros w. rewrite (bufat_alter s s1 _ b w Hbs).
    destruct (decide (w = b)) as [-> | Hne].
    - by rewrite decide_True.
    - rewrite decide_False; [done | tauto]. }
  assert (Hb1 : bufat s1 b = released (ticks s) (bufat s b)).
  { by rewrite Hat, decide_True. }
  assert (Hm1 : lookup_chain (bufs s1) dv bn (chain_of (chains s1) (hash dv bn)) = None).
  { rewrite Hcs, <- Hm. apply lookup_chain_ext. intros w _.
    change (bufs s1 !!! w) with (bufat s1 w). rewrite Hat.
    destruct (decide (w = b)) as [-> | _]; [by rewrite Rd, Rn | done]. }
  assert (Hlen1 : length (bufs s1) = length (bufs s)) by (by rewrite Hbs, length_alter).
  assert (Hin : b ∈ scan_order s1) by (apply wf_covered; [done | lia]).
  exists s1. 
  destruct (prev_lru_b (fst (lru_scan (bufs s1) (chains s1)))) as [l |] eqn:Hl.
  - destruct (bget_on_candidate s1 dv bn l Hh1 Hm1 Hl) as (n & v & Hv & Hn & Hv0 & Hbest & _).
    destruct (Hbest (wf_stamps s1 Hwf1)) as (_ & _ & Hall).
    apply list_elem_of_lookup_1 in Hin as [m Hmb].
    assert (Hb0 : refcnt (bufs s1 !!! b) = 0).
    { change (refcnt (bufat s1 b) = 0). by rewrite Hb1. }
    destruct (Hall m b Hmb Hb0) as [Hle _].
    change (timestamp (bufat s1 b) <= timestamp (bufat s1 v)) in Hle.
    assert (Hvb : v = b).
    { destruct (decide (v = b)) as [| Hne]; [done |]. exfalso.
      assert (Hvlt : (v < length (bufs s))%nat).
      { rewrite <- Hlen1. apply wf_linked; [done |]. by eapply list_elem_of_lookup_2. }
      pose proof (Hlate v Hvlt Hne) as Hts.
      rewrite Hb1, Rt, (Hat v), decide_False in Hle by done. lia. }
    subst v.
    destruct (bread_miss s1 dv bn l Hwf1 Hh1 Hm1 Hl) as (v & Hv' & _ & _ & Hvlt & _ & Hrun).
    assert (v = b) by congruence. subst v.
    eexists. split; [done |]. rewrite Hb1, Rr, Rt.
    split; [done |]. split; [done |]. split; [exact Hrun |].
    unfold install_state. state_fields. done.
  - exfalso. refine (scan_none_all_pinned s1 Hl (wf_stamps s1 Hwf1) b Hin _).
    by rewrite Hb1.
Qed.

(** X25: the outcome of [bread] on a well-formed cache is decided by
    the lookup and the sleep-lock: a cached block is returned in its
    buffer, or the caller sleeps when that buffer is locked; a block that
    is not cached ends in the null dereference when every buffer is
    referenced, and otherwise is returned in a buffer that was
    unreferenced. *)
Theorem bread_outcome (s : kstate) (dv bn : Z) :
  wf s -> held s = [] ->
  match lookup_chain (bufs s) dv bn (chain_of (chains s) (hash dv bn)) with
  | Some b =>
      match lock (bufat s b) with
      | Some _ => exists s', bread dv bn s = Sleeps s'
      | None => exists s', bread dv bn s = Ret b s'
      end
  | None =>
      (Forall (fun b => refcnt (bufat s b) <> 0) (scan_order s) /\
       bread dv bn s = NullDeref s) \/
      (exists v s', v ∈ scan_order s /\ refcnt (bufat s v) = 0 /\
                    bread dv bn s = Ret v s')
  end.
Proof.
  intros Hwf Hh.
  destruct (lookup_chain (bufs s) dv bn (chain_of (chains s) (hash dv bn)))
    as [b |] eqn:Hm.
  - rewrite (bread_hit s dv bn b Hh Hm).
    destruct (lock (bufat s b)); by eexists.
  - destruct (prev_lru_b (fst (lru_scan (bufs s) (chains s)))) as [l |] eqn:Hl.
    + right. destruct (bread_miss s dv bn l Hwf Hh Hm Hl) as (v & Hv & Hr & Hv0 & _ & _ & Hrun).
      exists v. eexists. split; [| by split].
      apply elem_of_scan_order. exists (lbucket l). split; [done |].
      by eapply list_elem_of_lookup_2.
    + left. split.
      * apply list.Forall_forall. intros w Hw.
        exact (scan_none_all_pinned s Hl (wf_stamps s Hwf) w Hw).
      * apply bread_null_deref. by apply bget_on_no_candidate.
Qed.

(** X26: [bread] changes one buffer only: when it returns [b], every
    other buffer is as before, and so are the disk, the tick counter and
    the running process. *)
Theorem bread_changes_one_buffer (s : kstate) (dv bn : Z) (b : nat) (s' : kstate) :
  wf s -> held s = [] ->
  bread dv bn s = Ret b s' ->
  (forall b', b' <> b -> bufat s' b' = bufat s b') /\
  length (bufs s') = length (bufs s) /\
  disk s' = disk s /\ ticks s' = ticks s /\ curproc s' = curproc s.
Proof.
  intros Hwf Hh Hrun.
  destruct (lookup_chain (bufs s) dv bn (chain_of (chains s) (hash dv bn)))
    as [b0 |] eqn:Hm.
  - rewrite (bread_hit s dv bn b0 Hh Hm) in Hrun.
    destruct (lock (bufat s b0)); [discriminate |].
    injection Hrun as <- <-. unfold hit_state.
    destruct (valid (bufat s b0) =? 0).
    + split; [| by autorewrite with kfld; rewrite !length_alter].
      intros b' Hne. unfold bufat. autorewrite with kfld.
      by rewrite !alter_other.
    + split; [| by autorewrite with kfld; rewrite !length_alter].
      intros b' Hne. unfold bufat. autorewrite with kfld.
      by rewrite !alter_other.
  - destruct (prev_lru_b (fst (lru_scan (bufs s) (chains s)))) as [l |] eqn:Hl.
    + destruct (bread_miss s dv bn l Hwf Hh Hm Hl) as (v & _ & _ & _ & _ & _ & Hb).
      rewrite Hb in Hrun. injection Hrun as <- <-. unfold install_state.
      split; [| by autorewrite with kfld; rewrite !length_alter].
      intros b' Hne. unfold bufat. autorewrite with kfld.
      by rewrite !alter_other.
    + rewrite (bread_null_deref s dv bn s) in Hrun; [discriminate |].
      by apply bget_on_no_candidate.
Qed.

(** ** The theorems at work *)

Lemma seven_is_uint : is_uint 7.
Proof. unfold is_uint, UINT_MAX. lia. Qed.

Lemma after_binit_ok : cache_ok (after_binit 7 1).
Proof. apply cache_ok_check. vm_compute. reflexivity. Qed.

Lemma after_binit_fits : counts_fit (after_binit 7 1).
Proof. apply counts_fit_check. vm_compute. reflexivity. Qed.


Lemma binit_witness :
  exists s,
    binit (boot 7 1 (fun _ _ => [])) = Ret tt s /\
    cache_ok s /\
    scan_order s = seq 0 NBUF /\
    chain_of (chains s) 0 = seq 0 NBUF /\
    (forall b, (b < NBUF)%nat -> bufat s b = mkbuf 0 0 0 None 0 7 []).
Proof.
  apply (binit_establishes_invariant 7 1 (fun _ _ => [])).
  unfold is_uint, UINT_MAX. lia.
Defined.

Lemma keep_invariant_witness : cache_ok (run (OpBread 1 5) (after_binit 7 1)).
Proof.
  apply (operations_keep_invariant (OpBread 1 5) (after_binit 7 1)).
  - apply after_binit_ok.
  - vm_compute. reflexivity.
  - apply after_binit_fits.
  - simpl. exact I.
Defined.

Lemma stay_linked_witness :
  scan_order (run (OpBread 1 5) (after_binit 7 1)) ≡ₚ scan_order (after_binit 7 1).
Proof.
  apply (buffers_stay_linked (OpBread 1 5) (after_binit 7 1)).
  - vm_compute. reflexivity.
  - vm_compute. reflexivity.
Defined.



Lemma never_panics_witness :
  bget 1 5 (after_binit 7 1) <> Panic "bget: no buffers" (after_binit 7 1) /\
  bread 1 5 (after_binit 7 1) <> Panic "bget: no buffers" (after_binit 7 1).
Proof.
  apply (bget_never_panics (after_binit 7 1) 1 5 "bget: no buffers" (after_binit 7 1)).
  vm_compute. reflexivity.
Defined.

Lemma reread_witness :
  exists s2 s3,
    brelse 29 one_read = Ret tt s2 /\
    bread 1 5 s2 = Ret 29%nat s3 /\
    data (bufat s3 29) = data (bufat one_read 29) /\
    valid (bufat s3 29) = valid (bufat one_read 29) /\
    refcnt (bufat s3 29) = refcnt (bufat one_read 29) /\
    chains s3 = chains one_read /\
    disk s3 = disk one_read.
Proof.
  apply (reread_returns_same_buffer (after_binit 7 1) 1 5 29 one_read).
  - apply after_binit_ok.
  - vm_compute. reflexivity.
  - apply after_binit_fits.
  - vm_compute. reflexivity.
Defined.

Lemma round_trip_witness :
  exists s1 s2,
    bpin 29 one_read = Ret tt s1 /\ bunpin 29 s1 = Ret tt s2 /\
    bufs s2 = bufs one_read /\ chains s2 = chains one_read /\
    disk s2 = disk one_read.
Proof.
  apply (bpin_bunpin_round_trip one_read 29).
  unfold is_int, INT_MIN, INT_MAX. vm_compute. split; discriminate.
Defined.

Lemma release_spinlocks_witness :
  held (run (OpBread 1 5) (after_binit 7 1)) = [] /\
  exists delta,
    log (run (OpBread 1 5) (after_binit 7 1)) = log (after_binit 7 1) ++ delta /\
    Forall sleep_unlocked delta.
Proof.
  apply (operations_release_spinlocks (OpBread 1 5) (after_binit 7 1)).
  vm_compute. reflexivity.
Defined.

Lemma timestamp_witness :
  OpBrelse 29 = OpBrelse 29 /\ holds (at_tick 9 one_read) 29 /\
  refcnt (bufat (run (OpBrelse 29) (at_tick 9 one_read)) 29) = 0 /\
  timestamp (bufat (run (OpBrelse 29) (at_tick 9 one_read)) 29)
  = ticks (at_tick 9 one_read).
Proof.
  apply (timestamp_changes_only_in_brelse (OpBrelse 29) (at_tick 9 one_read) 29).
  - vm_compute. reflexivity.
  - vm_compute. discriminate.
Defined.

Lemma one_read_holds : holds one_read 29.
Proof. vm_compute. reflexivity. Qed.


Lemma scan_lock_witness :
  exists s',
    for_each scan_bucket (seqZ 0 NBUK) (mkscan 0 false None, -1) one_read
    = Ret (lru_scan (bufs one_read) (chains one_read)) s' /\
    bufs s' = bufs one_read /\ chains s' = chains one_read /\
    log s' = log one_read /\
    (forall l, prev_lru_b (fst (lru_scan (bufs one_read) (chains one_read))) = Some l ->
       0 <= lbucket l < NBUK /\ held s' = [BucketLock (lbucket l)]) /\
    (prev_lru_b (fst (lru_scan (bufs one_read) (chains one_read))) = None ->
     held s' = []).
Proof.
  apply (scan_retains_candidate_lock one_read).
  vm_compute. reflexivity.
Defined.

Lemma evicted_first_witness :
  exists s1 s2,
    brelse 29 (at_tick 9 one_read) = Ret tt s1 /\
    refcnt (bufat s1 29) = 0 /\ timestamp (bufat s1 29) = ticks (at_tick 9 one_read) /\
    bread 1 6 s1 = Ret 29%nat s2 /\
    dev (bufat s2 29) = 1 /\ blockno (bufat s2 29) = 6.
Proof.
  apply (last_released_is_evicted_first (at_tick 9 one_read) 29 1 6).
  - apply cache_ok_check. vm_compute. reflexivity.
  - vm_compute. reflexivity.
  - apply counts_fit_check. vm_compute. reflexivity.
  - vm_compute. reflexivity.
  - vm_compute. reflexivity.
  - intros w Hw Hne.
    assert (Hall : forallb (fun i => bool_decide (i = 29%nat)
                     || (timestamp (bufat (at_tick 9 one_read) i) <? 9))
                     (seq 0 30) = true) by (vm_compute; reflexivity).
    rewrite forallb_elem_of in Hall.
    assert (Hin : w ∈ seq 0 30).
    { apply elem_of_seq. vm_compute in Hw. lia. }
    apply Hall in Hin. apply orb_true_iff in Hin as [Hin | Hin].
    + by apply bool_decide_eq_true in Hin.
    + by apply Z.ltb_lt in Hin.
  - vm_compute. reflexivity.
Defined.

Lemma bread_outcome_witness :
  match lookup_chain (bufs one_read) 1 5 (chain_of (chains one_read) (hash 1 5)) with
  | Some b =>
      match lock (bufat one_read b) with
      | Some _ => exists s', bread 1 5 one_read = Sleeps s'
      | None => exists s', bread 1 5 one_read = Ret b s'
      end
  | None =>
      (Forall (fun b => refcnt (bufat one_read b) <> 0) (scan_order one_read) /\
       bread 1 5 one_read = NullDeref one_read) \/
      (exists v s', v ∈ scan_order one_read /\ refcnt (bufat one_read v) = 0 /\
                    bread 1 5 one_read = Ret v s')
  end.
Proof.
  apply (bread_outcome one_read 1 5).
  - vm_compute. reflexivity.
  - vm_compute. reflexivity.
Defined.

Lemma one_buffer_witness :
  (forall b', b' <> 29%nat -> bufat one_read b' = bufat (after_binit 7 1) b') /\
  length (bufs one_read) = length (bufs (after_binit 7 1)) /\
  disk one_read = disk (after_binit 7 1) /\
  ticks one_read = ticks (after_binit 7 1) /\
  curproc one_read = curproc (after_binit 7 1).
Proof.
  apply (bread_changes_one_buffer (after_binit 7 1) 1 5 29 one_read).
  - vm_compute. reflexivity.
  - vm_compute. reflexivity.
  - vm_compute. reflexivity.
Defined.

End BioInvariants.
